(** * Surface light-field dataset: a shallow embedding of
      [load_dslf_surface.py] and of the Gaussian basis of
      [residual_regression.py].

    The floating-point values of the geometry are idealised as real
    numbers ([R]); the places where IEEE arithmetic produces [nan] or an
    infinity are written out (an error of the [int()] conversion, a [None]
    direction).  Two computations are also given as the floats have them:
    the number of draws of the thinning step, over the float operations
    of Python and numpy taken as parameters ([float_ops]), and the
    Gaussian basis, over IEEE binary32 ([float32]).  Python exceptions are
    the constructors of [py_error]; [numpy]'s global random generator is an
    explicit tape threaded through the calls that draw. *)

From Stdlib Require Import Reals Lra Lia ZArith List String Ascii SpecFloat.
From stdpp Require Import base option list gmap strings.
From Stdlib Require Import DecimalString.
From stdpp Require Import sorting.

Local Open Scope R_scope.

(** ** Exceptions and the error monad *)

Inductive py_error : Type :=
  | IndexError          (* list index out of range, mask of the wrong length *)
  | KeyError            (* dict lookup of an absent key *)
  | ValueError          (* float() of a malformed token, concatenate of unequal heights *)
  | ZeroDivisionError   (* Python float division by an int 0 *)
  | LinAlgError         (* np.linalg.inv of a singular matrix *)
  | FloatToIntError.    (* int() of nan or of an infinity (ValueError / OverflowError) *)

Inductive result (A : Type) : Type :=
  | Ok (a : A)
  | Err (e : py_error).
Arguments Ok {A} a.
Arguments Err {A} e.

Definition bind {A B} (m : result A) (k : A -> result B) : result B :=
  match m with
  | Ok a => k a
  | Err e => Err e
  end.

Notation "x <- m ;; k" := (bind m (fun x => k))
  (at level 100, m at next level, right associativity).

Definition is_ok {A} (m : result A) : bool :=
  match m with Ok _ => true | Err _ => false end.

(** [d[k]] of a Python dict. *)
Definition dict_get {V} (d : gmap string V) (k : string) : result V :=
  match d !! k with
  | Some v => Ok v
  | None => Err KeyError
  end.

(** [l[i]] of a Python list, for a non-negative index. *)
Definition list_get {A} (l : list A) (i : nat) : result A :=
  match l !! i with
  | Some v => Ok v
  | None => Err IndexError
  end.

(** ** Vectors and matrices *)

Record vec3 : Type := V3 { vx : R; vy : R; vz : R }.
Record mat3 : Type := M3 { r0 : vec3; r1 : vec3; r2 : vec3 }.
Record vec4 : Type := V4 { w0 : R; w1 : R; w2 : R; w3 : R }.
Record mat4 : Type := M4 { m0 : vec4; m1 : vec4; m2 : vec4; m3 : vec4 }.

Definition vadd (a b : vec3) : vec3 :=
  V3 (vx a + vx b) (vy a + vy b) (vz a + vz b).
Definition vsub (a b : vec3) : vec3 :=
  V3 (vx a - vx b) (vy a - vy b) (vz a - vz b).
Definition vscale (c : R) (a : vec3) : vec3 :=
  V3 (c * vx a) (c * vy a) (c * vz a).
Definition vdot (a b : vec3) : R :=
  vx a * vx b + vy a * vy b + vz a * vz b.
Definition vzero : vec3 := V3 0 0 0.

(** [np.linalg.norm] of one row. *)
Definition vnorm (a : vec3) : R := sqrt (vdot a a).

Definition col0 (m : mat3) : vec3 := V3 (vx (r0 m)) (vx (r1 m)) (vx (r2 m)).
Definition col1 (m : mat3) : vec3 := V3 (vy (r0 m)) (vy (r1 m)) (vy (r2 m)).
Definition col2 (m : mat3) : vec3 := V3 (vz (r0 m)) (vz (r1 m)) (vz (r2 m)).

(** Matrix times column vector. *)
Definition mvmul (m : mat3) (p : vec3) : vec3 :=
  V3 (vdot (r0 m) p) (vdot (r1 m) p) (vdot (r2 m) p).

(** [np.matmul] of two 3x3 matrices. *)
Definition mmul (a b : mat3) : mat3 :=
  let row r := V3 (vdot r (col0 b)) (vdot r (col1 b)) (vdot r (col2 b)) in
  M3 (row (r0 a)) (row (r1 a)) (row (r2 a)).

(** [.T] *)
Definition transpose (m : mat3) : mat3 := M3 (col0 m) (col1 m) (col2 m).

(** Row vector times matrix, one row of [np.matmul(uvd, m)]. *)
Definition vmmul (p : vec3) (m : mat3) : vec3 :=
  V3 (vdot p (col0 m)) (vdot p (col1 m)) (vdot p (col2 m)).

Definition I3 : mat3 := M3 (V3 1 0 0) (V3 0 1 0) (V3 0 0 1).

Definition det3 (m : mat3) : R :=
  let '(M3 (V3 a b c) (V3 d e f) (V3 g h i)) := m in
  a * (e * i - f * h) - b * (d * i - f * g) + c * (d * h - e * g).

Definition adjugate (m : mat3) : mat3 :=
  let '(M3 (V3 a b c) (V3 d e f) (V3 g h i)) := m in
  M3 (V3 (e * i - f * h) (c * h - b * i) (b * f - c * e))
     (V3 (f * g - d * i) (a * i - c * g) (c * d - a * f))
     (V3 (d * h - e * g) (b * g - a * h) (a * e - b * d)).

Definition mscale (c : R) (m : mat3) : mat3 :=
  M3 (vscale c (r0 m)) (vscale c (r1 m)) (vscale c (r2 m)).

(** [np.linalg.inv] in exact arithmetic: raises on a singular matrix.
    (LAPACK, on floats, raises when its elimination meets a pivot that is
    exactly zero; the properties below use the regular case only.) *)
Definition inv (k : mat3) : result mat3 :=
  if Req_dec_T (det3 k) 0 then Err LinAlgError
  else Ok (mscale (/ det3 k) (adjugate k)).

(** [c2w[:3,:3]] and [c2w[:3, 3]]. *)
Definition rot (c2w : mat4) : mat3 :=
  let f r := V3 (w0 r) (w1 r) (w2 r) in
  M3 (f (m0 c2w)) (f (m1 c2w)) (f (m2 c2w)).
Definition trans (c2w : mat4) : vec3 :=
  V3 (w3 (m0 c2w)) (w3 (m1 c2w)) (w3 (m2 c2w)).

(** ** numpy list operations *)

(** [a[mask]] for a boolean mask: the rows at which the mask is true, in
    order; a mask of another length is an [IndexError]. *)
Fixpoint select {A} (mask : list bool) (a : list A) : list A :=
  match mask, a with
  | b :: mask', x :: a' => if b then x :: select mask' a' else select mask' a'
  | _, _ => []
  end.

Definition bool_index {A} (a : list A) (mask : list bool) : result (list A) :=
  if (length mask =? length a)%nat then Ok (select mask a) else Err IndexError.

(** [np.sum(mask)] *)
Definition count_true (mask : list bool) : nat :=
  length (List.filter (fun b : bool => b) mask).

(** [mask[idx] = False] for an integer index array. *)
Definition clear_at (mask : list bool) (idx : list nat) : list bool :=
  fold_left (fun m i => <[i := false]> m) idx mask.

Definition assign_false (mask : list bool) (idx : list nat) : result (list bool) :=
  if forallb (fun i => (i <? length mask)%nat) idx
  then Ok (clear_at mask idx) else Err IndexError.

(** ** The random generator

    The state of [np.random] is a tape of naturals and a read position;
    [randint 0 n (L,)] reads [L] cells and reduces each into [[0, n)]. *)
Record rng : Type := Rng { tape : nat -> nat; cursor : nat }.

Definition randint (g : rng) (n L : nat) : list nat * rng :=
  (map (fun k => tape g (cursor g + k) mod n) (seq 0 L),
   Rng (tape g) (cursor g + L)).

(** ** The dataset object

    The fields of [DslfSurfaceDataset] that the sample construction and
    [__getitem__] touch.  A row of [x_train] is a position followed by a
    direction; the direction is [None] where numpy stores [nan] (a zero
    vector divided by its zero norm). *)

Record row6 : Type := Row6 { position : vec3; direction : option vec3 }.

Record dataset : Type := Dataset {
  list_ids : list string;
  list_images : gmap string string;
  list_poses : gmap string mat4;
  list_Ks : gmap string mat3;
  labels : gmap string (list vec3);
  depths : gmap string (list R);
  limit : option Z;
  sH : nat;                       (* self.H *)
  sW : nat;                       (* self.W *)
  x_trains : gmap string (list row6);
  masks : gmap string (list bool) }.

Definition set_sample (self : dataset) (id : string)
    (x : list row6) (m : list bool) : dataset :=
  Dataset (list_ids self) (list_images self) (list_poses self) (list_Ks self)
          (labels self) (depths self) (limit self) (sH self) (sW self)
          (<[id := x]> (x_trains self)) (<[id := m]> (masks self)).

Definition set_label (self : dataset) (id : string) (l : list vec3) : dataset :=
  Dataset (list_ids self) (list_images self) (list_poses self) (list_Ks self)
          (<[id := l]> (labels self)) (depths self) (limit self)
          (sH self) (sW self) (x_trains self) (masks self).

Definition set_depth (self : dataset) (id : string) (d : list R) : dataset :=
  Dataset (list_ids self) (list_images self) (list_poses self) (list_Ks self)
          (labels self) (<[id := d]> (depths self)) (limit self)
          (sH self) (sW self) (x_trains self) (masks self).

(** ** calculate_x_y_z_theta_phi *)

(** [np.stack(np.meshgrid(ucoords, vcoords), -1).reshape(-1, 2)]: the
    pixel coordinates, [u] fastest. *)
Definition meshgrid_uv (w h : nat) : list (R * R) :=
  flat_map (fun v => map (fun u => (INR u, INR v)) (seq 0 w)) (seq 0 h).

(** [np.concatenate([uv, depth], axis=1)] *)
Definition concatenate_uvd (uv : list (R * R)) (depth : list R)
    : result (list vec3) :=
  if (length uv =? length depth)%nat
  then Ok (zip_with (fun p d => V3 (fst p) (snd p) d) uv depth)
  else Err ValueError.

(** [x != 0.] *)
Definition nonzero (x : R) : bool :=
  if Req_dec_T x 0 then false else true.

(** [int(np.log(limit/base) // np.log(1.-1./(W*H)))] in exact arithmetic.
    [1./0] raises; the logarithm of a ratio that is not positive is [nan]
    or [-inf], which [int()] refuses.  [draw_count_np] below is the same
    line over the float operations. *)
Definition draw_count (lim : Z) (base n : nat) : result Z :=
  if (n =? 0)%nat then Err ZeroDivisionError
  else if (lim <=? 0)%Z then Err FloatToIntError
  else Ok (Int_part (ln (IZR lim / INR base) / ln (1 - 1 / INR n))).

(** Lines 158-162: thinning of the mask under [limit]. *)
Definition subsample (lim : option Z) (n : nat) (mask : list bool) (g : rng)
    : result (list bool * rng) :=
  let base := count_true mask in
  match lim with
  | Some l =>
      if (l <? Z.of_nat base)%Z then
        L <- draw_count l base n ;;
        if (L <? 0)%Z then Err ValueError
        else
          let idx := randint g n (Z.to_nat L) in
          mask' <- assign_false mask (fst idx) ;;
          Ok (mask', snd idx)
      else Ok (mask, g)
  | None => Ok (mask, g)
  end.

(** Line 161 as Python and numpy evaluate it.  The operations on floats
    are not code of this repository and are parameters: [of_int] converts
    an integer operand to a float, [true_divide] is the division of floats
    ([limit/base] with [base] a numpy integer, and [1./(W*H)] once [W*H]
    is known not to be 0), [subtract] the subtraction, [np_log] numpy's
    logarithm, [floor_divide] numpy's [//], and [int_] is Python's [int()],
    which raises on [nan] and on an infinity. *)
Record float_ops (F : Type) : Type := FloatOps {
  of_int : Z -> F;
  true_divide : F -> F -> F;
  subtract : F -> F -> F;
  np_log : F -> F;
  floor_divide : F -> F -> F;
  int_ : F -> result Z }.
Arguments of_int {F} f z.
Arguments true_divide {F} f a b.
Arguments subtract {F} f a b.
Arguments np_log {F} f a.
Arguments floor_divide {F} f a b.
Arguments int_ {F} f a.

(** [int(np.log(limit/base) // np.log(1.-1./(W*H)))] *)
Definition draw_count_np {F} (ops : float_ops F) (lim : Z) (base n : nat) : result Z :=
  let ratio := true_divide ops (of_int ops lim) (of_int ops (Z.of_nat base)) in
  if (n =? 0)%nat then Err ZeroDivisionError
  else
    let miss :=
      subtract ops (of_int ops 1)
               (true_divide ops (of_int ops 1) (of_int ops (Z.of_nat n))) in
    int_ ops (floor_divide ops (np_log ops ratio) (np_log ops miss)).

(** Lines 158-162 over these operations. *)
Definition subsample_np {F} (ops : float_ops F) (lim : option Z) (n : nat)
    (mask : list bool) (g : rng) : result (list bool * rng) :=
  let base := count_true mask in
  match lim with
  | Some l =>
      if (l <? Z.of_nat base)%Z then
        L <- draw_count_np ops l base n ;;
        if (L <? 0)%Z then Err ValueError
        else
          let idx := randint g n (Z.to_nat L) in
          mask' <- assign_false mask (fst idx) ;;
          Ok (mask', snd idx)
      else Ok (mask, g)
  | None => Ok (mask, g)
  end.

(** The operations of exact arithmetic, which [draw_count] idealises the
    floats by. *)
Definition exact_ops : float_ops R :=
  FloatOps R IZR Rdiv Rminus ln (fun a b => IZR (Int_part (a / b)))
           (fun x => Ok (Int_part x)).

Definition vdiv (a : vec3) (c : R) : vec3 := V3 (vx a / c) (vy a / c) (vz a / c).

(** One row of [dirs / np.linalg.norm(dirs, axis=1, keepdims=True)];
    [None] is the [nan] row of 0/0. *)
Definition normalize (d : vec3) : option vec3 :=
  if Req_dec_T (vnorm d) 0 then None else Some (vdiv d (vnorm d)).

(** [uvd[:,:2] = uvd[:,:2] * uvd[:,2:3]] on one row. *)
Definition scale_uv (p : vec3) : vec3 := V3 (vx p * vz p) (vy p * vz p) (vz p).

Definition calculate_x_y_z_theta_phi (self : dataset) (id : string) (g : rng)
    : result (list row6 * list bool * rng) :=
  label <- dict_get (labels self) id ;;
  depth <- dict_get (depths self) id ;;
  c2w <- dict_get (list_poses self) id ;;
  K <- dict_get (list_Ks self) id ;;
  uvd <- concatenate_uvd (meshgrid_uv (sW self) (sH self)) depth ;;
  let mask := map (fun p => nonzero (vz p)) uvd in
  mg <- subsample (limit self) (sW self * sH self) mask g ;;
  let mask := fst mg in
  let uvd := select mask uvd in
  let uvd := map scale_uv uvd in
  Kinv <- inv K ;;
  let M := transpose (mmul (rot c2w) Kinv) in
  let x_train := map (fun p => vadd (vmmul p M) (trans c2w)) uvd in
  let dirs := map (fun x => vsub x (trans c2w)) x_train in
  let dirs := map normalize dirs in
  Ok (zip_with Row6 x_train dirs, mask, snd mg).

(** The loop of lines 137-138. *)
Fixpoint load_samples (self : dataset) (ids : list string) (g : rng)
    : result (dataset * rng) :=
  match ids with
  | [] => Ok (self, g)
  | id :: ids' =>
      r <- calculate_x_y_z_theta_phi self id g ;;
      load_samples (set_sample self id (fst (fst r)) (snd (fst r))) ids' (snd r)
  end.

(** ** __len__ and __getitem__ *)

Definition len (self : dataset) : nat := length (list_ids self).

(** [l[i]] with Python's negative indices. *)
Definition py_index {A} (l : list A) (i : Z) : result A :=
  if (i <? 0)%Z then
    if (i + Z.of_nat (length l) <? 0)%Z then Err IndexError
    else list_get l (Z.to_nat (i + Z.of_nat (length l)))
  else list_get l (Z.to_nat i).

(** [__getitem__] as a state transformer: the outcome and the dataset
    after the call. *)
Definition getitem (self : dataset) (index : Z)
    : result (list row6 * list vec3 * list bool) * dataset :=
  (id <- py_index (list_ids self) index ;;
   mask <- dict_get (masks self) id ;;
   x <- dict_get (x_trains self) id ;;
   lab <- dict_get (labels self) id ;;
   sel <- bool_index lab mask ;;
   mask2 <- dict_get (masks self) id ;;
   Ok (x, sel, mask2),
   self).

(** ** Loading the labels (lines 118-124)

    A decoded image is its two dimensions and its pixels, row by column;
    the channels of an 8-bit image are the reals 0..255. *)

Record image : Type := Image { ih : nat; iw : nat; px : nat -> nat -> vec3 }.

(** [I.reshape((-1, 3))]: the pixels in row-major order. *)
Definition reshape_rows (I : image) : list vec3 :=
  flat_map (fun y => map (fun x => px I y x) (seq 0 (iw I))) (seq 0 (ih I)).

(** [np.array(I) / 255.] *)
Definition div255 (I : image) : image :=
  Image (ih I) (iw I) (fun y x => vdiv (px I y x) 255).

Section Loading.

(** [cv2.resize(I, (W, H), interpolation=cv2.INTER_LINEAR)] belongs to
    OpenCV.  Linear interpolation makes every output pixel a weighted
    sum of source pixels; the weights depend on the two shapes and on
    the output position only.  [taps (sh, sw) (dh, dw) y x] lists the
    source positions and their weights. *)
Variable taps : nat * nat -> nat * nat -> nat -> nat -> list (nat * nat * R).

Definition weighted_sum (I : image) (ts : list (nat * nat * R)) : vec3 :=
  fold_right (fun t acc => vadd (vscale (snd t) (px I (fst (fst t)) (snd (fst t)))) acc)
             vzero ts.

Definition resize (I : image) (w h : nat) : image :=
  Image h w (fun y x => weighted_sum I (taps (ih I, iw I) (h, w) y x)).

(** [imageio.imread(path, pilmode='RGB')] *)
Variable imread : string -> result image.

(** The body of the loop, from the decoded image on. *)
Definition load_label (H W : nat) (I : image) : list vec3 :=
  let I := div255 I in
  let I := if decide ((ih I, iw I) = (H, W)) then I else resize I W H in
  reshape_rows I.

(** What a resize does to a channel when it stores its result: [q] is
    the identity for a resize that keeps fractions, and a rounding to an
    integer level for the resize of an 8-bit image. *)
Definition quantise (q : R -> R) (I : image) : image :=
  Image (ih I) (iw I)
        (fun y x => V3 (q (vx (px I y x))) (q (vy (px I y x))) (q (vz (px I y x)))).

(** The order of the specification: resize the image as it was read
    first, normalise after. *)
Definition spec_load_label (q : R -> R) (H W : nat) (I : image) : list vec3 :=
  let I := if decide ((ih I, iw I) = (H, W)) then I else quantise q (resize I W H) in
  reshape_rows (div255 I).

Fixpoint load_labels (self : dataset) (ids : list string) : result dataset :=
  match ids with
  | [] => Ok self
  | id :: ids' =>
      imagepath <- dict_get (list_images self) id ;;
      I <- imread imagepath ;;
      load_labels (set_label self id (load_label (sH self) (sW self) I)) ids'
  end.

(** [rdwrapper.render_depth(c2w, K, depth)] fills the buffer the caller
    allocated with [H*W] entries; [render_depth c2w K i] is the value it
    writes at entry [i]. *)
Variable render_depth : mat4 -> mat3 -> nat -> R.

Fixpoint load_depths (self : dataset) (ids : list string) : result dataset :=
  match ids with
  | [] => Ok self
  | id :: ids' =>
      c2w <- dict_get (list_poses self) id ;;
      K <- dict_get (list_Ks self) id ;;
      let depth := map (render_depth c2w K) (seq 0 (sH self * sW self)) in
      load_depths (set_depth self id depth) ids'
  end.

(** Lines 116-138 of [__init__]: the three loops over [list_ids]. *)
Definition init_loops (self : dataset) (g : rng) : result (dataset * rng) :=
  self <- load_labels self (list_ids self) ;;
  self <- load_depths self (list_ids self) ;;
  load_samples self (list_ids self) g.

End Loading.

(** A quantiser whose values are integers. *)
Definition integral (q : R -> R) : Prop := forall x, exists k : Z, q x = IZR k.

(** The channels of an 8-bit image lie in [[0, 255]]. *)
Definition eight_bit (I : image) : Prop :=
  forall y x, (0 <= vx (px I y x) <= 255) /\ (0 <= vy (px I y x) <= 255) /\
              (0 <= vz (px I y x) <= 255).

(** Interpolation weights: none is negative and they add up to 1. *)
Definition convex (ts : list (nat * nat * R)) : Prop :=
  Forall (fun t => 0 <= snd t) ts /\ fold_right (fun t acc => snd t + acc) 0 ts = 1.

Definition in_unit (p : vec3) : Prop :=
  (0 <= vx p <= 1) /\ (0 <= vy p <= 1) /\ (0 <= vz p <= 1).

(** ** Parsing a camera pose (lines 86-93) *)

(** The ASCII characters that [str.split()] treats as white space. *)
Definition is_space (c : ascii) : bool :=
  let n := nat_of_ascii c in
  (n =? 32)%nat || ((9 <=? n)%nat && (n <=? 13)%nat) || ((28 <=? n)%nat && (n <=? 31)%nat).

(** [s.split()]; [cur] is the token being read. *)
Fixpoint split_from (cur : string) (s : string) : list string :=
  match s with
  | EmptyString => if decide (cur = EmptyString) then [] else [cur]
  | String c s' =>
      if is_space c
      then (if decide (cur = EmptyString) then split_from EmptyString s'
            else cur :: split_from EmptyString s')
      else split_from (cur +:+ String c EmptyString) s'
  end.

Definition split (s : string) : list string := split_from EmptyString s.

Definition neg_col12 (r : vec4) : vec4 := V4 (w0 r) (- w1 r) (- w2 r) (w3 r).

(** [np.reshape(M, (4,4))] *)
Definition reshape44 (M : list R) : result mat4 :=
  match M with
  | [a0; a1; a2; a3; b0; b1; b2; b3; c0; c1; c2; c3; d0; d1; d2; d3] =>
      Ok (M4 (V4 a0 a1 a2 a3) (V4 b0 b1 b2 b3) (V4 c0 c1 c2 c3) (V4 d0 d1 d2 d3))
  | _ => Err ValueError
  end.

Section Parsing.

(** Python's [float()] on a token: a number or [ValueError]. *)
Variable float : string -> result R.

(** [for i in range(16): M[i] = float(extrinsic[i])] *)
Fixpoint fill (extrinsic : list string) (M : list R) (range : list nat)
    : result (list R) :=
  match range with
  | [] => Ok M
  | i :: range' =>
      tok <- list_get extrinsic i ;;
      x <- float tok ;;
      fill extrinsic (<[i := x]> M) range'
  end.

Definition parse_pose (extrinsic : string) : result mat4 :=
  let M := replicate 16 0 in
  let extrinsic := split extrinsic in
  M <- fill extrinsic M (seq 0 16) ;;
  M <- reshape44 M ;;
  Ok (M4 (neg_col12 (m0 M)) (neg_col12 (m1 M)) (neg_col12 (m2 M)) (neg_col12 (m3 M))).

End Parsing.

(** A fragment of [float()]: unsigned decimal integers. *)
Fixpoint digits_value (acc : nat) (s : string) : result nat :=
  match s with
  | EmptyString => Ok acc
  | String c s' =>
      let n := nat_of_ascii c in
      if (48 <=? n)%nat && (n <=? 57)%nat
      then digits_value (10 * acc + (n - 48)) s'
      else Err ValueError
  end.

Definition float_of_digits (s : string) : result R :=
  match s with
  | EmptyString => Err ValueError
  | _ => n <- digits_value 0 s ;; Ok (INR n)
  end.

(** ** The Gaussian basis of [residual_regression.py] (lines 109-115) *)

(** The elements of a torch tensor of the default type: IEEE binary32,
    24 bits of precision, round to nearest even. *)
Definition float32 : Type := spec_float.

Definition mul32 (x y : float32) : float32 := SFmul 24 128 x y.

(** [torch.normal(0, 1, size=(rows, cols))]: the sampler's outputs, read
    row by row from a tape of draws. *)
Definition torch_normal (draws : nat -> float32) (rows cols : nat) : list (list float32) :=
  map (fun i => map (fun j => draws (i * cols + j)%nat) (seq 0 cols)) (seq 0 rows).

(** The value bound to [B] in the ["ffm"] branch; [ffm_map_scale] is the
    scalar as the multiplication of the tensor takes it, in binary32. *)
Definition ffm_B (model_params : option (list (list float32))) (draws : nat -> float32)
    (ffm_map_size : nat) (ffm_map_scale : float32) : list (list float32) :=
  match model_params with
  | None => map (map (fun x => mul32 x ffm_map_scale)) (torch_normal draws ffm_map_size 6)
  | Some B => B
  end.

(** [x == 0]: either zero. *)
Definition is_zero32 (x : float32) : bool :=
  match x with S754_zero _ => true | _ => false end.

(** Neither [nan] nor an infinity. *)
Definition finite32 (x : float32) : bool :=
  match x with S754_zero _ | S754_finite _ _ _ => true | _ => false end.

Definition zero_row (r : list float32) : Prop := Forall (fun x => is_zero32 x = true) r.

(** 1.0 and 1e-30, and the scale 1e-30, in binary32. *)
Definition one32 : float32 := S754_finite false 8388608 (-23).
Definition tiny32 : float32 := S754_finite false 10633824 (-123).

(** ** Averages over the draws

    Every sequence of [L] indices below [n]; [randint] returns each of them
    for some tape, and a uniform generator returns each with the same
    probability. *)
Fixpoint all_draws (n L : nat) : list (list nat) :=
  match L with
  | O => [[]]
  | S L' => flat_map (fun d => map (cons d) (all_draws n L')) (seq 0 n)
  end.

(** Mean number of pixels still valid after [L] uniform draws. *)
Definition expected_survivors (mask : list bool) (n L : nat) : R :=
  INR (sum_list (map (fun idx => count_true (clear_at mask idx)) (all_draws n L)))
  / INR (length (all_draws n L)).

(** The indices a mask keeps, in increasing order. *)
Definition retained (mask : list bool) : list nat :=
  select mask (seq 0 (length mask)).

(** ** The sample of one pixel, as the specification writes it *)

(** [R · K⁻¹ · (u*d, v*d, d) + t] *)
Definition unproject (c2w : mat4) (Kinv : mat3) (u v d : R) : vec3 :=
  vadd (mvmul (rot c2w) (mvmul Kinv (V3 (u * d) (v * d) d))) (trans c2w).

(** Pixel [i] of a row-major buffer of width [w]: column [i mod w], row
    [i / w], and its depth. *)
Definition pixel_position (c2w : mat4) (Kinv : mat3) (w : nat) (depth : list R)
    (i : nat) : vec3 :=
  unproject c2w Kinv (INR (i mod w)) (INR (i / w)) (nth i depth 0).

Definition pixel_row (c2w : mat4) (Kinv : mat3) (w : nat) (depth : list R)
    (i : nat) : row6 :=
  let x := pixel_position c2w Kinv w depth i in
  Row6 x (normalize (vsub x (trans c2w))).

(** [Kinv] is the inverse matrix of [K]. *)
Definition inverse_of (K Kinv : mat3) : Prop :=
  mmul K Kinv = I3 /\ mmul Kinv K = I3.

(** ** Well-formed inputs of the sample construction *)

(** The dictionaries hold the buffers of [id], each with [H*W] rows, as
    the loops of [__init__] leave them. *)
Record loaded (self : dataset) (id : string)
    (label : list vec3) (depth : list R) (c2w : mat4) (K : mat3) : Prop :=
  Loaded {
    loaded_label : labels self !! id = Some label;
    loaded_depth : depths self !! id = Some depth;
    loaded_pose : list_poses self !! id = Some c2w;
    loaded_K : list_Ks self !! id = Some K;
    loaded_label_rows : length label = (sH self * sW self)%nat;
    loaded_depth_rows : length depth = (sH self * sW self)%nat }.

(** [limit], when given, is a positive number of pixels. *)
Definition limit_ok (self : dataset) : Prop :=
  forall l, limit self = Some l -> (0 < l)%Z.

(** ** A small dataset: one 2x2 image, three pixels with geometry *)

Definition pose0 : mat4 :=
  M4 (V4 1 0 0 0) (V4 0 1 0 0) (V4 0 0 1 (-2)) (V4 0 0 0 1).

Definition label0 : list vec3 := [V3 1 0 0; V3 0 1 0; V3 0 0 1; V3 1 1 1].
Definition depth0 : list R := [2; 0; 2; 2].

Definition dataset0 (lim : option Z) : dataset :=
  Dataset ["r_0"%string] {[ "r_0"%string := "r_0.png"%string ]}
          {[ "r_0"%string := pose0 ]} {[ "r_0"%string := I3 ]}
          {[ "r_0"%string := label0 ]} {[ "r_0"%string := depth0 ]}
          lim 2 2 ∅ ∅.

(** A 1x1 image without geometry whose colour buffer has no row at all,
    loaded under a limit of 0. *)
Definition dataset1 : dataset :=
  Dataset ["r_0"%string] {[ "r_0"%string := "r_0.png"%string ]}
          {[ "r_0"%string := pose0 ]} {[ "r_0"%string := I3 ]}
          {[ "r_0"%string := [] ]} {[ "r_0"%string := [0] ]}
          (Some 0%Z) 1 1 ∅ ∅.

Definition rng0 : rng := Rng (fun k => k) O.

(** The same image under a pose whose rotation block is zero: the pose
    line [0 0 0 1 0 0 0 2 0 0 0 3 0 0 0 1]. *)
Definition pose_flat : mat4 :=
  M4 (V4 0 0 0 1) (V4 0 0 0 2) (V4 0 0 0 3) (V4 0 0 0 1).

Definition dataset_flat : dataset :=
  Dataset ["r_0"%string] {[ "r_0"%string := "r_0.png"%string ]}
          {[ "r_0"%string := pose_flat ]} {[ "r_0"%string := I3 ]}
          {[ "r_0"%string := label0 ]} {[ "r_0"%string := depth0 ]}
          None 2 2 ∅ ∅.

(** The sample of [id] is cached, with a mask of [H*W] entries. *)
Definition cached (self : dataset) (id : string) : Prop :=
  exists x m,
    x_trains self !! id = Some x /\ masks self !! id = Some m /\
    length m = (sH self * sW self)%nat.

(** Two dataset objects with the same configuration: everything but the
    four caches. *)
Definition same_config (a b : dataset) : Prop :=
  list_ids a = list_ids b /\ list_images a = list_images b /\
  list_poses a = list_poses b /\ list_Ks a = list_Ks b /\
  limit a = limit b /\ sH a = sH b /\ sW a = sW b.

(** Collaborators for the small dataset: a 1x2 image on disk, a resize
    that averages the two source pixels, a renderer of constant depth. *)
Definition image0 : image :=
  Image 1 2 (fun _ x => if (x =? 0)%nat then V3 255 0 0 else V3 0 255 51).

Definition imread0 (path : string) : result image := Ok image0.

Definition taps0 (src dst : nat * nat) (y x : nat) : list (nat * nat * R) :=
  [(O, O, / 2); (O, 1%nat, / 2)].

Definition render_depth0 (c2w : mat4) (K : mat3) (i : nat) : R := 2.

(** ** The first part of [__init__] (lines 37-114): the profile and the
    cameras *)

(** [s.strip()] *)
Fixpoint lstrip (s : string) : string :=
  match s with
  | EmptyString => EmptyString
  | String c s' => if is_space c then lstrip s' else s
  end.

Fixpoint rstrip (s : string) : string :=
  match s with
  | EmptyString => EmptyString
  | String c s' =>
      match rstrip s' with
      | EmptyString => if is_space c then EmptyString else String c EmptyString
      | r => String c r
      end
  end.

Definition strip (s : string) : string := rstrip (lstrip s).

(** [s.split(sep)] for a one-character separator; [cur] is the piece
    being read. *)
Fixpoint split_on (sep : ascii) (cur : string) (s : string) : list string :=
  match s with
  | EmptyString => [cur]
  | String c s' =>
      if Ascii.eqb c sep then cur :: split_on sep EmptyString s'
      else split_on sep (cur +:+ String c EmptyString) s'
  end.

(** The first token of a string that starts with it, and what follows. *)
Fixpoint token_rest (s : string) : string * string :=
  match s with
  | EmptyString => (EmptyString, EmptyString)
  | String c s' =>
      if is_space c then (EmptyString, s)
      else (String c (fst (token_rest s')), snd (token_rest s'))
  end.

(** [s.split(maxsplit=1)] *)
Definition split_max1 (s : string) : list string :=
  match lstrip s with
  | EmptyString => []
  | s1 =>
      match lstrip (snd (token_rest s1)) with
      | EmptyString => [fst (token_rest s1)]
      | rest => [fst (token_rest s1); rest]
      end
  end.

(** The three paths of the profile; [None] is Python's [None]. *)
Record profile : Type := Profile {
  extrinsic_file : option string;
  intrinsic_file : option string;
  list_file : option string }.

(** Lines 43-53. *)
Fixpoint parse_profile (fp : list string) (p : profile) : result profile :=
  match fp with
  | [] => Ok p
  | line :: fp' =>
      let line := strip line in
      if decide (line = EmptyString) then parse_profile fp' p
      else
        let parts := split_on ":" EmptyString line in
        key <- list_get parts 0 ;;
        if decide (key = "camera_pose"%string) then
          v <- list_get parts 1 ;;
          parse_profile fp' (Profile (Some (strip v)) (intrinsic_file p) (list_file p))
        else if decide (key = "camera_intrinsic"%string) then
          v <- list_get parts 1 ;;
          parse_profile fp' (Profile (extrinsic_file p) (Some (strip v)) (list_file p))
        else if decide (key = "image_list"%string) then
          v <- list_get parts 1 ;;
          parse_profile fp' (Profile (extrinsic_file p) (intrinsic_file p) (Some (strip v)))
        else parse_profile fp' p
  end.

(** Lines 57-62: the scan of the image list.  [image_file] is the local
    variable, [None] while it is unbound. *)
Fixpoint scan_list (f : list string) (id : string) (image_file : option string)
    : result (option string) :=
  match f with
  | [] => Ok image_file
  | line :: f' =>
      let parts := split (strip line) in
      first <- list_get parts 0 ;;
      if decide (first = id) then
        v <- list_get parts 1 ;;
        Ok (Some (strip v))
      else scan_list f' id image_file
  end.

(** Lines 65-70 and 73-78: the scan of a camera file.  The local variable
    holds a string after a scan that found the identifier and a list of
    tokens once line 87 or 108 has split it. *)
Fixpoint scan_camera (f : list string) (id : string)
    (v : option (string + list string)) : result (option (string + list string)) :=
  match f with
  | [] => Ok v
  | line :: f' =>
      let parts := split_max1 (strip line) in
      first <- list_get parts 0 ;;
      if decide (first = id) then
        x <- list_get parts 1 ;;
        Ok (Some (inl (strip x)))
      else scan_camera f' id v
  end.

(** [np.reshape(M, (3,3))] *)
Definition reshape33 (M : list R) : result mat3 :=
  match M with
  | [a; b; c; d; e; f; g; h; i] => Ok (M3 (V3 a b c) (V3 d e f) (V3 g h i))
  | _ => Err ValueError
  end.

(** Lines 107-114. *)
Definition parse_intrinsic (float : string -> result R) (W_scale H_scale : R)
    (intrinsic : string) : result mat3 :=
  let M := replicate 9 0 in
  let intrinsic := split intrinsic in
  M <- fill float intrinsic M (seq 0 9) ;;
  M <- reshape33 M ;;
  Ok (M3 (vscale W_scale (r0 M)) (vscale H_scale (r1 M)) (r2 M)).

(** [self.H], [self.W], [self.H_scale], [self.W_scale] *)
Record target : Type := Target { tH : nat; tW : nat; H_scale : R; W_scale : R }.

(** Lines 97-103, from the decoded probe image on; [dsize] is [None] or a
    pair (height, width). *)
Definition probe (dsize : option (nat * nat)) (probe_image : image) : result target :=
  match dsize with
  | None => Ok (Target (ih probe_image) (iw probe_image) 1 1)
  | Some (h, w) =>
      if (ih probe_image =? 0)%nat || (iw probe_image =? 0)%nat
      then Err ZeroDivisionError
      else Ok (Target h w (INR h / INR (ih probe_image)) (INR w / INR (iw probe_image)))
  end.

(** The exceptions of the first part of [__init__]. *)
Inductive init_error : Type :=
  | Raised (e : py_error)
  | FileNotFoundError               (* open() of an absent file *)
  | TypeError                       (* os.path.join(datadir, None) *)
  | UnboundLocalError               (* a local variable read before any assignment *)
  | AttributeError                  (* .split() of a list *)
  | NotFound (image_file : string). (* raise Exception(f'{image_file} is not found') *)

Inductive attempt (A : Type) : Type :=
  | Done (a : A)
  | Failed (e : init_error).
Arguments Done {A} a.
Arguments Failed {A} e.

Definition and_then {A B} (m : attempt A) (k : A -> attempt B) : attempt B :=
  match m with
  | Done a => k a
  | Failed e => Failed e
  end.

Notation "x <~ m ;; k" := (and_then m (fun x => k))
  (at level 100, m at next level, right associativity).

Definition lift {A} (m : result A) : attempt A :=
  match m with
  | Ok a => Done a
  | Err e => Failed (Raised e)
  end.

(** The object under construction and the local variables that survive
    from one identifier to the next. *)
Record loader : Type := Loader {
  c_images : gmap string string;                 (* self.list_images *)
  c_poses : gmap string mat4;                    (* self.list_poses *)
  c_Ks : gmap string mat3;                       (* self.list_Ks *)
  c_target : option target;                      (* set when [probed] *)
  v_image_file : option string;
  v_extrinsic : option (string + list string);
  v_intrinsic : option (string + list string) }.

Definition loader0 : loader := Loader ∅ ∅ ∅ None None None None.

(** Reading a local variable that should hold a string, to call
    [.split()] on it. *)
Definition as_text (v : option (string + list string)) : attempt string :=
  match v with
  | None => Failed UnboundLocalError
  | Some (inl s) => Done s
  | Some (inr _) => Failed AttributeError
  end.

Definition bound {A} (v : option A) : attempt A :=
  match v with
  | None => Failed UnboundLocalError
  | Some x => Done x
  end.

Section Init.

(** The collaborators: the directory, [os.path.join], the text files by
    path (their lines), [os.path.exists], [imageio.imread], [float],
    [cv2.resize] and the depth renderer. *)
Variable datadir : string.
Variable join : string -> string -> string.
Variable files : string -> option (list string).
Variable exists_ : string -> bool.
Variable imread : string -> result image.
Variable float : string -> result R.
Variable taps : nat * nat -> nat * nat -> nat -> nat -> list (nat * nat * R).
Variable render_depth : mat4 -> mat3 -> nat -> R.

(** [open(os.path.join(datadir, name), 'r')] *)
Definition open_ (name : option string) : attempt (list string) :=
  match name with
  | None => Failed TypeError
  | Some n =>
      match files (join datadir n) with
      | None => Failed FileNotFoundError
      | Some f => Done f
      end
  end.

(** The body of the loop of lines 55-114 for one identifier. *)
Definition camera_step (prof : profile) (dsize : option (nat * nat))
    (st : loader) (id : string) : attempt loader :=
  f <~ open_ (list_file prof) ;;
  image_file <~ lift (scan_list f id (v_image_file st)) ;;
  f <~ open_ (extrinsic_file prof) ;;
  extrinsic <~ lift (scan_camera f id (v_extrinsic st)) ;;
  f <~ open_ (intrinsic_file prof) ;;
  intrinsic <~ lift (scan_camera f id (v_intrinsic st)) ;;
  image_file <~ bound image_file ;;
  let path := join datadir image_file in
  if negb (exists_ path) then Failed (NotFound image_file)
  else
    extrinsic <~ as_text extrinsic ;;
    M <~ lift (parse_pose float extrinsic) ;;
    tgt <~ match c_target st with
           | Some t => Done t
           | None => probe_image <~ lift (imread path) ;; lift (probe dsize probe_image)
           end ;;
    intrinsic <~ as_text intrinsic ;;
    K <~ lift (parse_intrinsic float (W_scale tgt) (H_scale tgt) intrinsic) ;;
    Done (Loader (<[id := path]> (c_images st)) (<[id := M]> (c_poses st))
                 (<[id := K]> (c_Ks st)) (Some tgt) (Some image_file)
                 (Some (inr (split extrinsic))) (Some (inr (split intrinsic)))).

Fixpoint load_cameras (prof : profile) (dsize : option (nat * nat))
    (st : loader) (ids : list string) : attempt loader :=
  match ids with
  | [] => Done st
  | id :: ids' =>
      st' <~ camera_step prof dsize st id ;;
      load_cameras prof dsize st' ids'
  end.

(** The dataset object when the first loop ends; [H] and [W] are not
    attributes of the object when [list_ids] is empty, and nothing reads
    them then. *)
Definition dataset_of (list_ids : list string) (lim : option Z) (st : loader) : dataset :=
  Dataset list_ids (c_images st) (c_poses st) (c_Ks st) ∅ ∅ lim
          (from_option tH O (c_target st)) (from_option tW O (c_target st)) ∅ ∅.

(** [__init__] *)
Definition init (list_ids : list string) (profile_file : string)
    (lim : option Z) (dsize : option (nat * nat)) (g : rng) : attempt (dataset * rng) :=
  fp <~ open_ (Some profile_file) ;;
  prof <~ lift (parse_profile fp (Profile None None None)) ;;
  st <~ load_cameras prof dsize loader0 list_ids ;;
  lift (init_loops taps imread render_depth (dataset_of list_ids lim st) g).

End Init.

(** ** Texts without white space, without colon *)

Definition no_space (s : string) : Prop :=
  Forall (fun c => is_space c = false) (list_ascii_of_string s).

Definition no_colon (s : string) : Prop :=
  Forall (fun c => Ascii.eqb c ":" = false) (list_ascii_of_string s).

Definition all_space (s : string) : Prop :=
  Forall (fun c => is_space c = true) (list_ascii_of_string s).

(** A path that can be written after a key of the profile: not empty, no
    white space at either end, no colon. *)
Definition clean_path (s : string) : Prop :=
  s <> EmptyString /\ lstrip s = s /\ rstrip s = s /\ no_colon s.

Definition newline : string := String (ascii_of_nat 10) EmptyString.

(** The text of a profile that names three paths, one line each. *)
Definition profile_text (a b c : string) : list string :=
  [("camera_pose" +:+ ": " +:+ a +:+ newline)%string;
   ("camera_intrinsic" +:+ ": " +:+ b +:+ newline)%string;
   ("image_list" +:+ ": " +:+ c +:+ newline)%string].

(** The keys the profile loop recognises. *)
Definition profile_key (k : string) : Prop :=
  k = "camera_pose"%string \/ k = "camera_intrinsic"%string \/ k = "image_list"%string.

(** The assignment the profile loop makes for a recognised key. *)
Definition assign_key (key v : string) (p : profile) : profile :=
  if decide (key = "camera_pose"%string)
  then Profile (Some v) (intrinsic_file p) (list_file p)
  else if decide (key = "camera_intrinsic"%string)
  then Profile (extrinsic_file p) (Some v) (list_file p)
  else Profile (extrinsic_file p) (intrinsic_file p) (Some v).

(** A line of the image list whose first token is another identifier. *)
Definition other_entry (id line : string) : Prop :=
  exists tok toks, split (strip line) = tok :: toks /\ tok <> id.

(** The same for a line of a camera file, which is split once. *)
Definition other_camera (id line : string) : Prop :=
  exists tok toks, split_max1 (strip line) = tok :: toks /\ tok <> id.

(** The local variable does not hold a text: it is unbound, or holds
    the tokens of an earlier identifier. *)
Definition not_text (v : option (string + list string)) : Prop :=
  forall s, v <> Some (inl s).

(** The first loop has stored, for [id], an image path that exists, a
    pose and an intrinsic matrix. *)
Definition has_camera (exists_ : string -> bool) (st : loader) (id : string) : Prop :=
  (exists path, c_images st !! id = Some path /\ exists_ path = true) /\
  is_Some (c_poses st !! id) /\ is_Some (c_Ks st !! id).

(** ** A data directory: one profile, one image, two cameras *)

Definition join0 (a b : string) : string := (a +:+ "/" +:+ b)%string.

Definition files0 (path : string) : option (list string) :=
  if decide (path = "data/profile.txt"%string)
  then Some (profile_text "poses.txt" "Ks.txt" "list.txt")
  else if decide (path = "data/list.txt"%string)
  then Some ["r_0 r_0.png"%string]
  else if decide (path = "data/poses.txt"%string)
  then Some ["r_0 1 0 0 0 0 1 0 0 0 0 1 0 0 0 2 1"%string;
             "r_1 1 0 0 0 0 1 0 0 0 0 1 0 0 0 3 1"%string]
  else if decide (path = "data/Ks.txt"%string)
  then Some ["r_0 1 0 0 0 1 0 0 0 1"%string; "r_1 2 0 0 0 2 0 0 0 1"%string]
  else None.

Definition exists0 (path : string) : bool := true.

Definition profile0 : profile :=
  Profile (Some "poses.txt"%string) (Some "Ks.txt"%string) (Some "list.txt"%string).

(** ** [residual_regression.py]: resuming from a checkpoint and the
    schedule of the training loop *)

(** ['pt' in f] *)
Fixpoint contains (sub s : string) : bool :=
  String.prefix sub s
  || match s with
     | EmptyString => false
     | String _ s' => contains sub s'
     end.

(** Lines 94-97.  [listing] is [os.listdir] of the checkpoint directory,
    [None] when the directory does not exist; [checkpoint_path f] is
    [os.path.join(logdir, 'checkpoints', f)]; the result is [ckpt_path],
    [None] when nothing is reloaded. *)
Definition resume_path (checkpoint_path : string -> string)
    (listing : option (list string)) (restart : bool) : option string :=
  match listing with
  | None => None
  | Some fs =>
      let ckpts :=
        map checkpoint_path (List.filter (contains "pt") (merge_sort String.le fs)) in
      if (0 <? length ckpts)%nat && negb restart then last ckpts else None
  end.

(** [f'{epoch:04}'] *)
Definition decimal (n : nat) : string := NilEmpty.string_of_uint (Nat.to_uint n).

Definition pad4 (s : string) : string :=
  (string_of_list_ascii (replicate (4 - String.length s) "0"%char) +:+ s)%string.

(** [f'model_epoch_{epoch:04}.pt'] and ['model_final.pt'] *)
Definition epoch_name (epoch : nat) : string :=
  ("model_epoch_" +:+ pad4 (decimal epoch) +:+ ".pt")%string.

Definition final_name : string := "model_final.pt".

(** What the training loop does, in order. *)
Inductive event : Type :=
  | RunEpoch (epoch : Z)
  | RunTest (epoch : Z) (writePNG : bool)
  | SaveEpoch (epoch : Z)
  | SaveFinal.

(** [a % b] on Python integers. *)
Definition py_mod (a b : Z) : result Z :=
  if (b =? 0)%Z then Err ZeroDivisionError else Ok (a mod b)%Z.

(** Lines 161-174: one turn of the loop; the events up to the exception,
    if one is raised. *)
Definition epoch_body (num_epochs til_test til_ckpt epoch : Z)
    : list event * option py_error :=
  match py_mod epoch til_test with
  | Err e => ([RunEpoch epoch], Some e)
  | Ok r =>
      let tests :=
        if (r =? til_test - 1)%Z
        then [RunTest epoch (num_epochs - til_test <=? epoch)%Z] else [] in
      match py_mod epoch til_ckpt with
      | Err e => (RunEpoch epoch :: tests, Some e)
      | Ok r2 =>
          (RunEpoch epoch :: tests
             ++ (if (r2 =? 0)%Z && negb (epoch =? 0)%Z then [SaveEpoch epoch] else []),
           None)
      end
  end.

Fixpoint training_loop (num_epochs til_test til_ckpt : Z) (epochs : list Z)
    : list event * option py_error :=
  match epochs with
  | [] => ([SaveFinal], None)
  | epoch :: epochs' =>
      match epoch_body num_epochs til_test til_ckpt epoch with
      | (evs, Some e) => (evs, Some e)
      | (evs, None) =>
          (evs ++ fst (training_loop num_epochs til_test til_ckpt epochs'),
           snd (training_loop num_epochs til_test til_ckpt epochs'))
      end
  end.

(** Lines 157-179. *)
Definition training (test_only : bool) (num_epochs til_test til_ckpt : Z)
    : list event * option py_error :=
  if test_only then ([], None)
  else training_loop num_epochs til_test til_ckpt (seqZ 0 num_epochs).

(** The events of a turn when neither interval is 0. *)
Definition turn (num_epochs til_test til_ckpt epoch : Z) : list event :=
  RunEpoch epoch
  :: (if (epoch mod til_test =? til_test - 1)%Z
      then [RunTest epoch (num_epochs - til_test <=? epoch)%Z] else [])
  ++ (if (epoch mod til_ckpt =? 0)%Z && negb (epoch =? 0)%Z
      then [SaveEpoch epoch] else []).

(** * Properties *)

(** ** Masks and boolean selection *)

Lemma count_true_cons (b : bool) (m : list bool) :
  count_true (b :: m) = ((if b then 1 else 0) + count_true m)%nat.
Proof. unfold count_true; simpl; destruct b; reflexivity. Qed.

Lemma count_true_le (m : list bool) : (count_true m <= length m)%nat.
Proof.
  induction m as [|b m IH]; [reflexivity|].
  rewrite count_true_cons; destruct b; simpl; lia.
Qed.

Lemma select_length {A} (mask : list bool) (a : list A) :
  length mask = length a -> length (select mask a) = count_true mask.
Proof.
  revert a; induction mask as [|b m IH]; intros [|x a] Hlen; simpl in *;
    try reflexivity; try discriminate.
  rewrite count_true_cons; destruct b; simpl; rewrite IH by lia; reflexivity.
Qed.

Lemma select_map {A B} (f : A -> B) (mask : list bool) (a : list A) :
  select mask (map f a) = map f (select mask a).
Proof.
  revert a; induction mask as [|b m IH]; intros [|x a]; simpl; try reflexivity.
  destruct b; simpl; rewrite IH; reflexivity.
Qed.

Lemma select_seq_lookup {A} (f : nat -> option A) (mask : list bool) :
  forall (a : list A) (k : nat),
    length mask = length a ->
    (forall j, (j < length a)%nat -> f (k + j)%nat = a !! j) ->
    map Some (select mask a) = map f (select mask (seq k (length mask))).
Proof.
  induction mask as [|b m IH]; intros [|x a] k Hlen Hf; simpl in *;
    try reflexivity; try discriminate.
  assert (Hx : f k = Some x).
  { specialize (Hf O ltac:(lia)); rewrite Nat.add_0_r in Hf; exact Hf. }
  assert (Htl : map Some (select m a) = map f (select m (seq (S k) (length m)))).
  { apply IH; [lia|]; intros j Hj.
    specialize (Hf (S j) ltac:(lia)).
    replace (S k + j)%nat with (k + S j)%nat by lia; exact Hf. }
  destruct b; simpl; rewrite Htl; [rewrite Hx|]; reflexivity.
Qed.

(** Selecting with a mask is reading at the retained indices. *)
Lemma select_retained {A} (mask : list bool) (a : list A) :
  length mask = length a ->
  map Some (select mask a) = map (fun i => a !! i) (retained mask).
Proof.
  intros Hlen; unfold retained.
  apply (select_seq_lookup (fun i => a !! i) mask a O Hlen); intros; reflexivity.
Qed.

Lemma elem_of_select_seq (mask : list bool) (k i : nat) :
  i ∈ select mask (seq k (length mask)) <->
  (k <= i)%nat /\ mask !! (i - k)%nat = Some true.
Proof.
  revert k; induction mask as [|b m IH]; intros k; simpl.
  - split; [intros Hin; inversion Hin | intros [_ Hl]; discriminate].
  - assert (Hcase : i ∈ select m (seq (S k) (length m)) <->
                    (k < i)%nat /\ (b :: m) !! (i - k)%nat = Some true).
    { rewrite IH; split; intros [Hle Hl]; (split; [lia|]).
      - replace (i - k)%nat with (S (i - S k)) by lia; exact Hl.
      - replace (i - k)%nat with (S (i - S k)) in Hl by lia; exact Hl. }
    destruct b.
    + rewrite elem_of_cons, Hcase; split.
      * intros [->|[Hlt Hl]]; [|split; [lia|exact Hl]].
        split; [lia|]; rewrite Nat.sub_diag; reflexivity.
      * intros [Hle Hl]; destruct (decide (i = k)) as [->|Hne]; [left; reflexivity|].
        right; split; [lia|exact Hl].
    + rewrite Hcase; split; intros [Hle Hl]; (split; [|exact Hl]); [lia|].
      destruct (decide (i = k)) as [->|Hne]; [|lia].
      rewrite Nat.sub_diag in Hl; discriminate.
Qed.

Lemma elem_of_retained (mask : list bool) (i : nat) :
  i ∈ retained mask <-> mask !! i = Some true.
Proof.
  unfold retained; rewrite elem_of_select_seq, Nat.sub_0_r; split.
  - intros [_ Hl]; exact Hl.
  - intros Hl; split; [lia|exact Hl].
Qed.

Lemma retained_length (mask : list bool) :
  length (retained mask) = count_true mask.
Proof. unfold retained; apply select_length; rewrite length_seq; reflexivity. Qed.

(** ** Clearing entries of a mask *)

Lemma clear_at_length (idx : list nat) (mask : list bool) :
  length (clear_at mask idx) = length mask.
Proof.
  unfold clear_at; revert mask; induction idx as [|i idx IH]; intros mask; simpl;
    [reflexivity|].
  rewrite IH, length_insert; reflexivity.
Qed.

Lemma clear_at_lookup (idx : list nat) (mask : list bool) (i : nat) :
  clear_at mask idx !! i =
  if decide (i ∈ idx) then (fun _ => false) <$> mask !! i else mask !! i.
Proof.
  unfold clear_at; revert mask; induction idx as [|j idx IH]; intros mask; simpl.
  - destruct (decide (i ∈ [])) as [Hin|_]; [inversion Hin|reflexivity].
  - rewrite IH.
    destruct (decide (i = j)) as [->|Hne].
    + destruct (decide (j ∈ j :: idx)) as [_|Hn]; [|exfalso; apply Hn; left].
      destruct (decide (j < length mask)%nat) as [Hlt|Hge].
      * rewrite list_lookup_insert_eq by exact Hlt.
        destruct (lookup_lt_is_Some_2 mask j Hlt) as [b Hb]; rewrite Hb.
        destruct (decide (j ∈ idx)); reflexivity.
      * rewrite list_insert_ge by lia.
        rewrite (lookup_ge_None_2 mask j) by lia.
        destruct (decide (j ∈ idx)); reflexivity.
    + rewrite list_lookup_insert_ne by congruence.
      destruct (decide (i ∈ idx)) as [Hin|Hnin].
      * destruct (decide (i ∈ j :: idx)) as [_|Hn]; [reflexivity|].
        exfalso; apply Hn; right; exact Hin.
      * destruct (decide (i ∈ j :: idx)) as [Hin'|_]; [|reflexivity].
        apply elem_of_cons in Hin' as [?|?]; contradiction.
Qed.

(** ** The random generator *)

Lemma randint_length (g : rng) (n L : nat) : length (fst (randint g n L)) = L.
Proof. unfold randint; simpl; rewrite length_map, length_seq; reflexivity. Qed.

Lemma randint_bound (g : rng) (n L : nat) :
  (0 < n)%nat -> Forall (fun i => (i < n)%nat) (fst (randint g n L)).
Proof.
  intros Hn; unfold randint; simpl.
  apply Forall_forall; intros i Hi.
  apply list_elem_of_In, in_map_iff in Hi as [k [<- _]].
  apply Nat.mod_upper_bound; lia.
Qed.

(** Every sequence of indices below [n] is drawn for some tape. *)
Lemma randint_onto (n : nat) (idx : list nat) :
  Forall (fun i => (i < n)%nat) idx ->
  fst (randint (Rng (fun k => nth k idx O) O) n (length idx)) = idx.
Proof.
  intros Hall; unfold randint; simpl.
  apply nth_ext with (d := O) (d' := O); [rewrite length_map, length_seq; reflexivity|].
  intros k Hk; rewrite length_map, length_seq in Hk.
  rewrite (nth_indep _ O ((fun j => nth j idx O mod n)%nat O))
    by (rewrite length_map, length_seq; exact Hk).
  rewrite (map_nth (fun j => (nth j idx O mod n)%nat)), seq_nth by exact Hk; simpl.
  apply Nat.mod_small.
  rewrite Forall_forall in Hall; apply Hall, list_elem_of_In, nth_In; exact Hk.
Qed.

(** ** The number of draws *)

(** The floor of a quotient of logarithms, without logarithms. *)
Lemma floor_log_bounds (q a : R) :
  0 < q < 1 -> 0 < a < 1 ->
  let z := Int_part (ln a / ln q) in
  (0 <= z)%Z /\ q ^ (Z.to_nat z + 1) < a <= q ^ Z.to_nat z.
Proof.
  intros [Hq0 Hq1] [Ha0 Ha1] z.
  assert (Hlq : ln q < 0) by (rewrite <- ln_1; apply ln_increasing; lra).
  assert (Hla : ln a < 0) by (rewrite <- ln_1; apply ln_increasing; lra).
  set (x := ln a / ln q) in *.
  assert (Hx : ln a = x * ln q) by (unfold x; field; lra).
  assert (Hxpos : 0 < x).
  { unfold x, Rdiv.
    replace (ln a * / ln q) with ((- ln a) * / (- ln q)) by (field; lra).
    apply Rmult_lt_0_compat; [lra|apply Rinv_0_lt_compat; lra]. }
  destruct (base_Int_part x) as [Hlo Hhi]; fold z in Hlo, Hhi.
  assert (Hz : (0 <= z)%Z).
  { assert (Hz' : (-1 < z)%Z) by (apply lt_IZR; lra); lia. }
  assert (HL : INR (Z.to_nat z) = IZR z) by (rewrite INR_IZR_INZ, Z2Nat.id; auto).
  split; [exact Hz|split].
  - apply ln_lt_inv; [apply pow_lt; exact Hq0|exact Ha0|].
    rewrite ln_pow by exact Hq0.
    rewrite Nat.add_1_r, S_INR, HL, Hx; nra.
  - destruct (Rle_or_lt a (q ^ Z.to_nat z)) as [Hle|Hlt]; [exact Hle|exfalso].
    apply ln_increasing in Hlt; [|apply pow_lt; exact Hq0].
    rewrite ln_pow, HL, Hx in Hlt by exact Hq0; nra.
Qed.

Lemma ratio_in_unit (l : Z) (base : nat) :
  (0 < l)%Z -> (l < Z.of_nat base)%Z -> 0 < IZR l / INR base < 1.
Proof.
  intros Hl Hb.
  assert (H0 : 0 < IZR l) by (apply (IZR_lt 0); exact Hl).
  assert (H1 : IZR l < INR base) by (rewrite INR_IZR_INZ; apply IZR_lt; exact Hb).
  split.
  - apply Rdiv_lt_0_compat; lra.
  - apply Rmult_lt_reg_r with (INR base); [lra|].
    unfold Rdiv; rewrite Rmult_assoc, Rinv_l by lra; lra.
Qed.

Lemma miss_probability_in_unit (n : nat) :
  (2 <= n)%nat -> 0 < 1 - 1 / INR n < 1.
Proof.
  intros Hn.
  assert (H2 : 2 <= INR n) by (apply (le_INR 2); exact Hn).
  assert (Hinv : 0 < / INR n) by (apply Rinv_0_lt_compat; lra).
  assert (Hlt : / INR n < 1).
  { rewrite <- Rinv_1; apply Rinv_lt_contravar; lra. }
  unfold Rdiv; rewrite Rmult_1_l; lra.
Qed.

(** [draw_count] on the inputs the guard of line 159 and a positive limit
    admit. *)
Lemma draw_count_spec (l : Z) (base n : nat) :
  (0 < l)%Z -> (l < Z.of_nat base)%Z -> (base <= n)%nat ->
  exists L : nat,
    draw_count l base n
      = Ok (Int_part (ln (IZR l / INR base) / ln (1 - 1 / INR n))) /\
    Int_part (ln (IZR l / INR base) / ln (1 - 1 / INR n)) = Z.of_nat L /\
    (1 - 1 / INR n) ^ (L + 1) < IZR l / INR base <= (1 - 1 / INR n) ^ L.
Proof.
  intros Hl Hb Hn.
  assert (Hn2 : (2 <= n)%nat) by lia.
  destruct (floor_log_bounds (1 - 1 / INR n) (IZR l / INR base)
              (miss_probability_in_unit n Hn2) (ratio_in_unit l base Hl Hb))
    as [Hz Hpow].
  exists (Z.to_nat (Int_part (ln (IZR l / INR base) / ln (1 - 1 / INR n)))).
  split; [|split; [rewrite Z2Nat.id by exact Hz; reflexivity|exact Hpow]].
  unfold draw_count.
  destruct (Nat.eqb_spec n 0) as [->|_]; [lia|].
  destruct (Z.leb_spec l 0) as [Hle|_]; [lia|reflexivity].
Qed.

Lemma select_seq_fun {A} (g : nat -> A) (mask : list bool) :
  forall (a : list A) (k : nat),
    length mask = length a ->
    (forall j, (j < length a)%nat -> a !! j = Some (g (k + j)%nat)) ->
    select mask a = map g (select mask (seq k (length mask))).
Proof.
  induction mask as [|b m IH]; intros [|x a] k Hlen Hg; simpl in *;
    try reflexivity; try discriminate.
  assert (Hx : x = g k).
  { specialize (Hg O ltac:(lia)); rewrite Nat.add_0_r in Hg; simpl in Hg; congruence. }
  assert (Htl : select m a = map g (select m (seq (S k) (length m)))).
  { apply IH; [lia|]; intros j Hj.
    specialize (Hg (S j) ltac:(lia)); simpl in Hg.
    replace (S k + j)%nat with (k + S j)%nat by lia; exact Hg. }
  destruct b; simpl; rewrite Htl, ?Hx; reflexivity.
Qed.

Lemma select_retained_fun {A} (g : nat -> A) (mask : list bool) (a : list A) :
  length mask = length a ->
  (forall j, (j < length a)%nat -> a !! j = Some (g j)) ->
  select mask a = map g (retained mask).
Proof. intros Hlen Hg; unfold retained; apply select_seq_fun; assumption. Qed.

Lemma assign_false_ok (mask : list bool) (idx : list nat) :
  Forall (fun i => (i < length mask)%nat) idx ->
  assign_false mask idx = Ok (clear_at mask idx).
Proof.
  intros Hall; unfold assign_false.
  replace (forallb _ idx) with true; [reflexivity|].
  symmetry; apply forallb_forall; intros i Hi.
  rewrite Forall_forall in Hall; apply Nat.ltb_lt, Hall, list_elem_of_In, Hi.
Qed.

(** ** The thinning step *)

Lemma subsample_keep (lim : option Z) (n : nat) (mask : list bool) (g : rng) :
  (forall l, lim = Some l -> (Z.of_nat (count_true mask) <= l)%Z) ->
  subsample lim n mask g = Ok (mask, g).
Proof.
  intros Hlim; unfold subsample; destruct lim as [l|]; [|reflexivity].
  specialize (Hlim l eq_refl).
  destruct (Z.ltb_spec l (Z.of_nat (count_true mask))); [lia|reflexivity].
Qed.

Lemma subsample_thin (l : Z) (n : nat) (mask : list bool) (g : rng) :
  (0 < l)%Z -> (l < Z.of_nat (count_true mask))%Z -> length mask = n ->
  exists L : nat,
    Int_part (ln (IZR l / INR (count_true mask)) / ln (1 - 1 / INR n)) = Z.of_nat L /\
    (1 - 1 / INR n) ^ (L + 1) < IZR l / INR (count_true mask) <= (1 - 1 / INR n) ^ L /\
    subsample (Some l) n mask g
      = Ok (clear_at mask (fst (randint g n L)), snd (randint g n L)).
Proof.
  intros Hl Hb Hlen.
  assert (Hle : (count_true mask <= n)%nat) by (rewrite <- Hlen; apply count_true_le).
  destruct (draw_count_spec l (count_true mask) n Hl Hb Hle) as [L [Hdc [HL Hpow]]].
  exists L; split; [exact HL|split; [exact Hpow|]].
  unfold subsample.
  destruct (Z.ltb_spec l (Z.of_nat (count_true mask))) as [_|]; [|lia].
  rewrite Hdc, HL; simpl.
  destruct (Z.ltb_spec (Z.of_nat L) 0) as [|_]; [lia|].
  rewrite Nat2Z.id, assign_false_ok; [reflexivity|].
  rewrite Hlen; apply randint_bound; lia.
Qed.

Lemma subsample_length (lim : option Z) (n : nat) (mask mask' : list bool) (g g' : rng) :
  subsample lim n mask g = Ok (mask', g') -> length mask' = length mask.
Proof.
  unfold subsample; destruct lim as [l|]; [|intros [= <- _]; reflexivity].
  destruct (l <? Z.of_nat (count_true mask))%Z; [|intros [= <- _]; reflexivity].
  destruct (draw_count l (count_true mask) n) as [L|e]; simpl; [|discriminate].
  destruct (L <? 0)%Z; [discriminate|].
  unfold assign_false; destruct (forallb _ _); simpl; [|discriminate].
  intros [= <- _]; apply clear_at_length.
Qed.

(** A thinned mask only loses entries. *)
Lemma subsample_subset (lim : option Z) (n : nat) (mask mask' : list bool) (g g' : rng) (i : nat) :
  subsample lim n mask g = Ok (mask', g') ->
  mask !! i = Some false -> mask' !! i = Some false.
Proof.
  unfold subsample; destruct lim as [l|]; [|intros [= <- _]; auto].
  destruct (l <? Z.of_nat (count_true mask))%Z; [|intros [= <- _]; auto].
  destruct (draw_count l (count_true mask) n) as [L|e]; simpl; [|discriminate].
  destruct (L <? 0)%Z; [discriminate|].
  unfold assign_false; destruct (forallb _ _); simpl; [|discriminate].
  intros [= <- _] Hi; rewrite clear_at_lookup, Hi.
  destruct (decide (i ∈ _)); reflexivity.
Qed.

(** ** Matrices *)

Lemma vmmul_transpose (p : vec3) (m : mat3) : vmmul p (transpose m) = mvmul m p.
Proof.
  destruct p, m as [[] [] []]; unfold vmmul, mvmul, transpose, vdot; simpl.
  f_equal; ring.
Qed.

Lemma mvmul_mmul (a b : mat3) (p : vec3) :
  mvmul (mmul a b) p = mvmul a (mvmul b p).
Proof.
  destruct p, a as [[] [] []], b as [[] [] []]; unfold mvmul, mmul, vdot; simpl.
  f_equal; ring.
Qed.

Lemma mvmul_I3 (p : vec3) : mvmul I3 p = p.
Proof. destruct p; unfold mvmul, I3, vdot; simpl; f_equal; ring. Qed.

Lemma mvmul_zero (m : mat3) : mvmul m vzero = vzero.
Proof. destruct m as [[] [] []]; unfold mvmul, vzero, vdot; simpl; f_equal; ring. Qed.

Lemma adjugate_l (m : mat3) (p : vec3) :
  mvmul (adjugate m) (mvmul m p) = vscale (det3 m) p.
Proof.
  destruct p, m as [[] [] []]; unfold mvmul, adjugate, det3, vscale, vdot; simpl.
  f_equal; ring.
Qed.

(** [np.linalg.inv] returns the inverse matrix, and only fails on a
    singular one. *)
Lemma inv_spec (K : mat3) :
  det3 K <> 0 ->
  inv K = Ok (mscale (/ det3 K) (adjugate K)) /\
  inverse_of K (mscale (/ det3 K) (adjugate K)).
Proof.
  intros Hdet; unfold inv; destruct (Req_dec_T (det3 K) 0) as [|_]; [contradiction|].
  split; [reflexivity|].
  destruct K as [[a b c] [d e f] [g h i]].
  unfold inverse_of, mmul, mscale, adjugate, vscale, vdot, col0, col1, col2, I3, det3 in *;
    simpl in *.
  split; f_equal; f_equal; field; exact Hdet.
Qed.

Lemma inverse_of_unique (K A B : mat3) : inverse_of K A -> inverse_of K B -> A = B.
Proof.
  intros [HA1 HA2] [HB1 HB2].
  assert (Hassoc : mmul (mmul A K) B = mmul A (mmul K B)).
  { destruct A as [[] [] []], K as [[] [] []], B as [[] [] []].
    unfold mmul, vdot, col0, col1, col2; simpl; f_equal; f_equal; ring. }
  rewrite HA2, HB1 in Hassoc.
  assert (HI1 : forall M, mmul I3 M = M).
  { intros [[] [] []]; unfold mmul, I3, vdot, col0, col1, col2; simpl; f_equal; f_equal; ring. }
  assert (HI2 : forall M, mmul M I3 = M).
  { intros [[] [] []]; unfold mmul, I3, vdot, col0, col1, col2; simpl; f_equal; f_equal; ring. }
  rewrite HI1, HI2 in Hassoc; congruence.
Qed.

(** An invertible matrix sends only the zero vector to zero. *)
Lemma mvmul_injective_zero (m : mat3) (p : vec3) :
  det3 m <> 0 -> mvmul m p = vzero -> p = vzero.
Proof.
  intros Hdet Hz.
  pose proof (adjugate_l m p) as Hadj; rewrite Hz, mvmul_zero in Hadj.
  destruct p as [x y z]; unfold vscale, vzero in *; simpl in *.
  injection Hadj as Hx Hy Hz'.
  f_equal; symmetry.
  - destruct (Rmult_integral _ _ (eq_sym Hx)); [contradiction|auto].
  - destruct (Rmult_integral _ _ (eq_sym Hy)); [contradiction|auto].
  - destruct (Rmult_integral _ _ (eq_sym Hz')); [contradiction|auto].
Qed.

Lemma det3_inverse (K Kinv : mat3) : inverse_of K Kinv -> det3 Kinv <> 0.
Proof.
  intros [H1 _] Hz.
  assert (Hmul : det3 (mmul K Kinv) = det3 K * det3 Kinv).
  { destruct K as [[] [] []], Kinv as [[] [] []].
    unfold mmul, det3, vdot, col0, col1, col2; simpl; ring. }
  rewrite H1, Hz, Rmult_0_r in Hmul.
  unfold det3, I3 in Hmul; simpl in Hmul; lra.
Qed.

(** ** Norms *)

Lemma vdot_self_nonneg (d : vec3) : 0 <= vdot d d.
Proof. destruct d; unfold vdot; simpl; nra. Qed.

Lemma vnorm_zero_iff (d : vec3) : vnorm d = 0 <-> d = vzero.
Proof.
  unfold vnorm; split.
  - intros Hs; apply sqrt_eq_0 in Hs; [|apply vdot_self_nonneg].
    destruct d as [x y z]; unfold vdot, vzero in *; simpl in *.
    assert (x = 0) by nra. assert (y = 0) by nra. assert (z = 0) by nra.
    congruence.
  - intros ->; unfold vdot, vzero; simpl.
    replace (0 * 0 + 0 * 0 + 0 * 0) with 0 by ring; apply sqrt_0.
Qed.

(** A non-zero vector divided by its norm has norm one. *)
Lemma vnorm_vdiv (d : vec3) : d <> vzero -> vnorm (vdiv d (vnorm d)) = 1.
Proof.
  intros Hd.
  assert (Hn : vnorm d <> 0) by (rewrite vnorm_zero_iff; exact Hd).
  assert (Hsq : vnorm d * vnorm d = vdot d d).
  { unfold vnorm; apply sqrt_sqrt, vdot_self_nonneg. }
  unfold vnorm at 1.
  replace (vdot (vdiv d (vnorm d)) (vdiv d (vnorm d))) with 1; [apply sqrt_1|].
  destruct d as [x y z]; unfold vdiv, vdot in *; simpl in *.
  set (s := vnorm (V3 x y z)) in *.
  apply Rmult_eq_reg_r with (s * s); [|nra].
  field_simplify; [|exact Hn]. lra.
Qed.

Lemma normalize_spec (d : vec3) :
  d <> vzero ->
  normalize d = Some (vdiv d (vnorm d)) /\ vnorm (vdiv d (vnorm d)) = 1.
Proof.
  intros Hd; unfold normalize.
  destruct (Req_dec_T (vnorm d) 0) as [Hz|_].
  - apply vnorm_zero_iff in Hz; contradiction.
  - split; [reflexivity|apply vnorm_vdiv; exact Hd].
Qed.

Lemma normalize_zero : normalize vzero = None.
Proof.
  unfold normalize; destruct (Req_dec_T (vnorm vzero) 0) as [_|Hn]; [reflexivity|].
  exfalso; apply Hn, vnorm_zero_iff; reflexivity.
Qed.

(** ** The pixel grid *)

Lemma lookup_map {A B} (f : A -> B) (l : list A) (i : nat) :
  map f l !! i = f <$> l !! i.
Proof.
  revert i; induction l as [|x l IH]; intros [|i]; simpl; try reflexivity; apply IH.
Qed.

Lemma meshgrid_uv_length (w h : nat) : length (meshgrid_uv w h) = (h * w)%nat.
Proof.
  unfold meshgrid_uv; induction h as [|h IH]; [reflexivity|].
  rewrite seq_S, flat_map_app, length_app, IH; simpl.
  rewrite length_app, length_map, length_seq; simpl; lia.
Qed.

(** Row-major order: entry [i] is column [i mod w] of row [i / w]. *)
Lemma meshgrid_uv_lookup (w h i : nat) :
  (i < h * w)%nat ->
  meshgrid_uv w h !! i = Some (INR (i mod w), INR (i / w)).
Proof.
  induction h as [|h IH]; intros Hi; [lia|].
  unfold meshgrid_uv in *; rewrite seq_S, flat_map_app; simpl; rewrite app_nil_r.
  pose proof (meshgrid_uv_length w h) as Hlen; unfold meshgrid_uv in Hlen.
  destruct (decide (i < h * w)%nat) as [Hlt|Hge].
  - rewrite lookup_app_l by (rewrite Hlen; exact Hlt); apply IH; exact Hlt.
  - rewrite lookup_app_r by (rewrite Hlen; lia).
    rewrite Hlen, lookup_map, lookup_seq_lt by lia; simpl.
    assert (Hw : (i - h * w < w)%nat) by lia.
    assert (Heq : i = (w * h + (i - h * w))%nat) by lia.
    rewrite <- (Nat.div_unique i w h (i - h * w) Hw Heq).
    rewrite <- (Nat.mod_unique i w h (i - h * w) Hw Heq).
    reflexivity.
Qed.

Lemma concatenate_uvd_ok (w h : nat) (depth : list R) :
  length depth = (h * w)%nat ->
  exists uvd,
    concatenate_uvd (meshgrid_uv w h) depth = Ok uvd /\
    length uvd = length depth /\
    map (fun p => nonzero (vz p)) uvd = map nonzero depth /\
    forall i, (i < length uvd)%nat ->
      uvd !! i = Some (V3 (INR (i mod w)) (INR (i / w)) (nth i depth 0)).
Proof.
  intros Hlen; unfold concatenate_uvd.
  replace (length (meshgrid_uv w h) =? length depth)%nat with true
    by (symmetry; apply Nat.eqb_eq; rewrite meshgrid_uv_length; congruence).
  eexists; split; [reflexivity|].
  assert (Hl : length (zip_with (fun p d => V3 (fst p) (snd p) d) (meshgrid_uv w h) depth)
               = length depth).
  { rewrite length_zip_with, meshgrid_uv_length; lia. }
  split; [exact Hl|split].
  - apply list_eq; intros i; rewrite !lookup_map, lookup_zip_with.
    destruct (decide (i < h * w)%nat) as [Hlt|Hge].
    + rewrite meshgrid_uv_lookup by exact Hlt; simpl.
      destruct (depth !! i); reflexivity.
    + rewrite (lookup_ge_None_2 depth) by lia.
      destruct (meshgrid_uv w h !! i); reflexivity.
  - intros i Hi; rewrite Hl, Hlen in Hi.
    rewrite lookup_zip_with, meshgrid_uv_lookup by exact Hi; simpl.
    destruct (lookup_lt_is_Some_2 depth i ltac:(lia)) as [d Hd].
    rewrite Hd; simpl; rewrite (nth_lookup_Some _ _ _ _ Hd); reflexivity.
Qed.

Lemma concatenate_uvd_mismatch (w h : nat) (depth : list R) :
  length depth <> (h * w)%nat ->
  concatenate_uvd (meshgrid_uv w h) depth = Err ValueError.
Proof.
  intros Hlen; unfold concatenate_uvd; rewrite meshgrid_uv_length.
  destruct (Nat.eqb_spec (h * w) (length depth)); [congruence|reflexivity].
Qed.

(** ** The sample construction, step by step *)

Lemma dict_get_Some {V} (d : gmap string V) (k : string) (v : V) :
  d !! k = Some v -> dict_get d k = Ok v.
Proof. intros Hv; unfold dict_get; rewrite Hv; reflexivity. Qed.

Lemma zip_with_map_rows {A} (f : A -> vec3) (g : vec3 -> option vec3) (l : list A) :
  zip_with Row6 (map f l) (map g (map f l)) = map (fun p => Row6 (f p) (g (f p))) l.
Proof. induction l as [|x l IH]; simpl; [reflexivity|rewrite IH; reflexivity]. Qed.

(** What the function returns once the dictionaries hold the identifier,
    the depth buffer has [H*W] entries, the intrinsic matrix is regular and
    the thinning step has produced [mask]. *)
Lemma calculate_rows (self : dataset) (id : string) (g g' : rng)
    (label : list vec3) (depth : list R) (c2w : mat4) (K : mat3) (mask : list bool) :
  labels self !! id = Some label ->
  depths self !! id = Some depth ->
  list_poses self !! id = Some c2w ->
  list_Ks self !! id = Some K ->
  length depth = (sH self * sW self)%nat ->
  det3 K <> 0 ->
  subsample (limit self) (sW self * sH self) (map nonzero depth) g = Ok (mask, g') ->
  calculate_x_y_z_theta_phi self id g
  = Ok (map (pixel_row c2w (mscale (/ det3 K) (adjugate K)) (sW self) depth)
            (retained mask),
        mask, g').
Proof.
  intros Hlab Hdep Hpose HK Hlen Hdet Hsub.
  destruct (concatenate_uvd_ok (sW self) (sH self) depth Hlen)
    as [uvd [Hcat [Hluvd [Hmask Hlook]]]].
  destruct (inv_spec K Hdet) as [Hinv _].
  pose proof (subsample_length _ _ _ _ _ _ Hsub) as Hlm; rewrite length_map in Hlm.
  unfold calculate_x_y_z_theta_phi.
  rewrite (dict_get_Some _ _ _ Hlab), (dict_get_Some _ _ _ Hdep),
    (dict_get_Some _ _ _ Hpose), (dict_get_Some _ _ _ HK); simpl.
  rewrite Hcat; simpl; rewrite Hmask, Hsub; simpl; rewrite Hinv; simpl.
  rewrite (select_retained_fun
             (fun i => V3 (INR (i mod sW self)) (INR (i / sW self)) (nth i depth 0))
             mask uvd) by (try exact Hlook; congruence).
  rewrite (map_map _ scale_uv), (map_map _ (fun p => vadd _ _)).
  rewrite (map_map _ normalize), zip_with_map_rows.
  f_equal; f_equal; f_equal.
  apply map_ext; intros i.
  unfold pixel_row, pixel_position, unproject, scale_uv; simpl.
  rewrite vmmul_transpose, mvmul_mmul; reflexivity.
Qed.

Lemma subsample_total (self : dataset) (mask : list bool) (g : rng) :
  limit_ok self -> length mask = (sW self * sH self)%nat ->
  exists mask' g', subsample (limit self) (sW self * sH self) mask g = Ok (mask', g').
Proof.
  intros Hlim Hlen.
  destruct (limit self) as [l|] eqn:El.
  - destruct (Z.ltb_spec l (Z.of_nat (count_true mask))) as [Hlt|Hge].
    + destruct (subsample_thin l _ mask g (Hlim l El) Hlt Hlen) as [L [_ [_ Hs]]].
      eauto.
    + exists mask, g; apply subsample_keep; intros l' [= <-]; exact Hge.
  - exists mask, g; apply subsample_keep; discriminate.
Qed.

(** The construction returns on well-formed inputs. *)
Lemma calculate_total (self : dataset) (id : string) (g : rng)
    (label : list vec3) (depth : list R) (c2w : mat4) (K : mat3) :
  loaded self id label depth c2w K -> det3 K <> 0 -> limit_ok self ->
  exists mask g',
    subsample (limit self) (sW self * sH self) (map nonzero depth) g = Ok (mask, g') /\
    calculate_x_y_z_theta_phi self id g
    = Ok (map (pixel_row c2w (mscale (/ det3 K) (adjugate K)) (sW self) depth)
              (retained mask),
          mask, g').
Proof.
  intros [Hlab Hdep Hpose HK Hll Hld] Hdet Hlim.
  destruct (subsample_total self (map nonzero depth) g Hlim) as [mask [g' Hs]].
  { rewrite length_map, Hld; lia. }
  exists mask, g'; split; [exact Hs|].
  eapply calculate_rows; eassumption.
Qed.

Lemma dataset0_loaded (lim : option Z) :
  loaded (dataset0 lim) "r_0" label0 depth0 pose0 I3.
Proof. split; reflexivity. Qed.

Lemma det3_I3 : det3 I3 <> 0.
Proof. unfold det3, I3; simpl; lra. Qed.

(** ** Claims on the sample construction *)

Lemma Int_part_IZR (z : Z) : Int_part (IZR z) = z.
Proof.
  unfold Int_part.
  assert (H : (z + 1)%Z = up (IZR z)) by (apply tech_up; rewrite plus_IZR; lra).
  lia.
Qed.

(** In exact arithmetic the count of the float operations is
    [draw_count]. *)
Lemma draw_count_exact (l : Z) (base n : nat) :
  (0 < l)%Z -> draw_count_np exact_ops l base n = draw_count l base n.
Proof.
  intros Hl; unfold draw_count_np, draw_count, exact_ops.
  cbn [of_int true_divide subtract np_log floor_divide int_].
  destruct (n =? 0)%nat; [reflexivity|].
  destruct (Z.leb_spec l 0); [lia|].
  rewrite Int_part_IZR, <- !INR_IZR_INZ; reflexivity.
Qed.

Lemma subsample_exact (lim : option Z) (n : nat) (mask : list bool) (g : rng) :
  (forall l, lim = Some l -> (0 < l)%Z) ->
  subsample_np exact_ops lim n mask g = subsample lim n mask g.
Proof.
  intros Hlim; unfold subsample_np, subsample; destruct lim as [l|]; [|reflexivity].
  rewrite draw_count_exact by (apply Hlim; reflexivity); reflexivity.
Qed.



Lemma vsub_vadd (a t : vec3) : vsub (vadd a t) t = a.
Proof. destruct a, t; unfold vsub, vadd; simpl; f_equal; ring. Qed.

(** A retained pixel passed the depth test. *)
Lemma retained_depth (lim : option Z) (n : nat) (depth : list R)
    (mask : list bool) (g g' : rng) (i : nat) :
  subsample lim n (map nonzero depth) g = Ok (mask, g') ->
  i ∈ retained mask ->
  (i < length depth)%nat /\ nth i depth 0 <> 0.
Proof.
  intros Hsub Hi; apply elem_of_retained in Hi.
  pose proof (subsample_length _ _ _ _ _ _ Hsub) as Hlen; rewrite length_map in Hlen.
  assert (Hlt : (i < length depth)%nat).
  { rewrite <- Hlen; eapply lookup_lt_Some; exact Hi. }
  split; [exact Hlt|].
  destruct (lookup_lt_is_Some_2 depth i Hlt) as [d Hd].
  rewrite (nth_lookup_Some _ _ _ _ Hd).
  intros ->.
  assert (Hf : map nonzero depth !! i = Some false).
  { rewrite lookup_map, Hd; simpl; unfold nonzero.
    destruct (Req_dec_T 0 0); [reflexivity|contradiction]. }
  rewrite (subsample_subset _ _ _ _ _ _ _ Hsub Hf) in Hi; discriminate.
Qed.

(** C2 — For every retained pixel [(u, v)] with depth [d], which is not
    zero, the position the construction produces is
    [R · K⁻¹ · (u*d, v*d, d) + t], with [R] and [t] the rotation and
    translation parts of the pose and [K⁻¹] the inverse of the intrinsic
    matrix; pixel [i] of the row-major buffer is column [i mod W] of row
    [i / W]. *)
Theorem positions_unproject (self : dataset) (id : string) (g : rng)
    (label : list vec3) (depth : list R) (c2w : mat4) (K : mat3) :
  loaded self id label depth c2w K -> det3 K <> 0 -> limit_ok self ->
  exists rows mask g' Kinv,
    calculate_x_y_z_theta_phi self id g = Ok (rows, mask, g') /\
    inverse_of K Kinv /\
    map position rows
    = map (fun i => unproject c2w Kinv (INR (i mod sW self)) (INR (i / sW self))
                              (nth i depth 0))
          (retained mask) /\
    forall i, i ∈ retained mask ->
      (i < sH self * sW self)%nat /\ nth i depth 0 <> 0.
Proof.
  intros Hload Hdet Hlim.
  destruct (calculate_total self id g label depth c2w K Hload Hdet Hlim)
    as [mask [g' [Hsub Hcalc]]].
  destruct (inv_spec K Hdet) as [_ Hinv].
  eexists _, mask, g', _; split; [exact Hcalc|split; [exact Hinv|split]].
  - rewrite map_map; apply map_ext; intros i; reflexivity.
  - intros i Hi.
    rewrite <- (loaded_depth_rows _ _ _ _ _ _ Hload).
    eapply retained_depth; eassumption.
Qed.

Lemma positions_unproject_witness :
  exists rows mask g' Kinv,
    calculate_x_y_z_theta_phi (dataset0 None) "r_0" rng0
    = Ok (rows, mask, g') /\
    inverse_of I3 Kinv /\
    map position rows
    = map (fun i => unproject pose0 Kinv (INR (i mod 2)) (INR (i / 2)) (nth i depth0 0))
          (retained mask).
Proof.
  destruct (positions_unproject (dataset0 None) "r_0" rng0
              label0 depth0 pose0 I3 (dataset0_loaded _) det3_I3)
    as [rows [mask [g' [Kinv [Hc [Hi [Hp _]]]]]]].
  - intros l Hl; discriminate.
  - exists rows, mask, g', Kinv; repeat split; assumption || apply Hi.
Defined.

(** C3, as the code has it — The direction stored with every sample is
    the difference [position - camera_origin] divided by its norm, the
    camera origin being the translation column of the pose.  Nothing
    checks that the difference is not zero: where it is the zero vector
    the division is 0/0 and [nan] is stored without an error; where it is
    not, the direction has norm one. *)
Theorem directions_unit (self : dataset) (id : string) (g : rng)
    (label : list vec3) (depth : list R) (c2w : mat4) (K : mat3) :
  loaded self id label depth c2w K -> det3 K <> 0 -> limit_ok self ->
  exists rows mask g',
    calculate_x_y_z_theta_phi self id g = Ok (rows, mask, g') /\
    length rows = count_true mask /\
    Forall (fun r =>
              let d := vsub (position r) (trans c2w) in
              direction r = normalize d /\
              (d = vzero -> direction r = None) /\
              (d <> vzero ->
               direction r = Some (vdiv d (vnorm d)) /\ vnorm (vdiv d (vnorm d)) = 1))
           rows.
Proof.
  intros Hload Hdet Hlim.
  destruct (calculate_total self id g label depth c2w K Hload Hdet Hlim)
    as [mask [g' [Hsub Hcalc]]].
  eexists _, mask, g'; split; [exact Hcalc|split].
  - rewrite length_map; apply retained_length.
  - apply Forall_forall; intros r Hr.
    apply list_elem_of_In, in_map_iff in Hr as [i [<- Hi]].
    unfold pixel_row; cbn [position direction]; cbv zeta.
    split; [reflexivity|split].
    + intros Hz; rewrite Hz; apply normalize_zero.
    + intros Hne; apply normalize_spec; exact Hne.
Qed.

Lemma directions_unit_witness :
  exists rows mask g',
    calculate_x_y_z_theta_phi (dataset0 None) "r_0" rng0
    = Ok (rows, mask, g') /\
    Forall (fun r => direction r = normalize (vsub (position r) (trans pose0))) rows.
Proof.
  destruct (directions_unit (dataset0 None) "r_0" rng0
              label0 depth0 pose0 I3 (dataset0_loaded _) det3_I3)
    as [rows [mask [g' [Hc [_ Hall]]]]].
  - intros l Hl; discriminate.
  - exists rows, mask, g'; split; [exact Hc|].
    eapply Forall_impl; [exact Hall|].
    intros r [Hd _]; exact Hd.
Defined.

(** With a rotation block that is not regular the positions may coincide
    with the camera origin; numpy then divides 0 by 0 and stores [nan]
    without raising. *)
Lemma singular_pose_no_direction (self : dataset) (id : string) (g : rng)
    (label : list vec3) (depth : list R) (c2w : mat4) (K : mat3) :
  loaded self id label depth c2w K -> det3 K <> 0 -> limit_ok self ->
  rot c2w = M3 vzero vzero vzero ->
  exists rows mask g',
    calculate_x_y_z_theta_phi self id g = Ok (rows, mask, g') /\
    Forall (fun r => position r = trans c2w /\ direction r = None) rows.
Proof.
  intros Hload Hdet Hlim Hrot.
  destruct (calculate_total self id g label depth c2w K Hload Hdet Hlim)
    as [mask [g' [_ Hcalc]]].
  eexists _, mask, g'; split; [exact Hcalc|].
  apply Forall_forall; intros r Hr.
  apply list_elem_of_In, in_map_iff in Hr as [i [<- _]].
  assert (Hpos : pixel_position c2w (mscale (/ det3 K) (adjugate K)) (sW self) depth i
                 = trans c2w).
  { unfold pixel_position, unproject; rewrite Hrot.
    destruct (mvmul _ (V3 _ _ _)), (trans c2w).
    unfold mvmul, vadd, vdot, vzero; simpl; f_equal; ring. }
  unfold pixel_row; simpl; rewrite Hpos; split; [reflexivity|].
  replace (vsub (trans c2w) (trans c2w)) with vzero; [apply normalize_zero|].
  destruct (trans c2w); unfold vsub, vzero; simpl; f_equal; ring.
Qed.

Lemma nonzero_neq (x : R) : x <> 0 -> nonzero x = true.
Proof. intros Hx; unfold nonzero; destruct (Req_dec_T x 0); [contradiction|reflexivity]. Qed.

Lemma nonzero_0 : nonzero 0 = false.
Proof. unfold nonzero; destruct (Req_dec_T 0 0); [reflexivity|contradiction]. Qed.

Lemma dataset_flat_loaded : loaded dataset_flat "r_0" label0 depth0 pose_flat I3.
Proof. split; reflexivity. Qed.

(** C3, as the specification words it, fails: under the pose
    [0 0 0 1 0 0 0 2 0 0 0 3 0 0 0 1] the three pixels with geometry are
    returned, each with [nan] for a direction. *)
Lemma directions_not_unit :
  exists rows mask g',
    calculate_x_y_z_theta_phi dataset_flat "r_0" rng0 = Ok (rows, mask, g') /\
    length rows = 3%nat /\
    Forall (fun r => direction r = None) rows.
Proof.
  assert (Hlim : limit_ok dataset_flat) by (intros l Hl; discriminate).
  destruct (calculate_total dataset_flat "r_0" rng0 _ _ _ _
              dataset_flat_loaded det3_I3 Hlim) as [mask [g' [Hsub Hcalc]]].
  destruct (singular_pose_no_direction dataset_flat "r_0" rng0 _ _ _ _
              dataset_flat_loaded det3_I3 Hlim eq_refl)
    as [rows [mask' [g'' [Hcalc' Hnone]]]].
  exists rows, mask', g''; split; [exact Hcalc'|split].
  - rewrite Hcalc in Hcalc'.
    assert (Hrows : rows = map (pixel_row pose_flat (mscale (/ det3 I3) (adjugate I3))
                                          (sW dataset_flat) depth0) (retained mask))
      by congruence.
    rewrite Hrows, length_map, retained_length.
    rewrite subsample_keep in Hsub by discriminate.
    assert (Hm : mask = map nonzero depth0) by congruence.
    rewrite Hm; unfold depth0; cbn [map].
    rewrite nonzero_0, !nonzero_neq by lra; reflexivity.
  - eapply Forall_impl; [exact Hnone|]; intros r [_ Hd]; exact Hd.
Qed.

(** ** __getitem__ *)

Lemma py_index_nat {A} (l : list A) (k : nat) (x : A) :
  l !! k = Some x -> py_index l (Z.of_nat k) = Ok x.
Proof.
  intros Hk; unfold py_index.
  destruct (Z.ltb_spec (Z.of_nat k) 0); [lia|].
  unfold list_get; rewrite Nat2Z.id, Hk; reflexivity.
Qed.

Lemma getitem_cached (self : dataset) (index : Z) (id : string)
    (x : list row6) (lab : list vec3) (mask : list bool) :
  py_index (list_ids self) index = Ok id ->
  masks self !! id = Some mask ->
  x_trains self !! id = Some x ->
  labels self !! id = Some lab ->
  length mask = length lab ->
  getitem self index = (Ok (x, select mask lab, mask), self).
Proof.
  intros Hid Hm Hx Hl Hlen; unfold getitem.
  rewrite Hid; simpl.
  rewrite (dict_get_Some _ _ _ Hm), (dict_get_Some _ _ _ Hx), (dict_get_Some _ _ _ Hl).
  simpl; unfold bool_index; rewrite Hlen, Nat.eqb_refl; reflexivity.
Qed.

(** C4 — A pixel of depth 0 has a false mask entry and is not among the
    retained pixels, the only ones from which positions, directions and
    masked labels are built; positions and directions have as many rows
    as the mask has true entries; and the labels [__getitem__] returns
    for the cached sample are the rows of the colour buffer that the same
    mask selects, in row-major order. *)
Theorem zero_depth_excluded (self : dataset) (id : string) (g : rng)
    (label : list vec3) (depth : list R) (c2w : mat4) (K : mat3) (k : nat) :
  loaded self id label depth c2w K -> det3 K <> 0 -> limit_ok self ->
  list_ids self !! k = Some id ->
  exists rows mask g' Kinv,
    calculate_x_y_z_theta_phi self id g = Ok (rows, mask, g') /\
    (forall i, depth !! i = Some 0 -> mask !! i = Some false /\ (i ∉ retained mask)) /\
    inverse_of K Kinv /\
    rows = map (pixel_row c2w Kinv (sW self) depth) (retained mask) /\
    length (map position rows) = count_true mask /\
    length (map direction rows) = count_true mask /\
    getitem (set_sample self id rows mask) (Z.of_nat k)
    = (Ok (rows, select mask label, mask), set_sample self id rows mask) /\
    map Some (select mask label) = map (fun i => label !! i) (retained mask) /\
    length (select mask label) = count_true mask.
Proof.
  intros Hload Hdet Hlim Hk.
  destruct (calculate_total self id g label depth c2w K Hload Hdet Hlim)
    as [mask [g' [Hsub Hcalc]]].
  destruct (inv_spec K Hdet) as [_ Hinv].
  pose proof (subsample_length _ _ _ _ _ _ Hsub) as Hlen; rewrite length_map in Hlen.
  assert (Hml : length mask = length label).
  { rewrite Hlen, (loaded_depth_rows _ _ _ _ _ _ Hload),
      (loaded_label_rows _ _ _ _ _ _ Hload); reflexivity. }
  eexists _, mask, g', _; split; [exact Hcalc|].
  split; [|split; [exact Hinv|split; [reflexivity|]]].
  - intros i Hd.
    assert (Hf : mask !! i = Some false).
    { apply (subsample_subset _ _ _ _ _ _ _ Hsub).
      rewrite lookup_map, Hd; simpl; unfold nonzero.
      destruct (Req_dec_T 0 0); [reflexivity|contradiction]. }
    split; [exact Hf|].
    rewrite elem_of_retained, Hf; discriminate.
  - rewrite !length_map, retained_length.
    repeat split; try reflexivity.
    + apply getitem_cached with (id := id).
      * apply py_index_nat; exact Hk.
      * simpl; apply lookup_insert_eq.
      * simpl; apply lookup_insert_eq.
      * simpl; exact (loaded_label _ _ _ _ _ _ Hload).
      * exact Hml.
    + apply select_retained; exact Hml.
    + apply select_length; exact Hml.
Qed.

Lemma zero_depth_excluded_witness :
  exists rows mask g',
    calculate_x_y_z_theta_phi (dataset0 None) "r_0" rng0
    = Ok (rows, mask, g') /\
    mask !! 1%nat = Some false /\ (1%nat ∉ retained mask) /\
    length rows = count_true mask.
Proof.
  destruct (zero_depth_excluded (dataset0 None) "r_0" rng0
              label0 depth0 pose0 I3 O (dataset0_loaded _) det3_I3)
    as [rows [mask [g' [Kinv [Hc [Hz [_ [_ [Hlen _]]]]]]]]].
  - intros l Hl; discriminate.
  - reflexivity.
  - exists rows, mask, g'; split; [exact Hc|].
    destruct (Hz 1%nat eq_refl) as [Hf Hn].
    rewrite length_map in Hlen; repeat split; assumption.
Defined.

(** ** Averaging over the draws *)

Lemma all_draws_length (n L : nat) : length (all_draws n L) = (n ^ L)%nat.
Proof.
  induction L as [|L IH]; [reflexivity|]; simpl.
  assert (Hgen : forall l : list nat,
             length (flat_map (fun d => map (cons d) (all_draws n L)) l)
             = (length l * n ^ L)%nat).
  { induction l as [|d l IHl]; [reflexivity|]; simpl.
    rewrite length_app, length_map, IH, IHl; lia. }
  rewrite Hgen, length_seq; reflexivity.
Qed.

Lemma all_draws_complete (n : nat) (idx : list nat) :
  Forall (fun i => (i < n)%nat) idx -> idx ∈ all_draws n (length idx).
Proof.
  induction 1 as [|d idx Hd Hall IH]; simpl; [left|].
  apply list_elem_of_In, in_flat_map; exists d; split.
  - apply in_seq; lia.
  - apply in_map, list_elem_of_In, IH.
Qed.

Lemma sum_list_append (l k : list nat) :
  sum_list (l ++ k) = (sum_list l + sum_list k)%nat.
Proof. induction l as [|x l IH]; [reflexivity|]; simpl; rewrite IH; lia. Qed.

Lemma sum_list_flat_map {A} (f : list nat -> nat) (h : A -> list (list nat)) (l : list A) :
  sum_list (map f (flat_map h l)) = sum_list (map (fun d => sum_list (map f (h d))) l).
Proof.
  induction l as [|d l IH]; [reflexivity|]; simpl.
  rewrite map_app, sum_list_append, IH; reflexivity.
Qed.

Lemma sum_list_shift {A} (c : nat) (f : A -> nat) (l : list A) :
  sum_list (map (fun d => c + f d)%nat l) = (length l * c + sum_list (map f l))%nat.
Proof. induction l as [|d l IH]; [reflexivity|]; simpl; rewrite IH; lia. Qed.

(** One draw: over the [n] positions, the survivors add up to [n - 1]
    times the count. *)
Lemma sum_one_draw (m : list bool) :
  (sum_list (map (fun d => count_true (<[d := false]> m)) (seq 0 (length m)))
   + count_true m = length m * count_true m)%nat.
Proof.
  induction m as [|b m IH]; [reflexivity|].
  cbn [length]; change (seq 0 (S (length m))) with (O :: seq 1 (length m)).
  rewrite <- seq_shift; cbn [map]; rewrite map_map.
  change (sum_list (?x :: ?l)) with (x + sum_list l)%nat.
  change (<[0%nat := false]> (b :: m)) with (false :: m).
  rewrite (map_ext (fun d => count_true (<[S d := false]> (b :: m)))
                   (fun d => ((if b then 1 else 0) + count_true (<[d := false]> m))%nat))
    by (intros d; simpl; apply count_true_cons).
  rewrite sum_list_shift, length_seq, !count_true_cons; simpl.
  destruct b; nia.
Qed.

Lemma total_survivors (n L : nat) :
  forall m : list bool, length m = n ->
    sum_list (map (fun idx => count_true (clear_at m idx)) (all_draws n L))
    = (count_true m * (n - 1) ^ L)%nat.
Proof.
  induction L as [|L IH]; intros m Hlen; simpl.
  - unfold clear_at; simpl; lia.
  - rewrite sum_list_flat_map.
    rewrite (map_ext _ (fun d => (count_true (<[d := false]> m) * (n - 1) ^ L)%nat)).
    + pose proof (sum_one_draw m) as Hone; rewrite Hlen in Hone.
      assert (Hfac : forall l : list nat,
                 sum_list (map (fun d => (count_true (<[d := false]> m) * (n - 1) ^ L)%nat) l)
                 = (sum_list (map (fun d => count_true (<[d := false]> m)) l)
                    * (n - 1) ^ L)%nat).
      { induction l as [|d l IHl]; [reflexivity|]; simpl; rewrite IHl; lia. }
      rewrite Hfac.
      assert (Hsum : sum_list (map (fun d => count_true (<[d := false]> m)) (seq 0 n))
                     = ((n - 1) * count_true m)%nat).
      { destruct n as [|n']; [simpl in *; lia|].
        replace (S n' - 1)%nat with n' by lia; nia. }
      rewrite Hsum; lia.
    + intros d; rewrite map_map; simpl.
      rewrite <- (IH (<[d := false]> m)) by (rewrite length_insert; exact Hlen).
      reflexivity.
Qed.

(** The mean survivor count: [base * (1 - 1/n)^L]. *)
Lemma expected_survivors_value (mask : list bool) (n L : nat) :
  length mask = n -> (0 < n)%nat ->
  expected_survivors mask n L = INR (count_true mask) * (1 - 1 / INR n) ^ L.
Proof.
  intros Hlen Hn; unfold expected_survivors.
  rewrite (total_survivors n L mask Hlen), all_draws_length.
  rewrite mult_INR, !pow_INR, minus_INR by lia; simpl.
  assert (Hn0 : INR n <> 0) by (apply not_0_INR; lia).
  replace (1 - 1 / INR n) with ((INR n - 1) / INR n) by (field; exact Hn0).
  unfold Rdiv at 2; rewrite Rpow_mult_distr, pow_inv; unfold Rdiv; ring.
Qed.

Lemma count_true_insert_false (j : nat) (m : list bool) :
  (count_true m <= count_true (<[j := false]> m) + 1)%nat.
Proof.
  revert j; induction m as [|b m IH]; intros [|j];
    [unfold count_true; simpl; lia | unfold count_true; simpl; lia | |].
  - change (<[0%nat := false]> (b :: m)) with (false :: m).
    rewrite !count_true_cons; destruct b; lia.
  - change (<[S j := false]> (b :: m)) with (b :: <[j := false]> m).
    rewrite !count_true_cons; specialize (IH j); lia.
Qed.

Lemma clear_at_replicate (L j : nat) (m : list bool) :
  clear_at m (replicate (S L) j) = <[j := false]> m.
Proof.
  unfold clear_at; simpl.
  induction L as [|L IH]; [reflexivity|]; simpl.
  rewrite list_insert_insert_eq; exact IH.
Qed.

Lemma pow_decreasing (q : R) (a b : nat) :
  0 < q < 1 -> (a <= b)%nat -> q ^ b <= q ^ a.
Proof.
  intros Hq Hab; induction Hab as [|b Hab IH]; [lra|].
  pose proof (pow_lt q b ltac:(lra)); simpl; nra.
Qed.

(** The floor of the quotient of logarithms is the one exponent that
    brackets the ratio. *)
Lemma floor_log_unique (q a : R) (L : nat) :
  0 < q < 1 -> 0 < a < 1 ->
  (q ^ (L + 1) < a <= q ^ L <-> Int_part (ln a / ln q) = Z.of_nat L).
Proof.
  intros Hq Ha.
  destruct (floor_log_bounds q a Hq Ha) as [Hz [Hlo Hhi]].
  set (z := Int_part (ln a / ln q)) in *.
  split.
  - intros [Hlo' Hhi'].
    destruct (Nat.lt_trichotomy L (Z.to_nat z)) as [Hlt | [Heq | Hgt]].
    + pose proof (pow_decreasing q (L + 1) (Z.to_nat z) Hq ltac:(lia)); lra.
    + lia.
    + pose proof (pow_decreasing q (Z.to_nat z + 1) L Hq ltac:(lia)); lra.
  - intros HL; rewrite HL, Nat2Z.id in Hlo, Hhi; split; assumption.
Qed.




(** ** Camera poses *)

Lemma fill_ok (float : string -> result R) (tokens : list string) (xs : list R)
    (range : list nat) :
  forall M : list R,
    Forall (fun i => exists tok, tokens !! i = Some tok /\ float tok = Ok (nth i xs 0))
           range ->
    fill float tokens M range
    = Ok (fold_left (fun M i => <[i := nth i xs 0]> M) range M).
Proof.
  induction range as [|i range IH]; intros M Hall; [reflexivity|].
  inversion Hall as [|? ? [tok [Htok Hx]] Hrest]; subst; simpl.
  unfold list_get; rewrite Htok; simpl; rewrite Hx; simpl.
  apply IH; exact Hrest.
Qed.

Lemma fill_short (float : string -> result R) (tokens : list string) (range : list nat) :
  forall M : list R,
    (exists i, i ∈ range /\ (length tokens <= i)%nat) ->
    exists e,
      fill float tokens M range = Err e /\
      (Forall (fun tok => is_ok (float tok) = true) tokens -> e = IndexError).
Proof.
  induction range as [|i range IH]; intros M [j [Hj Hlen]]; [inversion Hj|].
  simpl; unfold list_get.
  destruct (tokens !! i) as [tok|] eqn:Htok; simpl.
  - assert (Hrest : exists i', i' ∈ range /\ (length tokens <= i')%nat).
    { apply elem_of_cons in Hj as [->|Hj]; [|eauto].
      apply lookup_lt_Some in Htok; lia. }
    destruct (float tok) as [x|e] eqn:Hx; simpl.
    + apply IH; exact Hrest.
    + exists e; split; [reflexivity|]; intros Hall.
      rewrite Forall_forall in Hall.
      specialize (Hall tok (list_elem_of_lookup_2 _ _ _ Htok)).
      rewrite Hx in Hall; discriminate.
  - exists IndexError; split; reflexivity.
Qed.

(** C6 — The extrinsic text is split at white space, its first 16
    tokens are read as floats and laid out row-major in a 4x4 matrix, and
    columns 1 and 2 of that matrix are negated; with fewer than 16 tokens
    the load fails, with Python's [IndexError] when every token present is
    a float (the exception the taxonomy files under [ParseError]). *)
Theorem parse_pose_spec (float : string -> result R) (extrinsic : string) :
  (forall xs : list R,
      Forall2 (fun tok x => float tok = Ok x) (take 16 (split extrinsic)) xs ->
      length xs = 16%nat ->
      let x i := nth i xs 0 in
      parse_pose float extrinsic
      = Ok (M4 (V4 (x 0%nat) (- x 1%nat) (- x 2%nat) (x 3%nat))
               (V4 (x 4%nat) (- x 5%nat) (- x 6%nat) (x 7%nat))
               (V4 (x 8%nat) (- x 9%nat) (- x 10%nat) (x 11%nat))
               (V4 (x 12%nat) (- x 13%nat) (- x 14%nat) (x 15%nat)))) /\
  ((length (split extrinsic) < 16)%nat ->
   exists e,
     parse_pose float extrinsic = Err e /\
     (Forall (fun tok => is_ok (float tok) = true) (split extrinsic) ->
      e = IndexError)).
Proof.
  split.
  - intros xs Hall Hlen x; unfold parse_pose.
    rewrite (fill_ok float (split extrinsic) xs).
    + reflexivity.
    + apply Forall_forall; intros i Hi.
      apply list_elem_of_In, in_seq in Hi.
      destruct (lookup_lt_is_Some_2 xs i ltac:(lia)) as [xi Hxi].
      destruct (Forall2_lookup_r _ _ _ _ _ Hall Hxi) as [tok [Htok Hf]].
      exists tok; split.
      * rewrite lookup_take_lt in Htok by lia; exact Htok.
      * rewrite (nth_lookup_Some _ _ _ _ Hxi); exact Hf.
  - intros Hshort; unfold parse_pose.
    destruct (fill_short float (split extrinsic) (seq 0 16) (replicate 16 0))
      as [e [He Hidx]].
    + exists 15%nat; split; [apply list_elem_of_In, in_seq; lia|lia].
    + exists e; rewrite He; split; [reflexivity|exact Hidx].
Qed.

Lemma split_pose_line :
  split "1 0 0 0  0 1 0 0  0 0 1 0  0 0 7 1 9"
  = ["1"; "0"; "0"; "0"; "0"; "1"; "0"; "0"; "0"; "0"; "1"; "0"; "0"; "0";
     "7"; "1"; "9"]%string.
Proof. vm_compute; reflexivity. Qed.

Lemma split_short_line :
  split "1 0 0 0 0 1 0 0" = ["1"; "0"; "0"; "0"; "0"; "1"; "0"; "0"]%string.
Proof. vm_compute; reflexivity. Qed.

Lemma parse_pose_spec_witness :
  parse_pose float_of_digits "1 0 0 0  0 1 0 0  0 0 1 0  0 0 7 1 9"
  = Ok (M4 (V4 (INR 1) (- INR 0) (- INR 0) (INR 0))
           (V4 (INR 0) (- INR 1) (- INR 0) (INR 0))
           (V4 (INR 0) (- INR 0) (- INR 1) (INR 0))
           (V4 (INR 0) (- INR 0) (- INR 7) (INR 1))) /\
  exists e, parse_pose float_of_digits "1 0 0 0 0 1 0 0" = Err e /\ e = IndexError.
Proof.
  split.
  - apply (proj1 (parse_pose_spec float_of_digits "1 0 0 0  0 1 0 0  0 0 1 0  0 0 7 1 9")
             (map INR [1; 0; 0; 0; 0; 1; 0; 0; 0; 0; 1; 0; 0; 0; 7; 1]%nat)).
    + rewrite split_pose_line; cbn [firstn map].
      repeat (constructor; [reflexivity|]); constructor.
    + reflexivity.
  - destruct (proj2 (parse_pose_spec float_of_digits "1 0 0 0 0 1 0 0")) as [e [He Hi]].
    + rewrite split_short_line; simpl; lia.
    + exists e; split; [exact He|].
      apply Hi; rewrite split_short_line.
      repeat (constructor; [reflexivity|]); constructor.
Defined.

(** ** Checks on the inputs *)

Lemma draw_count_rejects (l : Z) (base n : nat) :
  (l <= 0)%Z -> exists e, draw_count l base n = Err e.
Proof.
  intros Hl; unfold draw_count.
  destruct (n =? 0)%nat; [eauto|].
  destruct (Z.leb_spec l 0); [eauto|lia].
Qed.

(** C7, as the code has it — The construction compares the depth buffer
    with [H*W] only: it fails when the depth buffer has another number
    of entries and never looks at the size of the colour buffer.  A limit
    that is not positive makes it fail exactly when [base] exceeds the
    limit; a limit of 0 on an image without valid pixel is accepted and
    the mask is left as the depth test gave it. *)
Theorem shape_and_limit_checks (self : dataset) (id : string) (g : rng)
    (label : list vec3) (depth : list R) (c2w : mat4) (K : mat3) :
  labels self !! id = Some label ->
  depths self !! id = Some depth ->
  list_poses self !! id = Some c2w ->
  list_Ks self !! id = Some K ->
  let base := count_true (map nonzero depth) in
  (length depth <> (sH self * sW self)%nat ->
   calculate_x_y_z_theta_phi self id g = Err ValueError) /\
  (forall label',
      calculate_x_y_z_theta_phi (set_label self id label') id g
      = calculate_x_y_z_theta_phi self id g) /\
  (length depth = (sH self * sW self)%nat ->
   forall l, limit self = Some l -> (l <= 0)%Z ->
     if (l <? Z.of_nat base)%Z
     then exists e, calculate_x_y_z_theta_phi self id g = Err e
     else det3 K <> 0 ->
          exists rows,
            calculate_x_y_z_theta_phi self id g = Ok (rows, map nonzero depth, g)).
Proof.
  intros Hlab Hdep Hpose HK base; split; [|split].
  - intros Hlen; unfold calculate_x_y_z_theta_phi.
    rewrite (dict_get_Some _ _ _ Hlab), (dict_get_Some _ _ _ Hdep),
      (dict_get_Some _ _ _ Hpose), (dict_get_Some _ _ _ HK); simpl.
    rewrite concatenate_uvd_mismatch by exact Hlen; reflexivity.
  - intros label'; unfold calculate_x_y_z_theta_phi; simpl.
    rewrite (dict_get_Some _ _ _ Hlab).
    rewrite (dict_get_Some (<[id := label']> (labels self)) id label')
      by apply lookup_insert_eq.
    reflexivity.
  - intros Hlen l El Hl.
    destruct (Z.ltb_spec l (Z.of_nat base)) as [Hlt|Hge].
    + destruct (concatenate_uvd_ok (sW self) (sH self) depth Hlen)
        as [uvd [Hcat [_ [Hmask _]]]].
      destruct (draw_count_rejects l base (sW self * sH self) Hl) as [e He].
      exists e; unfold calculate_x_y_z_theta_phi.
      rewrite (dict_get_Some _ _ _ Hlab), (dict_get_Some _ _ _ Hdep),
        (dict_get_Some _ _ _ Hpose), (dict_get_Some _ _ _ HK); simpl.
      rewrite Hcat; simpl; rewrite Hmask, El; unfold subsample; fold base.
      destruct (Z.ltb_spec l (Z.of_nat base)); [|lia].
      rewrite He; reflexivity.
    + intros Hdet; eexists.
      eapply calculate_rows; try eassumption.
      rewrite El; apply subsample_keep; intros l' [= <-]; exact Hge.
Qed.

Lemma shape_and_limit_checks_witness :
  exists rows, calculate_x_y_z_theta_phi dataset1 "r_0" rng0 = Ok (rows, [false], rng0).
Proof.
  destruct (shape_and_limit_checks dataset1 "r_0" rng0 [] [0] pose0 I3
              eq_refl eq_refl eq_refl eq_refl) as [_ [_ Hlim]].
  specialize (Hlim eq_refl 0%Z eq_refl ltac:(lia)).
  simpl in Hlim; rewrite nonzero_0 in Hlim.
  destruct (Hlim det3_I3) as [rows Hrows].
  exists rows; exact Hrows.
Defined.

(** C7, as the specification words it, fails: a colour buffer of 0 rows
    beside a depth buffer of 1 row, under the limit 0, is accepted. *)
Lemma shape_and_limit_unchecked :
  labels dataset1 !! "r_0"%string = Some [] /\
  depths dataset1 !! "r_0"%string = Some [0] /\
  limit dataset1 = Some 0%Z /\
  calculate_x_y_z_theta_phi dataset1 "r_0" rng0 = Ok ([], [false], rng0).
Proof.
  repeat split.
  rewrite (calculate_rows dataset1 "r_0" rng0 rng0 [] [0] pose0 I3 [false]);
    try reflexivity.
  - exact det3_I3.
  - simpl; rewrite nonzero_0; reflexivity.
Qed.

(** ** The Gaussian basis *)

Lemma torch_normal_lookup (draws : nat -> float32) (rows cols i : nat) :
  (i < rows)%nat ->
  torch_normal draws rows cols !! i
  = Some (map (fun j => draws (i * cols + j)%nat) (seq 0 cols)).
Proof.
  intros Hi; unfold torch_normal.
  rewrite lookup_map, lookup_seq_lt by exact Hi; reflexivity.
Qed.

Lemma ffm_B_lookup (draws : nat -> float32) (N i : nat) (scale : float32) :
  (i < N)%nat ->
  ffm_B None draws N scale !! i
  = Some (map (fun j => mul32 (draws (i * 6 + j)%nat) scale) (seq 0 6)).
Proof.
  intros Hi; unfold ffm_B.
  rewrite lookup_map, torch_normal_lookup by exact Hi; simpl; reflexivity.
Qed.

Lemma ffm_B_length (draws : nat -> float32) (N : nat) (scale : float32) :
  length (ffm_B None draws N scale) = N.
Proof. unfold ffm_B, torch_normal; rewrite !length_map, length_seq; reflexivity. Qed.

Lemma ffm_B_row (draws : nat -> float32) (N i : nat) (scale : float32)
    (r : list float32) :
  ffm_B None draws N scale !! i = Some r ->
  (i < N)%nat /\ r = map (fun j => mul32 (draws (i * 6 + j)%nat) scale) (seq 0 6).
Proof.
  intros Hr.
  assert (HiN : (i < N)%nat)
    by (apply lookup_lt_Some in Hr; rewrite ffm_B_length in Hr; exact Hr).
  rewrite ffm_B_lookup in Hr by exact HiN.
  split; [exact HiN|congruence].
Qed.

(** A finite float times a zero is a zero. *)
Lemma mul32_zero (x scale : float32) :
  finite32 x = true -> is_zero32 scale = true -> is_zero32 (mul32 x scale) = true.
Proof.
  destruct x, scale; simpl; intros Hx Hs; try discriminate; reflexivity.
Qed.

(** C9, as the code has it — A fresh Gaussian basis has exactly [N] rows
    of 6 columns (1024 by 6 for [N = 1024]); its entry [(i, j)] is the
    binary32 product of a draw of the normal sampler and [ffm_map_scale].
    No row is examined and no warning exists: when the scale is a zero,
    every row is the zero vector. *)
Theorem ffm_B_shape (draws : nat -> float32) (N : nat) (scale : float32) :
  let B := ffm_B None draws N scale in
  length B = N /\
  Forall (fun r => length r = 6%nat) B /\
  (forall i j, (i < N)%nat -> (j < 6)%nat ->
     B !! i ≫= (fun r => r !! j) = Some (mul32 (draws (i * 6 + j)%nat) scale)) /\
  (is_zero32 scale = true -> (forall k, finite32 (draws k) = true) -> Forall zero_row B).
Proof.
  intros B; unfold B; split; [apply ffm_B_length|split; [|split]].
  - apply Forall_forall; intros r Hr.
    apply list_elem_of_lookup_1 in Hr as [i Hi].
    apply ffm_B_row in Hi as [_ ->].
    rewrite length_map, length_seq; reflexivity.
  - intros i j Hi Hj; rewrite ffm_B_lookup by exact Hi; simpl.
    do 6 (destruct j as [|j]; [reflexivity|]); lia.
  - intros Hscale Hfin; apply Forall_forall; intros r Hr.
    apply list_elem_of_lookup_1 in Hr as [i Hi].
    apply ffm_B_row in Hi as [_ ->].
    unfold zero_row; apply Forall_forall; intros x Hx.
    apply list_elem_of_In, in_map_iff in Hx as [j [<- _]].
    apply mul32_zero; [apply Hfin|exact Hscale].
Qed.

(** C9, as the specification words it, fails: with a scale of 0 every
    row of the 1024 by 6 basis is the zero vector, and so is a row of
    draws 1e-30 under the scale 1e-30, whose products underflow. *)
Lemma ffm_B_zero_row :
  length (ffm_B None (fun _ => one32) 1024 (S754_zero false)) = 1024%nat /\
  (exists r, ffm_B None (fun _ => one32) 1024 (S754_zero false) !! 0%nat = Some r /\
             zero_row r) /\
  is_zero32 tiny32 = false /\
  exists r, ffm_B None (fun _ => tiny32) 1024 tiny32 !! 0%nat = Some r /\ zero_row r.
Proof.
  split; [apply ffm_B_length|split; [|split; [reflexivity|]]].
  - eexists; split; [apply ffm_B_lookup; lia|].
    unfold zero_row; simpl; repeat constructor.
  - eexists; split; [apply ffm_B_lookup; lia|].
    unfold zero_row; simpl; repeat (constructor; [vm_compute; reflexivity|]); constructor.
Qed.

(** ** Loading the labels *)

Lemma vdiv_vzero (c : R) : c <> 0 -> vdiv vzero c = vzero.
Proof. intros Hc; unfold vdiv, vzero; simpl; f_equal; field; exact Hc. Qed.

(** A weighted sum commutes with the division by 255. *)
Lemma weighted_sum_div255 (I : image) (ts : list (nat * nat * R)) :
  weighted_sum (div255 I) ts = vdiv (weighted_sum I ts) 255.
Proof.
  induction ts as [|[[sy sx] wt] ts IH]; simpl.
  - symmetry; apply vdiv_vzero; lra.
  - rewrite IH; destruct (px I sy sx), (weighted_sum I ts).
    unfold vadd, vscale, vdiv; simpl; f_equal; field.
Qed.

Lemma reshape_rows_ext (I J : image) :
  ih I = ih J -> iw I = iw J -> (forall y x, px I y x = px J y x) ->
  reshape_rows I = reshape_rows J.
Proof.
  intros Hh Hw Hpx; unfold reshape_rows; rewrite Hh, Hw.
  induction (seq 0 (ih J)) as [|y ys IH]; [reflexivity|]; simpl.
  rewrite IH; f_equal; apply map_ext; intros x; apply Hpx.
Qed.

Lemma reshape_rows_length (I : image) : length (reshape_rows I) = (ih I * iw I)%nat.
Proof.
  unfold reshape_rows.
  assert (Hgen : forall l : list nat,
             length (flat_map (fun y => map (fun x => px I y x) (seq 0 (iw I))) l)
             = (length l * iw I)%nat).
  { induction l as [|y l IH]; [reflexivity|]; simpl.
    rewrite length_app, length_map, length_seq, IH; reflexivity. }
  rewrite Hgen, length_seq; reflexivity.
Qed.

(** With a resize that keeps fractions the two orders agree. *)
Lemma load_label_order (taps : nat * nat -> nat * nat -> nat -> nat -> list (nat * nat * R))
    (H W : nat) (I : image) :
  load_label taps H W I = spec_load_label taps (fun x => x) H W I.
Proof.
  unfold load_label, spec_load_label; simpl.
  destruct (decide ((ih I, iw I) = (H, W))); [reflexivity|].
  apply reshape_rows_ext; try reflexivity.
  intros y x; simpl; rewrite weighted_sum_div255.
  destruct (weighted_sum I _); reflexivity.
Qed.

Lemma elem_of_reshape_rows (I : image) (p : vec3) :
  p ∈ reshape_rows I -> exists y x, p = px I y x.
Proof.
  unfold reshape_rows; intros Hp.
  apply list_elem_of_In, in_flat_map in Hp as [y [_ Hp]].
  apply in_map_iff in Hp as [x [<- _]]; eauto.
Qed.

(** A pixel of an 8-bit image divided by 255 lies in the unit cube. *)
Lemma div255_in_unit (I : image) (y x : nat) :
  eight_bit I -> in_unit (px (div255 I) y x).
Proof.
  intros HI; destruct (HI y x) as (Hx & Hy & Hz).
  unfold in_unit, div255, vdiv; simpl; repeat split; lra.
Qed.

(** A sum with weights that are not negative stays between 0 and the sum
    of the weights. *)
Lemma weighted_sum_bounds
    (J : image) (ts : list (nat * nat * R)) :
  (forall y x, in_unit (px J y x)) ->
  Forall (fun t => 0 <= snd t) ts ->
  let s := fold_right (fun t acc => snd t + acc) 0 ts in
  (0 <= vx (weighted_sum J ts) <= s) /\
  (0 <= vy (weighted_sum J ts) <= s) /\
  (0 <= vz (weighted_sum J ts) <= s).
Proof.
  intros HJ Hts; induction Hts as [|[[sy sx] wt] ts Hw _ IH]; simpl.
  - repeat split; lra.
  - simpl in Hw; destruct IH as (Hx & Hy & Hz).
    destruct (HJ sy sx) as (Px & Py & Pz).
    destruct (px J sy sx) as [a b c], (weighted_sum J ts) as [a' b' c'].
    unfold vadd, vscale; simpl in *; repeat split; nra.
Qed.

Lemma load_label_in_unit (taps : nat * nat -> nat * nat -> nat -> nat -> list (nat * nat * R))
    (H W : nat) (I : image) :
  eight_bit I ->
  (forall y x, convex (taps (ih I, iw I) (H, W) y x)) ->
  Forall in_unit (load_label taps H W I).
Proof.
  intros HI Htaps; unfold load_label; cbv zeta.
  apply Forall_forall; intros p Hp.
  apply elem_of_reshape_rows in Hp as [y [x ->]].
  destruct (decide ((ih (div255 I), iw (div255 I)) = (H, W))) as [_|_].
  - apply div255_in_unit; exact HI.
  - simpl; destruct (Htaps y x) as [Hpos Hsum].
    pose proof (weighted_sum_bounds (div255 I) _
                  (fun y x => div255_in_unit I y x HI) Hpos) as Hb.
    cbv zeta in Hb; rewrite Hsum in Hb; exact Hb.
Qed.

Lemma load_label_length (taps : nat * nat -> nat * nat -> nat -> nat -> list (nat * nat * R))
    (H W : nat) (I : image) :
  length (load_label taps H W I) = (H * W)%nat.
Proof.
  unfold load_label; rewrite reshape_rows_length; simpl.
  destruct (decide ((ih I, iw I) = (H, W))) as [[= <- <-]|]; reflexivity.
Qed.

Section LabelLoop.

Variable taps : nat * nat -> nat * nat -> nat -> nat -> list (nat * nat * R).
Variable imread : string -> result image.

Lemma load_labels_inv (ids : list string) :
  forall self self' : dataset,
    load_labels taps imread self ids = Ok self' ->
    same_config self self' /\
    depths self' = depths self /\ x_trains self' = x_trains self /\
    masks self' = masks self /\
    (forall id, id ∈ ids ->
       exists path I,
         list_images self !! id = Some path /\ imread path = Ok I /\
         labels self' !! id = Some (load_label taps (sH self) (sW self) I)) /\
    (forall id, id ∉ ids -> labels self' !! id = labels self !! id).
Proof.
  induction ids as [|id0 ids IH]; intros self self' Hload; simpl in Hload.
  - injection Hload as <-; unfold same_config; repeat split; try reflexivity.
    intros id Hin; inversion Hin.
  - unfold dict_get in Hload.
    destruct (list_images self !! id0) as [path|] eqn:Hpath; simpl in Hload; [|discriminate].
    destruct (imread path) as [I|e] eqn:HI; simpl in Hload; [|discriminate].
    destruct (IH _ _ Hload) as [Hcfg [Hd [Hx [Hm [Hin Hout]]]]]; clear IH.
    unfold same_config in *; simpl in *.
    destruct Hcfg as (? & ? & ? & ? & ? & ? & ?).
    repeat split; try assumption.
    + intros id Hid.
      destruct (decide (id ∈ ids)) as [Hmem|Hnot]; [apply Hin; exact Hmem|].
      apply elem_of_cons in Hid as [->|Hid]; [|contradiction].
      exists path, I; repeat split; try assumption.
      rewrite (Hout id0 Hnot); apply lookup_insert_eq.
    + intros id Hid; apply not_elem_of_cons in Hid as [Hne Hnot].
      rewrite (Hout id Hnot); apply lookup_insert_ne; congruence.
Qed.

End LabelLoop.


Lemma image0_eight_bit : eight_bit image0.
Proof. intros y x; unfold image0; simpl; destruct (x =? 0)%nat; simpl; lra. Qed.

Lemma taps0_convex (src dst : nat * nat) (y x : nat) : convex (taps0 src dst y x).
Proof.
  unfold convex, taps0; split; [repeat constructor; simpl; lra|simpl; lra].
Qed.



(** ** The caches after construction *)

Lemma load_depths_inv (render_depth : mat4 -> mat3 -> nat -> R) (ids : list string) :
  forall self self' : dataset,
    load_depths render_depth self ids = Ok self' ->
    same_config self self' /\
    labels self' = labels self /\ x_trains self' = x_trains self /\
    masks self' = masks self.
Proof.
  induction ids as [|id0 ids IH]; intros self self' Hload; simpl in Hload.
  - injection Hload as <-; unfold same_config; repeat split; reflexivity.
  - destruct (dict_get (list_poses self) id0) as [c2w|]; simpl in Hload; [|discriminate].
    destruct (dict_get (list_Ks self) id0) as [K|]; simpl in Hload; [|discriminate].
    destruct (IH _ _ Hload) as [Hcfg [Hl [Hx Hm]]]; clear IH.
    unfold same_config in *; simpl in *.
    destruct Hcfg as (? & ? & ? & ? & ? & ? & ?).
    repeat split; assumption.
Qed.

Lemma calculate_mask_length (self : dataset) (id : string) (g g' : rng)
    (x : list row6) (m : list bool) :
  calculate_x_y_z_theta_phi self id g = Ok (x, m, g') ->
  length m = (sH self * sW self)%nat.
Proof.
  unfold calculate_x_y_z_theta_phi; intros Hc.
  destruct (dict_get (labels self) id) as [label|]; simpl in Hc; [|discriminate].
  destruct (dict_get (depths self) id) as [depth|]; simpl in Hc; [|discriminate].
  destruct (dict_get (list_poses self) id) as [c2w|]; simpl in Hc; [|discriminate].
  destruct (dict_get (list_Ks self) id) as [K|]; simpl in Hc; [|discriminate].
  destruct (concatenate_uvd _ depth) as [uvd|] eqn:Hcat; simpl in Hc; [|discriminate].
  destruct (subsample _ _ _ g) as [[mask g1]|] eqn:Hsub; simpl in Hc; [|discriminate].
  destruct (inv K) as [Kinv|]; simpl in Hc; [|discriminate].
  injection Hc as _ <- _.
  rewrite (subsample_length _ _ _ _ _ _ Hsub), length_map.
  unfold concatenate_uvd in Hcat.
  destruct (Nat.eqb_spec (length (meshgrid_uv (sW self) (sH self))) (length depth))
    as [Heq|]; [|discriminate].
  injection Hcat as <-.
  rewrite length_zip_with, <- Heq, meshgrid_uv_length; lia.
Qed.

Lemma load_samples_inv (ids : list string) :
  forall (self self' : dataset) (g g' : rng),
    load_samples self ids g = Ok (self', g') ->
    same_config self self' /\
    labels self' = labels self /\ depths self' = depths self /\
    (forall id, cached self id -> cached self' id) /\
    (forall id, id ∈ ids -> cached self' id).
Proof.
  induction ids as [|id0 ids IH]; intros self self' g g' Hload; simpl in Hload.
  - injection Hload as <- <-; unfold same_config; repeat split; auto.
    intros id Hin; inversion Hin.
  - destruct (calculate_x_y_z_theta_phi self id0 g) as [[[x m] g1]|] eqn:Hc;
      simpl in Hload; [|discriminate].
    pose proof (calculate_mask_length _ _ _ _ _ _ Hc) as Hlen.
    destruct (IH _ _ _ _ Hload) as [Hcfg [Hl [Hd [Hkeep Hin]]]]; clear IH.
    assert (Hstep : forall id, cached self id \/ id = id0 ->
                               cached (set_sample self id0 x m) id).
    { intros id Hid; unfold cached; simpl.
      destruct (decide (id = id0)) as [->|Hne].
      - exists x, m; rewrite !lookup_insert_eq; auto.
      - destruct Hid as [[x' [m' [Hx' [Hm' Hl']]]]|]; [|contradiction].
        exists x', m'; rewrite !lookup_insert_ne by congruence; auto. }
    unfold same_config in *; simpl in *.
    destruct Hcfg as (? & ? & ? & ? & ? & ? & ?).
    repeat split; try assumption.
    + intros id Hid; apply Hkeep, Hstep; left; exact Hid.
    + intros id Hid; apply elem_of_cons in Hid as [->|Hid].
      * apply Hkeep, Hstep; right; reflexivity.
      * apply Hin; exact Hid.
Qed.

Lemma py_index_in_range {A} (l : list A) (i : Z) :
  (- Z.of_nat (length l) <= i < Z.of_nat (length l))%Z ->
  exists x, py_index l i = Ok x /\ x ∈ l.
Proof.
  intros Hi; unfold py_index, list_get.
  destruct (Z.ltb_spec i 0) as [Hneg|Hpos].
  - destruct (Z.ltb_spec (i + Z.of_nat (length l)) 0); [lia|].
    destruct (lookup_lt_is_Some_2 l (Z.to_nat (i + Z.of_nat (length l))) ltac:(lia))
      as [x Hx].
    rewrite Hx; exists x; split; [reflexivity|].
    eapply list_elem_of_lookup_2; exact Hx.
  - destruct (lookup_lt_is_Some_2 l (Z.to_nat i) ltac:(lia)) as [x Hx].
    rewrite Hx; exists x; split; [reflexivity|].
    eapply list_elem_of_lookup_2; exact Hx.
Qed.

Lemma getitem_frame (a b : dataset) (index : Z) :
  list_ids a = list_ids b -> x_trains a = x_trains b ->
  masks a = masks b -> labels a = labels b ->
  fst (getitem a index) = fst (getitem b index).
Proof. intros H1 H2 H3 H4; unfold getitem; simpl; rewrite H1, H2, H3, H4; reflexivity. Qed.

(** What the three loops of [__init__] establish for every identifier. *)
Lemma init_loops_caches
    (taps : nat * nat -> nat * nat -> nat -> nat -> list (nat * nat * R))
    (imread : string -> result image) (render_depth : mat4 -> mat3 -> nat -> R)
    (self0 self : dataset) (g g' : rng) :
  init_loops taps imread render_depth self0 g = Ok (self, g') ->
  list_ids self = list_ids self0 /\
  forall id, id ∈ list_ids self ->
    cached self id /\
    exists lab, labels self !! id = Some lab /\ length lab = (sH self * sW self)%nat.
Proof.
  unfold init_loops; intros Hinit.
  destruct (load_labels taps imread self0 (list_ids self0)) as [s1|] eqn:H1;
    simpl in Hinit; [|discriminate].
  destruct (load_depths render_depth s1 (list_ids s1)) as [s2|] eqn:H2;
    simpl in Hinit; [|discriminate].
  destruct (load_labels_inv _ _ _ _ _ H1) as [C1 [_ [_ [_ [L1 _]]]]].
  destruct (load_depths_inv _ _ _ _ H2) as [C2 [L2 _]].
  destruct (load_samples_inv _ _ _ _ _ Hinit) as [C3 [L3 [_ [_ S3]]]].
  unfold same_config in *.
  destruct C1 as (I1 & _ & _ & _ & _ & Hh1 & Hw1).
  destruct C2 as (I2 & _ & _ & _ & _ & Hh2 & Hw2).
  destruct C3 as (I3' & _ & _ & _ & _ & Hh3 & Hw3).
  split; [congruence|].
  intros id Hid; split.
  - apply S3; rewrite I3'; exact Hid.
  - assert (Hid0 : id ∈ list_ids self0) by (rewrite I1, I2, I3'; exact Hid).
    destruct (L1 id Hid0) as [path [I [_ [_ Hlab]]]].
    eexists; split; [rewrite L3, L2; exact Hlab|].
    rewrite load_label_length; congruence.
Qed.

(** C10 — After construction [__getitem__] only reads: for every index
    in range it returns a triple and leaves the dataset as it was, a
    second call returns the same triple, and the triple depends on
    nothing but the identifier list and the three caches of features,
    masks and labels. *)
Theorem getitem_pure
    (taps : nat * nat -> nat * nat -> nat -> nat -> list (nat * nat * R))
    (imread : string -> result image) (render_depth : mat4 -> mat3 -> nat -> R)
    (self0 self : dataset) (g g' : rng) (index : Z) :
  init_loops taps imread render_depth self0 g = Ok (self, g') ->
  (- Z.of_nat (len self) <= index < Z.of_nat (len self))%Z ->
  exists r,
    getitem self index = (Ok r, self) /\
    getitem (snd (getitem self index)) index = (Ok r, self) /\
    forall other : dataset,
      list_ids other = list_ids self -> x_trains other = x_trains self ->
      masks other = masks self -> labels other = labels self ->
      getitem other index = (Ok r, other).
Proof.
  intros Hinit Hrange.
  destruct (init_loops_caches _ _ _ _ _ _ _ Hinit) as [_ Hall].
  destruct (py_index_in_range (list_ids self) index Hrange) as [id [Hidx Hin]].
  destruct (Hall id Hin) as [[x [m [Hx [Hm Hlm]]]] [lab [Hlab Hll]]].
  assert (Hget : getitem self index = (Ok (x, select m lab, m), self)).
  { apply getitem_cached with (id := id); try assumption; congruence. }
  exists (x, select m lab, m); split; [exact Hget|split].
  - rewrite Hget; exact Hget.
  - intros other E1 E2 E3 E4.
    apply getitem_cached with (id := id); rewrite ?E1, ?E2, ?E3, ?E4;
      try assumption; congruence.
Qed.

Lemma init_loops_dataset0 :
  exists self g',
    init_loops taps0 imread0 render_depth0 (dataset0 None) rng0 = Ok (self, g').
Proof.
  pose (s1 := set_label (dataset0 None) "r_0" (load_label taps0 2 2 image0)).
  pose (s2 := set_depth s1 "r_0" [2; 2; 2; 2]).
  assert (Hload : loaded s2 "r_0" (load_label taps0 2 2 image0) [2; 2; 2; 2] pose0 I3).
  { split; reflexivity || apply load_label_length. }
  destruct (calculate_total s2 "r_0" rng0 _ _ _ _ Hload det3_I3)
    as [mask [g' [_ Hc]]].
  { intros l Hl; discriminate. }
  eexists _, g'; unfold init_loops.
  change (load_labels taps0 imread0 (dataset0 None) (list_ids (dataset0 None)))
    with (Ok s1); cbn [bind].
  change (load_depths render_depth0 s1 (list_ids s1)) with (Ok s2); cbn [bind].
  change (list_ids s2) with ["r_0"%string]; cbn [load_samples].
  rewrite Hc; reflexivity.
Qed.

Lemma getitem_pure_witness :
  exists self g' r,
    init_loops taps0 imread0 render_depth0 (dataset0 None) rng0 = Ok (self, g') /\
    getitem self 0 = (Ok r, self) /\
    getitem (snd (getitem self 0)) 0 = (Ok r, self).
Proof.
  destruct init_loops_dataset0 as [self [g' Hinit]].
  destruct (getitem_pure taps0 imread0 render_depth0 (dataset0 None) self rng0 g' 0%Z Hinit)
    as [r [H1 [H2 _]]].
  - destruct (init_loops_caches _ _ _ _ _ _ _ Hinit) as [Hids _].
    unfold len; rewrite Hids; simpl; lia.
  - exists self, g', r; repeat split; assumption.
Defined.

(** * Further properties of the dataset *)

(** ** Indexing *)

(** X1 — An index outside [[-len, len)] makes [__getitem__] raise
    [IndexError] and leaves the dataset as it was; an index in
    [[-len, 0)] addresses the same sample as that index plus [len]. *)
Theorem getitem_index_bounds (self : dataset) (index : Z) :
  ((index < - Z.of_nat (len self) \/ Z.of_nat (len self) <= index)%Z ->
   getitem self index = (Err IndexError, self)) /\
  ((- Z.of_nat (len self) <= index < 0)%Z ->
   getitem self index = getitem self (index + Z.of_nat (len self))).
Proof.
  unfold getitem, len, py_index, list_get; split; intros Hi.
  - destruct (Z.ltb_spec index 0) as [Hneg|Hpos].
    + destruct (Z.ltb_spec (index + Z.of_nat (length (list_ids self))) 0);
        [reflexivity|lia].
    + assert (Hge : (length (list_ids self) <= Z.to_nat index)%nat).
      { destruct Hi as [Hi|Hi]; [lia|].
        apply Nat2Z.inj_le; rewrite Z2Nat.id by exact Hpos; exact Hi. }
      rewrite (lookup_ge_None_2 (list_ids self) (Z.to_nat index) Hge).
      reflexivity.
  - destruct (Z.ltb_spec index 0) as [_|]; [|lia].
    destruct (Z.ltb_spec (index + Z.of_nat (length (list_ids self))) 0); [lia|].
    reflexivity.
Qed.

Lemma getitem_index_bounds_witness :
  getitem (dataset0 None) 1 = (Err IndexError, dataset0 None) /\
  getitem (dataset0 None) (-1) = getitem (dataset0 None) 0.
Proof.
  split.
  - apply (proj1 (getitem_index_bounds (dataset0 None) 1%Z)); right; unfold len; simpl; lia.
  - apply (proj2 (getitem_index_bounds (dataset0 None) (-1)%Z)); unfold len; simpl; lia.
Defined.

(** ** The thinning step never adds pixels *)

Lemma count_true_insert_false_le (j : nat) (m : list bool) :
  (count_true (<[j := false]> m) <= count_true m)%nat.
Proof.
  revert j; induction m as [|b m IH]; intros [|j];
    [unfold count_true; simpl; lia | unfold count_true; simpl; lia | |].
  - change (<[0%nat := false]> (b :: m)) with (false :: m).
    rewrite !count_true_cons; destruct b; lia.
  - change (<[S j := false]> (b :: m)) with (b :: <[j := false]> m).
    rewrite !count_true_cons; specialize (IH j); lia.
Qed.

Lemma clear_at_count (idx : list nat) :
  forall m : list bool,
    (count_true (clear_at m idx) <= count_true m)%nat /\
    (count_true m <= count_true (clear_at m idx) + length idx)%nat.
Proof.
  unfold clear_at; induction idx as [|j idx IH]; intros m; simpl; [lia|].
  destruct (IH (<[j := false]> m)) as [Hle Hge].
  pose proof (count_true_insert_false_le j m).
  pose proof (count_true_insert_false j m).
  lia.
Qed.

(** X2 — Whatever the generator returns, thinning keeps the length of
    the mask, only turns entries off, and removes at most as many valid
    pixels as it consumed draws. *)
Theorem subsample_bounds (lim : option Z) (n : nat) (mask mask' : list bool)
    (g g' : rng) :
  subsample lim n mask g = Ok (mask', g') ->
  length mask' = length mask /\
  (forall i, mask' !! i = Some true -> mask !! i = Some true) /\
  (count_true mask' <= count_true mask)%nat /\
  (cursor g <= cursor g')%nat /\
  (count_true mask <= count_true mask' + (cursor g' - cursor g))%nat.
Proof.
  intros Hsub.
  split; [eapply subsample_length; exact Hsub|].
  split.
  { intros i Hi.
    pose proof (subsample_length _ _ _ _ _ _ Hsub) as Hlen.
    destruct (lookup_lt_is_Some_2 mask i) as [b Hb].
    { rewrite <- Hlen; eapply lookup_lt_Some; exact Hi. }
    destruct b; [exact Hb|].
    rewrite (subsample_subset _ _ _ _ _ _ _ Hsub Hb) in Hi; discriminate. }
  unfold subsample in Hsub; destruct lim as [l|];
    [|injection Hsub as <- <-; lia].
  destruct (l <? Z.of_nat (count_true mask))%Z; [|injection Hsub as <- <-; lia].
  destruct (draw_count l (count_true mask) n) as [L|e]; cbn [bind] in Hsub; [|discriminate].
  destruct (L <? 0)%Z; [discriminate|].
  unfold assign_false in Hsub; destruct (forallb _ _); cbn [bind] in Hsub; [|discriminate].
  assert (Hm : clear_at mask (fst (randint g n (Z.to_nat L))) = mask') by congruence.
  assert (Hg : snd (randint g n (Z.to_nat L)) = g') by congruence.
  clear Hsub.
  destruct (clear_at_count (fst (randint g n (Z.to_nat L))) mask) as [Hle Hge].
  rewrite randint_length, Hm in *.
  rewrite <- Hg; simpl; lia.
Qed.

Lemma subsample_bounds_witness :
  exists mask' g',
    subsample (Some 2%Z) 4 [true; true; true; true] rng0 = Ok (mask', g') /\
    (count_true mask' <= 4)%nat /\ length mask' = 4%nat.
Proof.
  destruct (subsample_thin 2%Z 4 [true; true; true; true] rng0) as [L [_ [_ Hs]]];
    [reflexivity|reflexivity|reflexivity|].
  destruct (subsample_bounds _ _ _ _ _ _ Hs) as [Hlen [_ [Hle _]]].
  eexists _, _; split; [exact Hs|split; [exact Hle|exact Hlen]].
Defined.

(** ** Construction without a limit *)

Lemma dict_get_inv {V} (d : gmap string V) (k : string) (v : V) :
  dict_get d k = Ok v -> d !! k = Some v.
Proof. unfold dict_get; destruct (d !! k); [intros [= ->]; reflexivity|discriminate]. Qed.

Lemma calculate_inv (self : dataset) (id : string) (g g' : rng)
    (x : list row6) (m : list bool) :
  calculate_x_y_z_theta_phi self id g = Ok (x, m, g') ->
  exists label depth c2w K,
    labels self !! id = Some label /\ depths self !! id = Some depth /\
    list_poses self !! id = Some c2w /\ list_Ks self !! id = Some K /\
    length depth = (sH self * sW self)%nat /\ det3 K <> 0 /\
    subsample (limit self) (sW self * sH self) (map nonzero depth) g = Ok (m, g').
Proof.
  unfold calculate_x_y_z_theta_phi; intros Hc.
  destruct (dict_get (labels self) id) as [label|] eqn:Hl; simpl in Hc; [|discriminate].
  destruct (dict_get (depths self) id) as [depth|] eqn:Hd; simpl in Hc; [|discriminate].
  destruct (dict_get (list_poses self) id) as [c2w|] eqn:Hp; simpl in Hc; [|discriminate].
  destruct (dict_get (list_Ks self) id) as [K|] eqn:HK; simpl in Hc; [|discriminate].
  destruct (concatenate_uvd _ depth) as [uvd|] eqn:Hcat; simpl in Hc; [|discriminate].
  assert (Hlen : length depth = (sH self * sW self)%nat).
  { unfold concatenate_uvd in Hcat.
    destruct (Nat.eqb_spec (length (meshgrid_uv (sW self) (sH self))) (length depth))
      as [Heq|]; [|discriminate].
    rewrite <- Heq; apply meshgrid_uv_length. }
  destruct (concatenate_uvd_ok (sW self) (sH self) depth Hlen)
    as [uvd' [Hcat' [_ [Hmask _]]]].
  assert (uvd' = uvd) by congruence; subst uvd'.
  rewrite Hmask in Hc.
  destruct (subsample _ _ _ g) as [[mask g1]|] eqn:Hsub; simpl in Hc; [|discriminate].
  unfold inv in Hc; destruct (Req_dec_T (det3 K) 0) as [|Hdet]; simpl in Hc; [discriminate|].
  exists label, depth, c2w, K.
  repeat split; try (apply dict_get_inv; assumption); try assumption.
  congruence.
Qed.

(** The masks of a list of identifiers are the plain depth tests. *)
Lemma load_samples_no_limit (ids : list string) :
  forall (self self' : dataset) (g g' : rng),
    limit self = None ->
    load_samples self ids g = Ok (self', g') ->
    g' = g /\
    (forall g2, load_samples self ids g2 = Ok (self', g2)) /\
    (forall id depth, depths self !! id = Some depth ->
       masks self !! id = Some (map nonzero depth) ->
       masks self' !! id = Some (map nonzero depth)) /\
    (forall id, id ∈ ids ->
       exists depth, depths self !! id = Some depth /\
                     masks self' !! id = Some (map nonzero depth)).
Proof.
  induction ids as [|id0 ids IH]; intros self self' g g' Hlim Hload; simpl in Hload.
  - injection Hload as <- <-; split; [reflexivity|split; [reflexivity|split]].
    + intros id depth _ Hm; exact Hm.
    + intros id Hin; inversion Hin.
  - destruct (calculate_x_y_z_theta_phi self id0 g) as [[[x m] g1]|] eqn:Hc;
      simpl in Hload; [|discriminate].
    destruct (calculate_inv _ _ _ _ _ _ Hc)
      as (label & depth0 & c2w & K & Hl & Hd & Hp & HK & Hlen & Hdet & Hsub).
    rewrite Hlim, subsample_keep in Hsub by discriminate.
    injection Hsub as Hm Hg; subst m g1.
    destruct (IH (set_sample self id0 x (map nonzero depth0)) self' g g' Hlim Hload)
      as [Hg' [Hany [Hkeep Hin]]]; clear IH.
    assert (Hnew : masks self' !! id0 = Some (map nonzero depth0)).
    { apply Hkeep; [exact Hd|simpl; apply lookup_insert_eq]. }
    split; [exact Hg'|split; [|split]].
    + intros g2; simpl.
      assert (Hc2 : calculate_x_y_z_theta_phi self id0 g2
                    = Ok (x, map nonzero depth0, g2)).
      { rewrite (calculate_rows self id0 g2 g2 label depth0 c2w K (map nonzero depth0))
          by (try assumption; rewrite Hlim; apply subsample_keep; discriminate).
        rewrite (calculate_rows self id0 g g label depth0 c2w K (map nonzero depth0))
          in Hc by (try assumption; rewrite Hlim; apply subsample_keep; discriminate).
        congruence. }
      rewrite Hc2; simpl; apply Hany.
    + intros id depth Hdep Hmask.
      destruct (decide (id = id0)) as [->|Hne]; [congruence|].
      apply Hkeep; [exact Hdep|]; simpl.
      rewrite lookup_insert_ne by congruence; exact Hmask.
    + intros id Hid; apply elem_of_cons in Hid as [->|Hid].
      * exists depth0; split; assumption.
      * apply Hin; exact Hid.
Qed.

(** X3 — Without a limit the construction of the samples involves no
    randomness: the generator comes back untouched, another generator
    gives the same dataset, and the mask cached for every identifier is
    the depth test [depth != 0] on all of its pixels. *)
Theorem full_resolution_without_limit (self self' : dataset) (g g' : rng) :
  limit self = None ->
  load_samples self (list_ids self) g = Ok (self', g') ->
  g' = g /\
  (forall g2, load_samples self (list_ids self) g2 = Ok (self', g2)) /\
  (forall id, id ∈ list_ids self ->
     exists depth,
       depths self !! id = Some depth /\
       masks self' !! id = Some (map nonzero depth)).
Proof.
  intros Hlim Hload.
  destruct (load_samples_no_limit _ _ _ _ _ Hlim Hload) as [Hg [Hany [_ Hmasks]]].
  split; [exact Hg|split; [exact Hany|exact Hmasks]].
Qed.

Lemma load_samples_dataset0 :
  exists self' g', load_samples (dataset0 None) ["r_0"%string] rng0 = Ok (self', g').
Proof.
  destruct (calculate_total (dataset0 None) "r_0" rng0 _ _ _ _
              (dataset0_loaded None) det3_I3) as [mask [g' [_ Hc]]].
  { intros l Hl; discriminate. }
  eexists _, g'; cbn [load_samples]; rewrite Hc; reflexivity.
Qed.

Lemma full_resolution_without_limit_witness :
  exists self' g',
    load_samples (dataset0 None) ["r_0"%string] rng0 = Ok (self', g') /\
    g' = rng0 /\
    masks self' !! "r_0"%string = Some (map nonzero depth0).
Proof.
  destruct load_samples_dataset0 as [self' [g' Hload]].
  destruct (full_resolution_without_limit (dataset0 None) self' rng0 g' eq_refl Hload)
    as [Hg [_ Hm]].
  destruct (Hm "r_0"%string) as [depth [Hd Hmask]]; [left|].
  exists self', g'; split; [exact Hload|split; [exact Hg|]].
  injection Hd as <-; exact Hmask.
Defined.

(** ** Failures of the sample construction *)

(** The thinning step raises no [KeyError]. *)
Lemma subsample_no_key_error (lim : option Z) (n : nat) (mask : list bool) (g : rng) :
  subsample lim n mask g <> Err KeyError.
Proof.
  unfold subsample; destruct lim as [l|]; [|discriminate].
  destruct (l <? Z.of_nat (count_true mask))%Z; [|discriminate].
  unfold draw_count.
  destruct (n =? 0)%nat; [discriminate|].
  destruct (l <=? 0)%Z; [discriminate|]; cbn [bind].
  destruct (_ <? 0)%Z; [discriminate|].
  unfold assign_false; destruct (forallb _ _); cbn [bind]; discriminate.
Qed.

(** X4 — The construction fails with [KeyError] exactly when the
    identifier is missing from the colour buffers, the depth buffers, the
    poses or the intrinsic matrices: the four lookups come first and are
    the only ones, whatever the shapes, the limit and the generator. *)
Theorem calculate_missing_key (self : dataset) (id : string) (g : rng) :
  calculate_x_y_z_theta_phi self id g = Err KeyError <->
  labels self !! id = None \/ depths self !! id = None \/
  list_poses self !! id = None \/ list_Ks self !! id = None.
Proof.
  unfold calculate_x_y_z_theta_phi, dict_get; split.
  - destruct (labels self !! id); [|auto].
    destruct (depths self !! id) as [depth|]; [|auto].
    destruct (list_poses self !! id); [|auto].
    destruct (list_Ks self !! id) as [K|]; [|auto].
    cbn [bind]; intros H; exfalso; revert H.
    unfold concatenate_uvd; destruct (_ =? _)%nat; cbn [bind]; [|discriminate].
    destruct (subsample _ _ _ g) as [[mk g1]|e] eqn:Hs; cbn [bind].
    + unfold inv; destruct (Req_dec_T (det3 K) 0); cbn [bind]; discriminate.
    + intros [= ->]; exact (subsample_no_key_error _ _ _ _ Hs).
  - intros Hmiss.
    destruct (labels self !! id); cbn [bind]; [|reflexivity].
    destruct (depths self !! id); cbn [bind]; [|reflexivity].
    destruct (list_poses self !! id); cbn [bind]; [|reflexivity].
    destruct (list_Ks self !! id); cbn [bind]; [|reflexivity].
    destruct Hmiss as [? | [? | [? | ?]]]; discriminate.
Qed.

(** ** The construction succeeds on well-formed inputs *)

Section Construction.

Variable taps : nat * nat -> nat * nat -> nat -> nat -> list (nat * nat * R).
Variable imread : string -> result image.
Variable render_depth : mat4 -> mat3 -> nat -> R.

Lemma load_labels_total (ids : list string) :
  forall self : dataset,
    (forall id, id ∈ ids ->
       exists path I, list_images self !! id = Some path /\ imread path = Ok I) ->
    exists self', load_labels taps imread self ids = Ok self'.
Proof.
  induction ids as [|id0 ids IH]; intros self Hall; simpl; [eauto|].
  destruct (Hall id0) as [path [I [Hp HI]]]; [left|].
  rewrite (dict_get_Some _ _ _ Hp); simpl; rewrite HI; simpl.
  apply IH; intros id Hid; simpl; apply Hall; right; exact Hid.
Qed.

Lemma load_depths_buffers (ids : list string) :
  forall self self' : dataset,
    load_depths render_depth self ids = Ok self' ->
    (forall id d, depths self !! id = Some d ->
       length d = (sH self * sW self)%nat ->
       exists d', depths self' !! id = Some d' /\ length d' = (sH self * sW self)%nat) /\
    (forall id, id ∈ ids ->
       exists d', depths self' !! id = Some d' /\ length d' = (sH self * sW self)%nat).
Proof.
  induction ids as [|id0 ids IH]; intros self self' Hload; simpl in Hload.
  - injection Hload as <-; split; [eauto|intros id Hin; inversion Hin].
  - destruct (dict_get (list_poses self) id0) as [c2w|]; simpl in Hload; [|discriminate].
    destruct (dict_get (list_Ks self) id0) as [K|]; simpl in Hload; [|discriminate].
    destruct (IH _ _ Hload) as [Hkeep Hin]; clear IH; simpl in *.
    assert (Hnew : exists d', depths self' !! id0 = Some d' /\
                              length d' = (sH self * sW self)%nat).
    { eapply Hkeep; [apply lookup_insert_eq|].
      rewrite length_map, length_seq; reflexivity. }
    split.
    + intros id d Hd Hlen; destruct (decide (id = id0)) as [->|Hne]; [exact Hnew|].
      eapply Hkeep; [rewrite lookup_insert_ne by congruence; exact Hd|exact Hlen].
    + intros id Hid; apply elem_of_cons in Hid as [->|Hid]; [exact Hnew|].
      apply Hin; exact Hid.
Qed.

Lemma load_depths_total (ids : list string) :
  forall self : dataset,
    (forall id, id ∈ ids ->
       exists c2w K, list_poses self !! id = Some c2w /\ list_Ks self !! id = Some K) ->
    exists self', load_depths render_depth self ids = Ok self'.
Proof.
  induction ids as [|id0 ids IH]; intros self Hall; simpl; [eauto|].
  destruct (Hall id0) as [c2w [K [Hp HK]]]; [left|].
  rewrite (dict_get_Some _ _ _ Hp), (dict_get_Some _ _ _ HK); simpl.
  apply IH; intros id Hid; simpl; apply Hall; right; exact Hid.
Qed.

Lemma load_samples_total (ids : list string) :
  forall (self : dataset) (g : rng),
    limit_ok self ->
    (forall id, id ∈ ids ->
       exists label depth c2w K, loaded self id label depth c2w K /\ det3 K <> 0) ->
    exists self' g', load_samples self ids g = Ok (self', g').
Proof.
  induction ids as [|id0 ids IH]; intros self g Hlim Hall; simpl; [eauto|].
  destruct (Hall id0) as (label & depth & c2w & K & Hload & Hdet); [left|].
  destruct (calculate_total self id0 g label depth c2w K Hload Hdet Hlim)
    as [mask [g' [_ Hc]]].
  rewrite Hc; simpl; apply IH; [exact Hlim|].
  intros id Hid; destruct (Hall id) as (l & d & c & k & [] & Hk); [right; exact Hid|].
  exists l, d, c, k; split; [split; assumption|exact Hk].
Qed.

End Construction.

(** The loops return on well-formed dictionaries. *)
Lemma init_loops_returns
    (taps : nat * nat -> nat * nat -> nat -> nat -> list (nat * nat * R))
    (imread : string -> result image) (render_depth : mat4 -> mat3 -> nat -> R)
    (self : dataset) (g : rng) :
  (forall id, id ∈ list_ids self ->
     exists path I c2w K,
       list_images self !! id = Some path /\ imread path = Ok I /\
       list_poses self !! id = Some c2w /\ list_Ks self !! id = Some K /\
       det3 K <> 0) ->
  limit_ok self ->
  exists self' g', init_loops taps imread render_depth self g = Ok (self', g').
Proof.
  intros Hall Hlim; unfold init_loops.
  destruct (load_labels_total taps imread (list_ids self) self) as [s1 H1].
  { intros id Hid; destruct (Hall id Hid) as (p & I & _ & _ & Hp & HI & _); eauto. }
  destruct (load_labels_inv _ _ _ _ _ H1) as [C1 [D1 [_ [_ [L1 _]]]]].
  destruct C1 as (I1 & Im1 & P1 & K1 & Lim1 & Hh1 & Hw1).
  destruct (load_depths_total render_depth (list_ids s1) s1) as [s2 H2].
  { intros id Hid; rewrite <- I1 in Hid.
    destruct (Hall id Hid) as (p & I & c & k & _ & _ & Hc & Hk & _).
    exists c, k; rewrite <- P1, <- K1; auto. }
  destruct (load_depths_inv _ _ _ _ H2) as [C2 [L2 _]].
  destruct (load_depths_buffers _ _ _ _ H2) as [_ B2].
  destruct C2 as (I2 & Im2 & P2 & K2 & Lim2 & Hh2 & Hw2).
  destruct (load_samples_total (list_ids s2) s2 g) as [s3 [g' H3]].
  { intros l Hl; apply Hlim; congruence. }
  { intros id Hid; rewrite <- I2 in Hid.
    destruct (B2 id Hid) as [d [Hd Hdl]].
    rewrite <- I1 in Hid.
    destruct (Hall id Hid) as (p & I & c & k & _ & _ & Hc & Hk & Hdet).
    destruct (L1 id Hid) as (p' & I' & _ & _ & Hlab).
    exists (load_label taps (sH self) (sW self) I'), d, c, k; split; [split|exact Hdet].
    - rewrite L2; exact Hlab.
    - exact Hd.
    - rewrite <- P2, <- P1; exact Hc.
    - rewrite <- K2, <- K1; exact Hk.
    - rewrite load_label_length; congruence.
    - congruence. }
  rewrite H1; simpl; rewrite H2; simpl; rewrite H3.
  exists s3, g'; reflexivity.
Qed.


(** X5 — The three loops of [__init__] succeed whenever every
    identifier has a readable image, a cached pose and a cached regular
    intrinsic matrix and the limit, if any, is positive; the buffers they
    build have [H*W] rows, so no shape error can occur, and afterwards
    every identifier has its sample cached. *)
Theorem init_loops_total
    (taps : nat * nat -> nat * nat -> nat -> nat -> list (nat * nat * R))
    (imread : string -> result image) (render_depth : mat4 -> mat3 -> nat -> R)
    (self : dataset) (g : rng) :
  (forall id, id ∈ list_ids self ->
     exists path I c2w K,
       list_images self !! id = Some path /\ imread path = Ok I /\
       list_poses self !! id = Some c2w /\ list_Ks self !! id = Some K /\
       det3 K <> 0) ->
  limit_ok self ->
  exists self' g',
    init_loops taps imread render_depth self g = Ok (self', g') /\
    list_ids self' = list_ids self /\
    forall id, id ∈ list_ids self -> cached self' id.
Proof.
  intros Hall Hlim.
  destruct (init_loops_returns taps imread render_depth self g Hall Hlim)
    as [self' [g' Hinit]].
  exists self', g'; split; [exact Hinit|].
  destruct (init_loops_caches _ _ _ _ _ _ _ Hinit) as [Hids Hcached].
  split; [exact Hids|].
  intros id Hid; apply Hcached; rewrite Hids; exact Hid.
Qed.

Lemma init_loops_total_witness :
  exists self' g',
    init_loops taps0 imread0 render_depth0 (dataset0 (Some 3%Z)) rng0 = Ok (self', g') /\
    cached self' "r_0".
Proof.
  destruct (init_loops_total taps0 imread0 render_depth0 (dataset0 (Some 3%Z)) rng0)
    as [self' [g' [Hinit [_ Hc]]]].
  - intros id Hid; apply list_elem_of_singleton in Hid as ->.
    exists "r_0.png"%string, image0, pose0, I3.
    repeat split; try reflexivity; exact det3_I3.
  - intros l [= <-]; reflexivity.
  - exists self', g'; split; [exact Hinit|apply Hc; left].
Defined.

(** * The profile and the camera files *)

(** ** Strings *)

Lemma append_cons (c : ascii) (a b : string) :
  (String c a +:+ b)%string = String c (a +:+ b).
Proof. reflexivity. Qed.

Lemma append_nil_l (b : string) : (EmptyString +:+ b)%string = b.
Proof. reflexivity. Qed.

Lemma append_nil_r (s : string) : (s +:+ EmptyString)%string = s.
Proof.
  induction s as [|c s IH]; [reflexivity|]; rewrite append_cons, IH; reflexivity.
Qed.

Lemma append_assoc (a b c : string) :
  ((a +:+ b) +:+ c)%string = (a +:+ (b +:+ c))%string.
Proof.
  induction a as [|x a IH]; [reflexivity|]; rewrite !append_cons, IH; reflexivity.
Qed.

Lemma no_space_append (a b : string) :
  no_space a -> no_space b -> no_space (a +:+ b).
Proof.
  unfold no_space; induction a as [|c a IH]; intros Ha Hb; [exact Hb|].
  rewrite append_cons; simpl in *; inversion Ha; subst; constructor; auto.
Qed.

(** The tokens of [split] hold no white space and are not empty. *)
Lemma split_from_tokens (s : string) :
  forall cur, no_space cur ->
    Forall (fun tok => no_space tok /\ tok <> EmptyString) (split_from cur s).
Proof.
  induction s as [|c s IH]; intros cur Hcur; simpl.
  - destruct (decide (cur = EmptyString)); repeat constructor; assumption.
  - destruct (is_space c) eqn:Hc.
    + destruct (decide (cur = EmptyString)).
      * apply IH; constructor.
      * constructor; [split; assumption|apply IH; constructor].
    + apply IH, no_space_append; [exact Hcur|].
      repeat constructor; exact Hc.
Qed.

Lemma lstrip_no_space (s : string) : no_space s -> lstrip s = s.
Proof.
  destruct s as [|c s]; [reflexivity|]; intros Hs; inversion Hs; subst; simpl.
  replace (is_space c) with false by auto; reflexivity.
Qed.

Lemma rstrip_no_space (s : string) : no_space s -> rstrip s = s.
Proof.
  induction s as [|c s IH]; [reflexivity|]; intros Hs; inversion Hs; subst; simpl.
  rewrite IH by assumption.
  destruct s; [|reflexivity].
  replace (is_space c) with false by auto; reflexivity.
Qed.

Lemma strip_no_space (s : string) : no_space s -> strip s = s.
Proof.
  intros Hs; unfold strip; rewrite lstrip_no_space by exact Hs.
  apply rstrip_no_space; exact Hs.
Qed.

(** [rstrip] leaves alone what ends with a text it leaves alone. *)
Lemma rstrip_append (a b : string) :
  b <> EmptyString -> rstrip b = b -> rstrip (a +:+ b) = (a +:+ b)%string.
Proof.
  intros Hne Hb; induction a as [|c a IH]; [exact Hb|].
  rewrite append_cons; simpl; rewrite IH.
  destruct (a +:+ b)%string eqn:E; [|reflexivity].
  destruct a; [contradiction|rewrite append_cons in E; discriminate].
Qed.

Lemma lstrip_idem (s : string) : lstrip (lstrip s) = lstrip s.
Proof.
  induction s as [|c s IH]; [reflexivity|]; simpl.
  destruct (is_space c) eqn:Hc; [exact IH|]; simpl; rewrite Hc; reflexivity.
Qed.

Lemma split_on_no_sep (sep : ascii) (v : string) :
  Forall (fun c => Ascii.eqb c sep = false) (list_ascii_of_string v) ->
  forall cur rest,
    split_on sep cur (v +:+ String sep rest)
    = (cur +:+ v)%string :: split_on sep EmptyString rest.
Proof.
  induction v as [|c v IH]; intros Hv cur rest.
  - rewrite append_nil_l, append_nil_r; simpl; rewrite Ascii.eqb_refl; reflexivity.
  - rewrite append_cons; simpl in *.
    inversion Hv as [|? ? Hc Hv']; subst; rewrite Hc, IH by exact Hv'.
    rewrite append_assoc; reflexivity.
Qed.

Lemma split_on_no_sep_end (sep : ascii) (v : string) :
  Forall (fun c => Ascii.eqb c sep = false) (list_ascii_of_string v) ->
  forall cur, split_on sep cur v = [(cur +:+ v)%string].
Proof.
  induction v as [|c v IH]; intros Hv cur.
  - rewrite append_nil_r; reflexivity.
  - simpl in *.
    inversion Hv as [|? ? Hc Hv']; subst; rewrite Hc, IH by exact Hv'.
    rewrite append_assoc; reflexivity.
Qed.

Lemma rstrip_all_space (w : string) : all_space w -> rstrip w = EmptyString.
Proof.
  unfold all_space; induction w as [|c w IH]; [reflexivity|]; simpl; intros Hw.
  inversion Hw as [|? ? Hc Hw']; subst; rewrite IH by exact Hw'; rewrite Hc; reflexivity.
Qed.

Lemma rstrip_append_space (s w : string) :
  all_space w -> rstrip (s +:+ w) = rstrip s.
Proof.
  intros Hw; induction s as [|c s IH]; [apply rstrip_all_space; exact Hw|].
  rewrite append_cons; simpl; rewrite IH; reflexivity.
Qed.

(** ** The profile *)

Lemma parse_profile_app (fp1 fp2 : list string) :
  forall p, parse_profile (fp1 ++ fp2) p
            = bind (parse_profile fp1 p) (parse_profile fp2).
Proof.
  induction fp1 as [|line fp1 IH]; intros p; [reflexivity|]; simpl.
  destruct (decide (strip line = EmptyString)); [apply IH|].
  destruct (list_get _ 0) as [key|]; simpl; [|reflexivity].
  repeat (destruct (decide _);
          [destruct (list_get _ 1); simpl; [apply IH|reflexivity]|]).
  apply IH.
Qed.

Lemma strip_profile_line (key a : string) :
  (exists c k, key = String c k /\ is_space c = false) -> clean_path a ->
  strip (key +:+ ": " +:+ a +:+ newline) = (key +:+ ": " +:+ a)%string.
Proof.
  intros (c & k & -> & Hc) (Hne & _ & Hr & _); unfold strip.
  rewrite append_cons; simpl lstrip; rewrite Hc, <- append_cons.
  replace (String c k +:+ ": " +:+ a +:+ newline)%string
    with ((String c k +:+ ": " +:+ a) +:+ newline)%string
    by (rewrite !append_assoc; reflexivity).
  rewrite rstrip_append_space by (repeat constructor).
  rewrite <- append_assoc; apply rstrip_append; assumption.
Qed.

Lemma split_profile_line (key a : string) :
  no_colon key -> no_colon a ->
  split_on ":" EmptyString (key +:+ ": " +:+ a) = [key; (" " +:+ a)%string].
Proof.
  intros Hk Ha.
  change (key +:+ ": " +:+ a)%string with (key +:+ String ":" (" " +:+ a))%string.
  rewrite (split_on_no_sep ":" key Hk), append_nil_l; f_equal.
  rewrite split_on_no_sep_end, append_nil_l; [reflexivity|].
  rewrite append_cons; constructor; [reflexivity|exact Ha].
Qed.

Lemma strip_value (a : string) : clean_path a -> strip (" " +:+ a) = a.
Proof.
  intros (_ & Hl & Hr & _); unfold strip.
  rewrite append_cons, append_nil_l; simpl; rewrite Hl; exact Hr.
Qed.

(** What a well-formed line of the profile leaves for the loop to see. *)
Lemma profile_line_parts (key x : string) :
  (exists c k, key = String c k /\ is_space c = false) ->
  no_colon key -> clean_path x ->
  strip (key +:+ ": " +:+ x +:+ newline) <> EmptyString /\
  split_on ":" EmptyString (strip (key +:+ ": " +:+ x +:+ newline))
  = [key; (" " +:+ x)%string].
Proof.
  intros Hkey Hk Hx.
  rewrite (strip_profile_line key x Hkey Hx).
  split; [|apply split_profile_line; [exact Hk|apply Hx]].
  destruct Hkey as (c0 & k & -> & _); rewrite append_cons; discriminate.
Qed.

Ltac profile_line key x Hx :=
  cbn [parse_profile];
  let Hne := fresh "Hne" in
  let Hparts := fresh "Hparts" in
  destruct (profile_line_parts key x) as [Hne Hparts];
  [ eexists _, _; split; reflexivity
  | repeat constructor
  | exact Hx
  | rewrite Hparts;
    destruct (decide (strip (key +:+ ": " +:+ x +:+ newline) = EmptyString));
    [contradiction|];
    unfold list_get; cbn [lookup list_lookup bind];
    repeat (match goal with
            | |- context [decide (?l = ?r)] =>
                destruct (decide (l = r)) as [?|?]; try discriminate; try congruence
            end);
    rewrite (strip_value x Hx) ].

Lemma parse_profile_pose (x : string) (fp : list string) (p : profile) :
  clean_path x ->
  parse_profile (("camera_pose" +:+ ": " +:+ x +:+ newline)%string :: fp) p
  = parse_profile fp (Profile (Some x) (intrinsic_file p) (list_file p)).
Proof. intros Hx; profile_line "camera_pose"%string x Hx; reflexivity. Qed.

Lemma parse_profile_intrinsic (x : string) (fp : list string) (p : profile) :
  clean_path x ->
  parse_profile (("camera_intrinsic" +:+ ": " +:+ x +:+ newline)%string :: fp) p
  = parse_profile fp (Profile (extrinsic_file p) (Some x) (list_file p)).
Proof. intros Hx; profile_line "camera_intrinsic"%string x Hx; reflexivity. Qed.

Lemma parse_profile_list (x : string) (fp : list string) (p : profile) :
  clean_path x ->
  parse_profile (("image_list" +:+ ": " +:+ x +:+ newline)%string :: fp) p
  = parse_profile fp (Profile (extrinsic_file p) (intrinsic_file p) (Some x)).
Proof. intros Hx; profile_line "image_list"%string x Hx; reflexivity. Qed.

(** X6 — A profile written as the three lines [camera_pose: a],
    [camera_intrinsic: b], [image_list: c] is read back as exactly the
    paths [a], [b], [c], for paths that are not empty and have neither
    surrounding white space nor a colon. *)
Theorem profile_round_trip (a b c : string) :
  clean_path a -> clean_path b -> clean_path c ->
  parse_profile (profile_text a b c) (Profile None None None)
  = Ok (Profile (Some a) (Some b) (Some c)).
Proof.
  intros Ha Hb Hc; unfold profile_text.
  rewrite (parse_profile_pose a _ _ Ha), (parse_profile_intrinsic b _ _ Hb),
    (parse_profile_list c _ _ Hc).
  reflexivity.
Qed.

Lemma clean_path_poses : clean_path "poses.txt".
Proof. repeat split; try discriminate; repeat constructor. Qed.

Lemma profile_round_trip_witness :
  parse_profile (profile_text "poses.txt" "poses.txt" "poses.txt") (Profile None None None)
  = Ok (Profile (Some "poses.txt"%string) (Some "poses.txt"%string)
                (Some "poses.txt"%string)).
Proof.
  apply (profile_round_trip "poses.txt" "poses.txt" "poses.txt");
    exact clean_path_poses.
Defined.

(** X7 — A line that consists of a recognised key alone, without a
    colon, aborts the reading of the profile with [IndexError], whatever
    the lines before it assigned and whatever follows. *)
Theorem profile_key_without_colon (fp1 fp2 : list string) (line : string)
    (p p1 : profile) :
  parse_profile fp1 p = Ok p1 ->
  profile_key (strip line) ->
  parse_profile (fp1 ++ line :: fp2) p = Err IndexError.
Proof.
  intros H1 Hkey; rewrite parse_profile_app, H1; cbn [bind parse_profile].
  destruct Hkey as [Hk|[Hk|Hk]]; rewrite Hk; reflexivity.
Qed.

Lemma profile_key_without_colon_witness :
  parse_profile (profile_text "poses.txt" "poses.txt" "poses.txt" ++ ["image_list"%string])
                (Profile None None None)
  = Err IndexError.
Proof.
  apply (profile_key_without_colon _ [] "image_list" (Profile None None None)
           (Profile (Some "poses.txt"%string) (Some "poses.txt"%string)
                    (Some "poses.txt"%string))).
  - unfold profile_text.
    rewrite (parse_profile_pose _ _ _ clean_path_poses),
      (parse_profile_intrinsic _ _ _ clean_path_poses),
      (parse_profile_list _ _ _ clean_path_poses).
    reflexivity.
  - right; right; reflexivity.
Defined.

(** X8 — The value of a key ends at the next colon: from a line
    [key:v:w] the loop keeps [v], stripped, and drops [w]; a path that
    contains a colon is cut there. *)
Theorem profile_value_cut_at_colon (line key v w : string) (fp : list string)
    (p : profile) :
  profile_key key -> no_colon v ->
  strip line = (key +:+ ":" +:+ v +:+ ":" +:+ w)%string ->
  parse_profile (line :: fp) p = parse_profile fp (assign_key key (strip v) p).
Proof.
  intros Hkey Hv Hline; cbn [parse_profile]; rewrite Hline.
  assert (Hsplit : exists more,
             split_on ":" EmptyString (key +:+ ":" +:+ v +:+ ":" +:+ w)
             = key :: v :: more).
  { change (key +:+ ":" +:+ v +:+ ":" +:+ w)%string
      with (key +:+ String ":" (v +:+ String ":" w))%string.
    assert (Hk : no_colon key)
      by (destruct Hkey as [-> | [-> | ->]]; repeat constructor).
    rewrite (split_on_no_sep ":" key Hk), (split_on_no_sep ":" v Hv), !append_nil_l.
    eauto. }
  destruct Hsplit as [more ->].
  assert (Hne : (key +:+ ":" +:+ v +:+ ":" +:+ w)%string <> EmptyString)
    by (destruct Hkey as [-> | [-> | ->]]; discriminate).
  destruct (decide (_ = EmptyString)); [contradiction|].
  unfold list_get, assign_key; cbn [lookup list_lookup bind].
  destruct Hkey as [-> | [-> | ->]];
    repeat (match goal with
            | |- context [decide (?l = ?r)] =>
                destruct (decide (l = r)) as [?|?]; try discriminate; try congruence
            end).
Qed.

Lemma profile_value_cut_at_colon_witness :
  parse_profile ["camera_pose: C:/data/poses.txt"%string] (Profile None None None)
  = Ok (Profile (Some "C"%string) None None).
Proof.
  rewrite (profile_value_cut_at_colon "camera_pose: C:/data/poses.txt"
             "camera_pose" " C" "/data/poses.txt" [] (Profile None None None)).
  - reflexivity.
  - left; reflexivity.
  - repeat constructor.
  - reflexivity.
Defined.

(** ** The image list *)

Lemma scan_list_skip (id : string) (before : list string) :
  Forall (other_entry id) before ->
  forall rest old, scan_list (before ++ rest) id old = scan_list rest id old.
Proof.
  induction 1 as [|line before (tok & toks & Hs & Hne) _ IH]; intros rest old;
    [reflexivity|].
  cbn [app scan_list]; rewrite Hs; unfold list_get; cbn [lookup list_lookup bind].
  destruct (decide (tok = id)); [contradiction|apply IH].
Qed.

Lemma scan_list_missing (id : string) (f : list string) (old : option string) :
  Forall (other_entry id) f -> scan_list f id old = Ok old.
Proof.
  intros Hf; rewrite <- (app_nil_r f), (scan_list_skip id f Hf); reflexivity.
Qed.

(** X9 — The scan of the image list stops at the first line whose first
    token is the identifier and binds the second token of that line; it
    raises [IndexError] on a blank line, or on a line that holds the
    identifier alone, met before; and it leaves the variable as it was,
    without any error, when no line names the identifier. *)
Theorem scan_list_first_match (id line : string) (before after : list string)
    (old : option string) :
  Forall (other_entry id) before ->
  (forall v more, split (strip line) = id :: v :: more ->
     scan_list (before ++ line :: after) id old = Ok (Some v)) /\
  (split (strip line) = [] \/ split (strip line) = [id] ->
   scan_list (before ++ line :: after) id old = Err IndexError) /\
  scan_list before id old = Ok old.
Proof.
  intros Hbefore; split; [|split].
  - intros v more Hs; rewrite (scan_list_skip id before Hbefore).
    cbn [scan_list]; rewrite Hs; unfold list_get; cbn [lookup list_lookup bind].
    destruct (decide (id = id)); [|contradiction].
    pose proof (split_from_tokens (strip line) EmptyString ltac:(constructor)) as Htok.
    fold (split (strip line)) in Htok; rewrite Hs in Htok.
    inversion Htok as [|? ? _ Htl]; inversion Htl as [|? ? [Hv _] _]; subst.
    rewrite (strip_no_space v Hv); reflexivity.
  - intros Hs; rewrite (scan_list_skip id before Hbefore); cbn [scan_list].
    destruct Hs as [-> | ->]; unfold list_get; cbn [lookup list_lookup bind];
      [reflexivity|].
    destruct (decide (id = id)); [reflexivity|contradiction].
  - apply scan_list_missing; exact Hbefore.
Qed.

Lemma scan_list_first_match_witness :
  scan_list ["r_0 a.png"; ""; "r_1 b.png"]%string "r_0" None = Ok (Some "a.png"%string) /\
  scan_list ["r_0 a.png"; ""; "r_1 b.png"]%string "r_1" None = Err IndexError /\
  scan_list ["r_0 a.png"]%string "r_1" (Some "a.png"%string) = Ok (Some "a.png"%string).
Proof.
  assert (H0 : Forall (other_entry "r_1") ["r_0 a.png"%string]).
  { constructor; [|constructor].
    exists "r_0"%string, ["a.png"%string]; split; [vm_compute; reflexivity|discriminate]. }
  split; [|split].
  - apply (proj1 (scan_list_first_match "r_0" "r_0 a.png" [] [""; "r_1 b.png"]%string
                    None (List.Forall_nil _)) "a.png"%string []).
    vm_compute; reflexivity.
  - apply (proj1 (proj2 (scan_list_first_match "r_1" "" ["r_0 a.png"%string]
                           ["r_1 b.png"%string] None H0))).
    left; vm_compute; reflexivity.
  - apply (proj2 (proj2 (scan_list_first_match "r_1" "" ["r_0 a.png"%string] []
                           (Some "a.png"%string) H0))).
Defined.

(** ** Intrinsic matrices *)

Lemma vscale_1 (a : vec3) : vscale 1 a = a.
Proof. destruct a; unfold vscale; simpl; f_equal; ring. Qed.

Lemma parse_intrinsic_inv (float : string -> result R) (Ws Hs : R) (s : string)
    (K : mat3) :
  parse_intrinsic float Ws Hs s = Ok K ->
  exists K0,
    parse_intrinsic float 1 1 s = Ok K0 /\
    K = M3 (vscale Ws (r0 K0)) (vscale Hs (r1 K0)) (r2 K0).
Proof.
  unfold parse_intrinsic; intros HK.
  destruct (fill float (split s) (replicate 9 0) (seq 0 9)) as [M|]; simpl in *;
    [|discriminate].
  destruct (reshape33 M) as [K0|]; simpl in *; [|discriminate].
  exists K0; rewrite !vscale_1; split; [destruct K0; reflexivity|congruence].
Qed.

Lemma mvmul_rescaled (Ws Hs : R) (K0 : mat3) (p : vec3) :
  mvmul (M3 (vscale Ws (r0 K0)) (vscale Hs (r1 K0)) (r2 K0)) p
  = V3 (Ws * vx (mvmul K0 p)) (Hs * vy (mvmul K0 p)) (vz (mvmul K0 p)).
Proof.
  destruct p as [x y z]; destruct K0 as [[] [] []].
  unfold mvmul, vscale, vdot; simpl; f_equal; ring.
Qed.

(** X10 — The intrinsic matrix cached under a target size is the parsed
    matrix with row 0 multiplied by [W_scale] and row 1 by [H_scale]: a
    point projects to [W_scale] times its native column coordinate and
    [H_scale] times its native row coordinate with the same homogeneous
    weight, and the determinant is multiplied by [W_scale * H_scale]. *)
Theorem intrinsic_rescaled (float : string -> result R) (Ws Hs : R) (s : string)
    (K : mat3) :
  parse_intrinsic float Ws Hs s = Ok K ->
  exists K0,
    parse_intrinsic float 1 1 s = Ok K0 /\
    det3 K = Ws * Hs * det3 K0 /\
    forall p, mvmul K p
              = V3 (Ws * vx (mvmul K0 p)) (Hs * vy (mvmul K0 p)) (vz (mvmul K0 p)).
Proof.
  intros HK; destruct (parse_intrinsic_inv float Ws Hs s K HK) as [K0 [H0 ->]].
  exists K0; split; [exact H0|split].
  - destruct K0 as [[] [] []]; unfold det3, vscale; simpl; ring.
  - intros p; apply mvmul_rescaled.
Qed.

Lemma intrinsic_rescaled_witness :
  exists K0,
    parse_intrinsic float_of_digits 2 3 "1 0 0 0 1 0 0 0 1" = Ok
      (M3 (vscale 2 (V3 (INR 1) (INR 0) (INR 0))) (vscale 3 (V3 (INR 0) (INR 1) (INR 0)))
          (V3 (INR 0) (INR 0) (INR 1))) /\
    parse_intrinsic float_of_digits 1 1 "1 0 0 0 1 0 0 0 1" = Ok K0.
Proof.
  assert (HK : parse_intrinsic float_of_digits 2 3 "1 0 0 0 1 0 0 0 1"
               = Ok (M3 (vscale 2 (V3 (INR 1) (INR 0) (INR 0)))
                        (vscale 3 (V3 (INR 0) (INR 1) (INR 0)))
                        (V3 (INR 0) (INR 0) (INR 1)))) by reflexivity.
  destruct (intrinsic_rescaled float_of_digits 2 3 _ _ HK) as [K0 [H0 _]].
  exists K0; split; [exact HK|exact H0].
Defined.

(** X11 — With a target size [(h, w)] the scales are the ratios of the
    target to the probed image, so that a projected point keeps its
    relative position in the resized image; without a target size the
    scales are 1 and the size is that of the probed image. *)
Theorem resize_keeps_relative_position (float : string -> result R)
    (dsize : option (nat * nat)) (I : image) (t : target) (s : string) (K K0 : mat3) :
  probe dsize I = Ok t ->
  parse_intrinsic float (W_scale t) (H_scale t) s = Ok K ->
  parse_intrinsic float 1 1 s = Ok K0 ->
  match dsize with
  | None => tH t = ih I /\ tW t = iw I /\ K = K0
  | Some (h, w) =>
      tH t = h /\ tW t = w /\
      forall p,
        vx (mvmul K p) * INR (iw I) = vx (mvmul K0 p) * INR w /\
        vy (mvmul K p) * INR (ih I) = vy (mvmul K0 p) * INR h /\
        vz (mvmul K p) = vz (mvmul K0 p)
  end.
Proof.
  intros Hprobe HK HK0.
  destruct (parse_intrinsic_inv float _ _ s K HK) as [K0' [H0' HKeq]].
  assert (K0' = K0) by congruence; subst K0'.
  assert (Hp : forall p, mvmul K p
                 = V3 (W_scale t * vx (mvmul K0 p)) (H_scale t * vy (mvmul K0 p))
                      (vz (mvmul K0 p)))
    by (intros p; rewrite HKeq; apply mvmul_rescaled).
  destruct dsize as [[h w]|]; simpl in Hprobe.
  - destruct (Nat.eqb_spec (ih I) 0) as [|Hh]; [discriminate|].
    destruct (Nat.eqb_spec (iw I) 0) as [|Hw]; [discriminate|].
    injection Hprobe as <-; cbn [tH tW W_scale H_scale] in *.
    split; [reflexivity|split; [reflexivity|]].
    intros p; rewrite Hp; cbn [vx vy vz].
    assert (INR (ih I) <> 0) by (apply not_0_INR; exact Hh).
    assert (INR (iw I) <> 0) by (apply not_0_INR; exact Hw).
    repeat split; field; assumption.
  - injection Hprobe as <-; cbn [tH tW W_scale H_scale] in *.
    split; [reflexivity|split; [reflexivity|congruence]].
Qed.

Lemma resize_keeps_relative_position_witness :
    vx (mvmul (M3 (vscale (INR 4 / INR 2) (V3 (INR 1) (INR 0) (INR 0)))
                  (vscale (INR 2 / INR 1) (V3 (INR 0) (INR 1) (INR 0)))
                  (V3 (INR 0) (INR 0) (INR 1))) (V3 3 5 1)) * INR 2
    = vx (mvmul (M3 (V3 (INR 1) (INR 0) (INR 0)) (V3 (INR 0) (INR 1) (INR 0))
                    (V3 (INR 0) (INR 0) (INR 1))) (V3 3 5 1)) * INR 4.
Proof.
  assert (HK0 : parse_intrinsic float_of_digits 1 1 "1 0 0 0 1 0 0 0 1"
                = Ok (M3 (V3 (INR 1) (INR 0) (INR 0)) (V3 (INR 0) (INR 1) (INR 0))
                         (V3 (INR 0) (INR 0) (INR 1)))).
  { transitivity (Ok (M3 (vscale 1 (V3 (INR 1) (INR 0) (INR 0)))
                         (vscale 1 (V3 (INR 0) (INR 1) (INR 0)))
                         (V3 (INR 0) (INR 0) (INR 1)))); [reflexivity|].
    rewrite !vscale_1; reflexivity. }
  pose proof (resize_keeps_relative_position float_of_digits (Some (2, 4)%nat) image0
                (Target 2 4 (INR 2 / INR 1) (INR 4 / INR 2)) "1 0 0 0 1 0 0 0 1"
                _ _ eq_refl eq_refl HK0) as [_ [_ Hp]].
  exact (proj1 (Hp (V3 3 5 1))).
Defined.

(** ** The loop over the identifiers *)

Lemma scan_camera_skip (id : string) (before : list string) :
  Forall (other_camera id) before ->
  forall rest old, scan_camera (before ++ rest) id old = scan_camera rest id old.
Proof.
  induction 1 as [|line before (tok & toks & Hs & Hne) _ IH]; intros rest old;
    [reflexivity|].
  cbn [app scan_camera]; rewrite Hs; unfold list_get; cbn [lookup list_lookup bind].
  destruct (decide (tok = id)); [contradiction|apply IH].
Qed.

Lemma scan_camera_missing (id : string) (f : list string)
    (old : option (string + list string)) :
  Forall (other_camera id) f -> scan_camera f id old = Ok old.
Proof.
  intros Hf; rewrite <- (app_nil_r f), (scan_camera_skip id f Hf); reflexivity.
Qed.

Section CameraFacts.

Variable datadir : string.
Variable join : string -> string -> string.
Variable files : string -> option (list string).
Variable exists_ : string -> bool.
Variable imread : string -> result image.
Variable float : string -> result R.

Local Abbreviation step := (camera_step datadir join files exists_ imread float).
Local Abbreviation cameras := (load_cameras datadir join files exists_ imread float).

(** Everything a successful iteration went through. *)
Lemma camera_step_inv (prof : profile) (dsize : option (nat * nat))
    (st st' : loader) (id : string) :
  step prof dsize st id = Done st' ->
  exists lf flist ef fext kf fint image_file ext_s int_s M tgt K,
    list_file prof = Some lf /\ files (join datadir lf) = Some flist /\
    scan_list flist id (v_image_file st) = Ok (Some image_file) /\
    extrinsic_file prof = Some ef /\ files (join datadir ef) = Some fext /\
    scan_camera fext id (v_extrinsic st) = Ok (Some (inl ext_s)) /\
    intrinsic_file prof = Some kf /\ files (join datadir kf) = Some fint /\
    scan_camera fint id (v_intrinsic st) = Ok (Some (inl int_s)) /\
    exists_ (join datadir image_file) = true /\
    parse_pose float ext_s = Ok M /\
    (c_target st = Some tgt \/
     (c_target st = None /\
      exists I, imread (join datadir image_file) = Ok I /\ probe dsize I = Ok tgt)) /\
    parse_intrinsic float (W_scale tgt) (H_scale tgt) int_s = Ok K /\
    st' = Loader (<[id := join datadir image_file]> (c_images st))
                 (<[id := M]> (c_poses st)) (<[id := K]> (c_Ks st))
                 (Some tgt) (Some image_file)
                 (Some (inr (split ext_s))) (Some (inr (split int_s))).
Proof.
  unfold camera_step, open_; intros H.
  destruct (list_file prof) as [lf|] eqn:E1; cbn [and_then] in H; [|discriminate].
  destruct (files (join datadir lf)) as [flist|] eqn:E2; cbn [and_then] in H;
    [|discriminate].
  destruct (scan_list flist id (v_image_file st)) as [imf|] eqn:E3;
    cbn [and_then lift] in H; [|discriminate].
  destruct (extrinsic_file prof) as [ef|] eqn:E4; cbn [and_then] in H; [|discriminate].
  destruct (files (join datadir ef)) as [fext|] eqn:E5; cbn [and_then] in H;
    [|discriminate].
  destruct (scan_camera fext id (v_extrinsic st)) as [ext|] eqn:E6;
    cbn [and_then lift] in H; [|discriminate].
  destruct (intrinsic_file prof) as [kf|] eqn:E7; cbn [and_then] in H; [|discriminate].
  destruct (files (join datadir kf)) as [fint|] eqn:E8; cbn [and_then] in H;
    [|discriminate].
  destruct (scan_camera fint id (v_intrinsic st)) as [int|] eqn:E9;
    cbn [and_then lift] in H; [|discriminate].
  destruct imf as [image_file|]; cbn [and_then bound] in H; [|discriminate].
  destruct (exists_ (join datadir image_file)) eqn:E10; cbn [negb] in H; [|discriminate].
  destruct ext as [[ext_s|toks]|]; cbn [and_then as_text] in H; try discriminate.
  destruct (parse_pose float ext_s) as [M|] eqn:E11; cbn [and_then lift] in H;
    [|discriminate].
  assert (Htgt : exists tgt,
             (c_target st = Some tgt \/
              (c_target st = None /\
               exists I, imread (join datadir image_file) = Ok I /\
                         probe dsize I = Ok tgt)) /\
             (intrinsic <~ as_text int ;;
              K <~ lift (parse_intrinsic float (W_scale tgt) (H_scale tgt) intrinsic) ;;
              Done (Loader (<[id := join datadir image_file]> (c_images st))
                           (<[id := M]> (c_poses st)) (<[id := K]> (c_Ks st))
                           (Some tgt) (Some image_file)
                           (Some (inr (split ext_s))) (Some (inr (split intrinsic)))))
             = Done st').
  { destruct (c_target st) as [t0|]; cbn [and_then] in H.
    - exists t0; split; [left; reflexivity|exact H].
    - destruct (imread (join datadir image_file)) as [I|] eqn:E12;
        cbn [and_then lift] in H; [|discriminate].
      destruct (probe dsize I) as [tgt|] eqn:E13; cbn [and_then lift] in H;
        [|discriminate].
      exists tgt; split; [right; split; [reflexivity|eauto]|exact H]. }
  destruct Htgt as [tgt [Htgt H']]; clear H.
  destruct int as [[int_s|toks]|]; cbn [and_then as_text] in H'; try discriminate.
  destruct (parse_intrinsic float (W_scale tgt) (H_scale tgt) int_s) as [K|] eqn:E14;
    cbn [and_then lift] in H'; [|discriminate].
  injection H' as <-.
  exists lf, flist, ef, fext, kf, fint, image_file, ext_s, int_s, M, tgt, K.
  repeat split; assumption || reflexivity.
Qed.

Lemma camera_step_keeps (prof : profile) (dsize : option (nat * nat))
    (st st' : loader) (id : string) :
  step prof dsize st id = Done st' ->
  has_camera exists_ st' id /\
  (forall id', has_camera exists_ st id' -> has_camera exists_ st' id') /\
  is_Some (c_target st') /\
  (forall t, c_target st = Some t -> c_target st' = Some t) /\
  not_text (v_extrinsic st') /\ not_text (v_intrinsic st').
Proof.
  intros Hstep.
  destruct (camera_step_inv _ _ _ _ _ Hstep)
    as (lf & flist & ef & fext & kf & fint & imf & ext_s & int_s & M & tgt & K &
        _ & _ & _ & _ & _ & _ & _ & _ & _ & Hex & _ & Htgt & _ & ->).
  assert (Hnew : has_camera exists_
                   (Loader (<[id := join datadir imf]> (c_images st))
                           (<[id := M]> (c_poses st)) (<[id := K]> (c_Ks st))
                           (Some tgt) (Some imf)
                           (Some (inr (split ext_s))) (Some (inr (split int_s)))) id).
  { unfold has_camera; cbn [c_images c_poses c_Ks]; rewrite !lookup_insert_eq.
    split; [eauto|split; eauto]. }
  split; [exact Hnew|split; [|split; [|split; [|split]]]].
  - intros id' Hid'; destruct (decide (id' = id)) as [->|Hne]; [exact Hnew|].
    unfold has_camera in *; cbn [c_images c_poses c_Ks].
    rewrite !lookup_insert_ne by congruence; exact Hid'.
  - cbn [c_target]; eauto.
  - intros t Ht; cbn [c_target]; destruct Htgt as [Hs|[Hn _]]; congruence.
  - intros s; cbn [v_extrinsic]; discriminate.
  - intros s; cbn [v_intrinsic]; discriminate.
Qed.

Lemma load_cameras_keeps (prof : profile) (dsize : option (nat * nat))
    (ids : list string) :
  forall st st' : loader,
    cameras prof dsize st ids = Done st' ->
    (forall id, id ∈ ids -> has_camera exists_ st' id) /\
    (forall id, has_camera exists_ st id -> has_camera exists_ st' id) /\
    (forall t, c_target st = Some t -> c_target st' = Some t).
Proof.
  induction ids as [|id0 ids IH]; intros st st' Hload; cbn [load_cameras] in Hload.
  - injection Hload as <-; split; [|split]; auto.
    intros id Hin; inversion Hin.
  - destruct (step prof dsize st id0) as [st1|] eqn:Hstep; cbn [and_then] in Hload;
      [|discriminate].
    destruct (camera_step_keeps _ _ _ _ _ Hstep) as (Hnew & Hkeep & _ & Htgt & _).
    destruct (IH _ _ Hload) as (Hin & Hkeep' & Htgt'); clear IH.
    split; [|split].
    + intros id Hid; apply elem_of_cons in Hid as [-> | Hid]; [apply Hkeep', Hnew|].
      apply Hin; exact Hid.
    + intros id Hid; apply Hkeep', Hkeep, Hid.
    + intros t Ht; apply Htgt', Htgt, Ht.
Qed.

(** X12 — When the first loop of [__init__] ends without exception,
    every identifier has an image path that exists on disk, a pose and
    an intrinsic matrix; the target size is the one fixed while the first
    identifier was handled and is never probed again. *)
Theorem cameras_complete (prof : profile) (dsize : option (nat * nat))
    (ids : list string) :
  forall st st' : loader,
    cameras prof dsize st ids = Done st' ->
    (forall id, id ∈ ids -> has_camera exists_ st' id) /\
    (forall id, has_camera exists_ st id -> has_camera exists_ st' id) /\
    (forall t, c_target st = Some t -> c_target st' = Some t) /\
    (forall id0 rest, ids = id0 :: rest ->
       exists st1, step prof dsize st id0 = Done st1 /\
                   is_Some (c_target st1) /\ c_target st' = c_target st1).
Proof.
  intros st st' Hload.
  destruct (load_cameras_keeps prof dsize ids st st' Hload) as (Hin & Hkeep & Htgt).
  split; [exact Hin|split; [exact Hkeep|split; [exact Htgt|]]].
  intros id0 rest ->; cbn [load_cameras] in Hload.
  destruct (step prof dsize st id0) as [st1|] eqn:Hstep; cbn [and_then] in Hload;
    [|discriminate].
  destruct (camera_step_keeps _ _ _ _ _ Hstep) as (_ & _ & Hsome & _).
  exists st1; split; [reflexivity|split; [exact Hsome|]].
  destruct Hsome as [t Ht]; rewrite Ht.
  apply (load_cameras_keeps prof dsize rest st1 st' Hload); exact Ht.
Qed.

(** X13 — An identifier that no line of the pose file, or of the
    intrinsic file, names always aborts the first loop: the stale tokens
    of the previous identifier are a list, on which [.split()] raises,
    and for the first identifier the variable is unbound. *)
Theorem missing_camera_aborts (prof : profile) (dsize : option (nat * nat))
    (id name : string) (f : list string) (ids : list string) :
  id ∈ ids ->
  extrinsic_file prof = Some name \/ intrinsic_file prof = Some name ->
  files (join datadir name) = Some f ->
  Forall (other_camera id) f ->
  forall st, not_text (v_extrinsic st) -> not_text (v_intrinsic st) ->
    exists e, cameras prof dsize st ids = Failed e.
Proof.
  intros Hid Hname Hf Hother.
  induction ids as [|id0 ids IH]; intros st Hx Hk; [inversion Hid|].
  cbn [load_cameras].
  destruct (step prof dsize st id0) as [st1|e] eqn:Hstep; cbn [and_then]; [|eauto].
  destruct (camera_step_keeps _ _ _ _ _ Hstep) as (_ & _ & _ & _ & Hx1 & Hk1).
  destruct (decide (id0 = id)) as [->|Hne].
  - exfalso.
    destruct (camera_step_inv _ _ _ _ _ Hstep)
      as (lf & flist & ef & fext & kf & fint & imf & ext_s & int_s & M & tgt & K &
          _ & _ & _ & He & Hfe & Hse & Hi & Hfi & Hsi & _).
    destruct Hname as [Hn|Hn].
    + assert (fext = f) by congruence; subst fext.
      rewrite (scan_camera_missing id f _ Hother) in Hse.
      injection Hse as Hse; exact (Hx _ Hse).
    + assert (fint = f) by congruence; subst fint.
      rewrite (scan_camera_missing id f _ Hother) in Hsi.
      injection Hsi as Hsi; exact (Hk _ Hsi).
  - apply IH; [|exact Hx1|exact Hk1].
    apply elem_of_cons in Hid as [?|?]; [congruence|assumption].
Qed.

(** X14 — An identifier that no line of the image list names does not
    abort the loop: when its iteration succeeds, the path stored for it is
    the image of the identifier handled before. *)
Theorem stale_image_path (prof : profile) (dsize : option (nat * nat))
    (st st' : loader) (id lf : string) (flist : list string) :
  step prof dsize st id = Done st' ->
  list_file prof = Some lf ->
  files (join datadir lf) = Some flist ->
  Forall (other_entry id) flist ->
  exists prev,
    v_image_file st = Some prev /\
    c_images st' !! id = Some (join datadir prev).
Proof.
  intros Hstep Hlf Hfiles Hother.
  destruct (camera_step_inv _ _ _ _ _ Hstep)
    as (lf' & flist' & ef & fext & kf & fint & imf & ext_s & int_s & M & tgt & K &
        Hl & Hfl & Hscan & _ & _ & _ & _ & _ & _ & _ & _ & _ & _ & ->).
  assert (flist' = flist) by congruence; subst flist'.
  rewrite (scan_list_missing id flist _ Hother) in Hscan.
  injection Hscan as Hscan.
  exists imf; split; [exact Hscan|cbn [c_images]; apply lookup_insert_eq].
Qed.

End CameraFacts.

(** ** The data directory of the examples *)

Lemma camera_step_r0 :
  exists st1,
    camera_step "data" join0 files0 exists0 imread0 float_of_digits profile0 None
                loader0 "r_0" = Done st1 /\
    v_image_file st1 = Some "r_0.png"%string /\
    c_target st1 = Some (Target 1 2 1 1) /\
    c_images st1 = {[ "r_0"%string := "data/r_0.png"%string ]}.
Proof. eexists; split; [reflexivity|]; repeat split; reflexivity. Qed.

Lemma cameras_complete_witness :
  exists st',
    load_cameras "data" join0 files0 exists0 imread0 float_of_digits profile0 None
                 loader0 ["r_0"; "r_1"]%string = Done st' /\
    has_camera exists0 st' "r_1" /\ c_target st' = Some (Target 1 2 1 1).
Proof.
  eexists; split; [reflexivity|].
  match goal with
  | |- has_camera _ ?st _ /\ _ =>
      destruct (cameras_complete "data" join0 files0 exists0 imread0 float_of_digits
                  profile0 None ["r_0"; "r_1"]%string loader0 st eq_refl)
        as (Hin & _ & _ & _)
  end.
  split; [apply Hin; right; left|reflexivity].
Defined.

Lemma other_camera_poses :
  Forall (other_camera "r_2")
         ["r_0 1 0 0 0 0 1 0 0 0 0 1 0 0 0 2 1"%string;
          "r_1 1 0 0 0 0 1 0 0 0 0 1 0 0 0 3 1"%string].
Proof.
  repeat (constructor;
          [eexists _, _; split; [vm_compute; reflexivity|discriminate]|]).
  constructor.
Qed.

Lemma missing_camera_aborts_witness :
  exists e,
    load_cameras "data" join0 files0 exists0 imread0 float_of_digits profile0 None
                 loader0 ["r_0"; "r_2"]%string = Failed e.
Proof.
  apply (missing_camera_aborts "data" join0 files0 exists0 imread0 float_of_digits
           profile0 None "r_2" "poses.txt"
           ["r_0 1 0 0 0 0 1 0 0 0 0 1 0 0 0 2 1"%string;
            "r_1 1 0 0 0 0 1 0 0 0 0 1 0 0 0 3 1"%string]
           ["r_0"; "r_2"]%string).
  - right; left.
  - left; reflexivity.
  - reflexivity.
  - exact other_camera_poses.
  - intros s; discriminate.
  - intros s; discriminate.
Defined.

Lemma stale_image_path_witness :
  exists st1 st2,
    camera_step "data" join0 files0 exists0 imread0 float_of_digits profile0 None
                loader0 "r_0" = Done st1 /\
    camera_step "data" join0 files0 exists0 imread0 float_of_digits profile0 None
                st1 "r_1" = Done st2 /\
    c_images st2 !! "r_1"%string = c_images st2 !! "r_0"%string.
Proof.
  eexists _, _; split; [reflexivity|].
  match goal with
  | |- ?lhs = Done ?s2 /\ _ => assert (Hstep : lhs = Done s2) by reflexivity
  end.
  split; [exact Hstep|].
  destruct (stale_image_path "data" join0 files0 exists0 imread0 float_of_digits
              profile0 None _ _ "r_1" "list.txt" ["r_0 r_0.png"%string]
              Hstep eq_refl eq_refl)
    as [prev [Hprev Himg]].
  - constructor; [|constructor].
    eexists _, _; split; [vm_compute; reflexivity|discriminate].
  - rewrite Himg; injection Hprev as <-; reflexivity.
Defined.

(** ** The whole constructor *)

Lemma init_loops_config
    (taps : nat * nat -> nat * nat -> nat -> nat -> list (nat * nat * R))
    (imread : string -> result image) (render_depth : mat4 -> mat3 -> nat -> R)
    (self0 self : dataset) (g g' : rng) :
  init_loops taps imread render_depth self0 g = Ok (self, g') ->
  same_config self0 self.
Proof.
  unfold init_loops; intros Hinit.
  destruct (load_labels taps imread self0 (list_ids self0)) as [s1|] eqn:H1;
    simpl in Hinit; [|discriminate].
  destruct (load_depths render_depth s1 (list_ids s1)) as [s2|] eqn:H2;
    simpl in Hinit; [|discriminate].
  destruct (load_labels_inv _ _ _ _ _ H1) as [C1 _].
  destruct (load_depths_inv _ _ _ _ H2) as [C2 _].
  destruct (load_samples_inv _ _ _ _ _ Hinit) as [C3 _].
  unfold same_config in *.
  destruct C1 as (? & ? & ? & ? & ? & ? & ?).
  destruct C2 as (? & ? & ? & ? & ? & ? & ?).
  destruct C3 as (? & ? & ? & ? & ? & ? & ?).
  repeat split; congruence.
Qed.

(** X15 — A dataset that [__init__] returns holds the identifiers it was
    given, in their order, and the limit; the image of every identifier
    exists on disk; and every index in [[-len, len)] can be fetched,
    without changing the dataset. *)
Theorem init_usable
    (datadir : string) (join : string -> string -> string)
    (files : string -> option (list string)) (exists_ : string -> bool)
    (imread : string -> result image) (float : string -> result R)
    (taps : nat * nat -> nat * nat -> nat -> nat -> list (nat * nat * R))
    (render_depth : mat4 -> mat3 -> nat -> R)
    (list_ids0 : list string) (profile_file : string) (lim : option Z)
    (dsize : option (nat * nat)) (g g' : rng) (self : dataset) :
  init datadir join files exists_ imread float taps render_depth
       list_ids0 profile_file lim dsize g = Done (self, g') ->
  list_ids self = list_ids0 /\ limit self = lim /\
  (forall id, id ∈ list_ids0 ->
     exists path, list_images self !! id = Some path /\ exists_ path = true) /\
  (forall index, (- Z.of_nat (len self) <= index < Z.of_nat (len self))%Z ->
     exists r, getitem self index = (Ok r, self)).
Proof.
  unfold init; intros Hinit.
  destruct (open_ datadir join files (Some profile_file)) as [fp|]; cbn [and_then] in Hinit;
    [|discriminate].
  destruct (parse_profile fp (Profile None None None)) as [prof|];
    cbn [and_then lift] in Hinit; [|discriminate].
  destruct (load_cameras datadir join files exists_ imread float prof dsize loader0
              list_ids0) as [st|] eqn:Hcam; cbn [and_then] in Hinit; [|discriminate].
  destruct (init_loops taps imread render_depth (dataset_of list_ids0 lim st) g)
    as [[self1 g1]|] eqn:Hloops; cbn [lift] in Hinit; [|discriminate].
  injection Hinit as -> ->.
  destruct (init_loops_config _ _ _ _ _ _ _ Hloops) as (Hids & Himg & _ & _ & Hlim & _).
  destruct (init_loops_caches _ _ _ _ _ _ _ Hloops) as [_ Hall].
  destruct (load_cameras_keeps datadir join files exists_ imread float prof dsize
              list_ids0 loader0 st Hcam) as (Hcams & _).
  cbn [dataset_of list_ids list_images limit] in Hids, Himg, Hlim.
  split; [congruence|split; [congruence|split]].
  - intros id Hid; destruct (Hcams id Hid) as [Hpath _]; rewrite <- Himg; exact Hpath.
  - intros index Hrange.
    destruct (py_index_in_range (list_ids self) index Hrange) as [id [Hidx Hin]].
    destruct (Hall id Hin) as [[x [m [Hx [Hm Hlm]]]] [lab [Hlab Hll]]].
    exists (x, select m lab, m).
    apply getitem_cached with (id := id); try assumption; congruence.
Qed.

Lemma init_data_directory :
  exists self g',
    init "data" join0 files0 exists0 imread0 float_of_digits taps0 render_depth0
         ["r_0"%string] "profile.txt" None None rng0 = Done (self, g').
Proof.
  unfold init.
  replace (open_ "data" join0 files0 (Some "profile.txt"%string))
    with (Done (profile_text "poses.txt" "Ks.txt" "list.txt")) by reflexivity.
  cbn [and_then].
  replace (parse_profile (profile_text "poses.txt" "Ks.txt" "list.txt")
                         (Profile None None None))
    with (Ok profile0) by reflexivity.
  cbn [and_then lift].
  match eval vm_compute in
        (load_cameras "data" join0 files0 exists0 imread0 float_of_digits profile0 None
                      loader0 ["r_0"%string]) with
  | Done ?st =>
      pose (st0 := st);
      assert (Hcam : load_cameras "data" join0 files0 exists0 imread0 float_of_digits
                                  profile0 None loader0 ["r_0"%string] = Done st0)
        by (vm_compute; reflexivity)
  end.
  rewrite Hcam; cbn [and_then].
  destruct (init_loops_returns taps0 imread0 render_depth0
              (dataset_of ["r_0"%string] None st0) rng0) as [self [g' Hinit]].
  - intros id Hid; apply list_elem_of_singleton in Hid as ->.
    eexists _, image0, _, _; repeat split; try reflexivity.
    unfold det3; simpl; lra.
  - intros l Hl; discriminate.
  - rewrite Hinit; exists self, g'; reflexivity.
Qed.

Lemma init_usable_witness :
  exists self g' r,
    init "data" join0 files0 exists0 imread0 float_of_digits taps0 render_depth0
         ["r_0"%string] "profile.txt" None None rng0 = Done (self, g') /\
    list_ids self = ["r_0"%string] /\
    getitem self (-1) = (Ok r, self).
Proof.
  destruct init_data_directory as [self [g' Hinit]].
  destruct (init_usable _ _ _ _ _ _ _ _ _ _ _ _ _ _ _ Hinit) as (Hids & _ & _ & Hget).
  destruct (Hget (-1)%Z) as [r Hr].
  - unfold len; rewrite Hids; simpl; lia.
  - exists self, g', r; repeat split; assumption.
Defined.

(** * Resuming from a checkpoint *)

Lemma last_map {A B} (f : A -> B) (l : list A) : last (map f l) = f <$> last l.
Proof.
  induction l as [|x [|y l] IH]; [reflexivity|reflexivity|].
  change (map f (x :: y :: l)) with (f x :: f y :: map f l).
  rewrite !last_cons_cons; exact IH.
Qed.

Lemma StronglySorted_filter {A} (R : relation A) (p : A -> bool) (l : list A) :
  StronglySorted R l -> StronglySorted R (List.filter p l).
Proof.
  induction 1 as [|x l Hs IH Hall]; simpl; [constructor|].
  destruct (p x); [|exact IH].
  constructor; [exact IH|].
  apply Forall_forall; intros y Hy.
  apply list_elem_of_In, filter_In in Hy as [Hy _].
  rewrite Forall_forall in Hall; apply Hall, list_elem_of_In, Hy.
Qed.

Lemma last_StronglySorted {A} (R : relation A) `{!Reflexive R} (l : list A) (x : A) :
  StronglySorted R l -> last l = Some x -> forall y, y ∈ l -> R y x.
Proof.
  induction 1 as [|a l Hs IH Hall]; intros Hlast y Hy; [inversion Hy|].
  destruct l as [|b l].
  - injection Hlast as <-; apply list_elem_of_singleton in Hy as ->; reflexivity.
  - rewrite last_cons_cons in Hlast.
    apply elem_of_cons in Hy as [->|Hy]; [|apply IH; assumption].
    rewrite Forall_forall in Hall; apply Hall.
    apply last_Some in Hlast as [l' ->]; apply elem_of_app; right; left.
Qed.

(** The file that is reloaded: the greatest name that contains ["pt"]. *)
Lemma resume_path_greatest (checkpoint_path : string -> string) (fs : list string) :
  match resume_path checkpoint_path (Some fs) false with
  | Some p =>
      exists f, p = checkpoint_path f /\ f ∈ fs /\ contains "pt" f = true /\
                forall f', f' ∈ fs -> contains "pt" f' = true -> String.le f' f
  | None => forall f, f ∈ fs -> contains "pt" f = false
  end.
Proof.
  unfold resume_path.
  set (cks := List.filter (contains "pt") (merge_sort String.le fs)).
  assert (Hmem : forall f, f ∈ cks <-> f ∈ fs /\ contains "pt" f = true).
  { intros f; unfold cks; rewrite list_elem_of_In, filter_In, <- list_elem_of_In.
    rewrite (merge_sort_Permutation String.le fs); reflexivity. }
  assert (Hsorted : StronglySorted String.le cks).
  { apply StronglySorted_filter, StronglySorted_merge_sort; apply _. }
  rewrite length_map; destruct cks as [|c cks'] eqn:E.
  - simpl; intros f Hf; destruct (contains "pt" f) eqn:Hp; [|reflexivity].
    assert (Hin : f ∈ []) by (apply Hmem; auto); inversion Hin.
  - cbn [length Nat.ltb Nat.leb andb negb]; rewrite last_map.
    destruct (last (c :: cks')) as [f|] eqn:Hlast; [|apply last_None in Hlast; discriminate].
    simpl; exists f; split; [reflexivity|].
    assert (Hf : f ∈ c :: cks').
    { apply last_Some in Hlast as [l' ->]; apply elem_of_app; right; left. }
    destruct (proj1 (Hmem f) Hf) as [Hfs Hpt].
    repeat split; try assumption.
    intros f' Hf' Hpt'.
    eapply (last_StronglySorted String.le); [exact Hsorted|exact Hlast|].
    apply Hmem; auto.
Qed.

(** X16 — Resuming reloads the file of the checkpoint directory whose
    name is the greatest, in the order of the characters, among those
    that contain ["pt"] anywhere in their name; nothing is reloaded when
    no name contains it, under [--restart], or without a checkpoint
    directory. *)
Theorem resume_latest (checkpoint_path : string -> string) (fs : list string)
    (restart : bool) :
  match resume_path checkpoint_path (Some fs) false with
  | Some p =>
      exists f, p = checkpoint_path f /\ f ∈ fs /\ contains "pt" f = true /\
                forall f', f' ∈ fs -> contains "pt" f' = true -> String.le f' f
  | None => forall f, f ∈ fs -> contains "pt" f = false
  end /\
  resume_path checkpoint_path (Some fs) true = None /\
  resume_path checkpoint_path None restart = None.
Proof.
  split; [apply resume_path_greatest|split; [|reflexivity]].
  unfold resume_path; rewrite andb_false_r; reflexivity.
Qed.

(** ** The names of the checkpoints *)

Lemma contains_pt_suffix (a : string) : contains "pt" (a +:+ ".pt") = true.
Proof.
  induction a as [|c a IH]; [reflexivity|].
  rewrite append_cons; cbn [contains]; rewrite IH; apply orb_true_r.
Qed.

Lemma compare_refl (s : string) : (s ?= s)%string = Eq.
Proof.
  induction s as [|c s IH]; [reflexivity|]; simpl.
  unfold Ascii.compare; rewrite N.compare_refl; exact IH.
Qed.

Lemma ltb_le_ne (a b : string) : String.ltb a b = true -> String.le a b /\ a <> b.
Proof.
  unfold String.ltb, String.le, String.leb.
  destruct (a ?= b)%string eqn:Hc; try discriminate; intros _.
  split; [exact I|]; intros ->.
  rewrite compare_refl in Hc; discriminate.
Qed.

Lemma epoch_names_adjacent :
  forallb (fun e => String.ltb (epoch_name e) (epoch_name (S e)))
          (seq 0 (Z.to_nat 9999)) = true.
Proof. vm_compute; reflexivity. Qed.

Lemma epoch_names_increasing (e2 : nat) :
  (Z.of_nat e2 < 10000)%Z ->
  forall e1, (e1 < e2)%nat ->
    String.le (epoch_name e1) (epoch_name e2) /\ epoch_name e1 <> epoch_name e2.
Proof.
  induction e2 as [|e2 IH]; intros Hlt e1 H12; [lia|].
  assert (Hadj : String.le (epoch_name e2) (epoch_name (S e2)) /\
                 epoch_name e2 <> epoch_name (S e2)).
  { apply ltb_le_ne.
    pose proof epoch_names_adjacent as Hall; rewrite forallb_forall in Hall.
    apply (Hall e2), in_seq; lia. }
  destruct (decide (e1 = e2)) as [->|Hne]; [exact Hadj|].
  destruct (IH ltac:(lia) e1 ltac:(lia)) as [Hle Hdiff].
  destruct Hadj as [Hle' Hdiff'].
  split; [etrans; eassumption|].
  intros Heq; apply Hdiff.
  apply (anti_symm String.le); [exact Hle|rewrite Heq; exact Hle'].
Qed.

(** X17 — The names under which the loop saves are found by the
    reload test; the name of the final checkpoint is greater than that
    of every epoch; below epoch 10000 a later epoch has a greater name,
    and the name of epoch 10000 is smaller than that of epoch 9999. *)
Theorem checkpoint_names_order :
  (forall e, contains "pt" (epoch_name e) = true /\
             String.le (epoch_name e) final_name /\ epoch_name e <> final_name) /\
  contains "pt" final_name = true /\
  (forall e1 e2, (e1 < e2)%nat -> (Z.of_nat e2 < 10000)%Z ->
     String.le (epoch_name e1) (epoch_name e2) /\ epoch_name e1 <> epoch_name e2) /\
  ~ String.le (epoch_name (Z.to_nat 9999)) (epoch_name (Z.to_nat 10000)).
Proof.
  split; [|split; [reflexivity|split]].
  - intros e; split; [|split].
    + unfold epoch_name; rewrite <- append_assoc; apply contains_pt_suffix.
    + exact I.
    + intros Heq.
      assert (Hc : String.leb final_name (epoch_name e) = false) by reflexivity.
      rewrite Heq in Hc; vm_compute in Hc; discriminate.
  - intros e1 e2 H12 H2; apply epoch_names_increasing; assumption.
  - intros H; vm_compute in H; exact H.
Qed.

(** X18 — In a directory that holds the final checkpoint, and otherwise
    only checkpoints of epochs and files without ["pt"] in their name,
    resuming reloads the final checkpoint. *)
Theorem resume_after_complete_run (checkpoint_path : string -> string)
    (fs : list string) :
  final_name ∈ fs ->
  (forall f, f ∈ fs -> contains "pt" f = true ->
     f = final_name \/ exists e, f = epoch_name e) ->
  resume_path checkpoint_path (Some fs) false = Some (checkpoint_path final_name).
Proof.
  intros Hfinal Hnames.
  pose proof (resume_path_greatest checkpoint_path fs) as Hres.
  destruct (resume_path checkpoint_path (Some fs) false) as [p|].
  - destruct Hres as (f & -> & Hf & Hpt & Hmax).
    f_equal; f_equal.
    destruct (Hnames f Hf Hpt) as [->|[e ->]]; [reflexivity|].
    apply (anti_symm String.le); [exact I|].
    apply Hmax; [exact Hfinal|reflexivity].
  - specialize (Hres final_name Hfinal); discriminate.
Qed.

Lemma resume_after_complete_run_witness :
  resume_path (fun f => ("logs/checkpoints/" +:+ f)%string)
              (Some [final_name; epoch_name 30; "log.txt"%string; epoch_name 60]) false
  = Some ("logs/checkpoints/model_final.pt"%string).
Proof.
  apply (resume_after_complete_run (fun f => ("logs/checkpoints/" +:+ f)%string)).
  - left.
  - intros f Hf Hpt.
    apply elem_of_cons in Hf as [->|Hf]; [left; reflexivity|].
    apply elem_of_cons in Hf as [->|Hf]; [right; exists 30%nat; reflexivity|].
    apply elem_of_cons in Hf as [->|Hf]; [vm_compute in Hpt; discriminate|].
    apply list_elem_of_singleton in Hf as ->; right; exists 60%nat; reflexivity.
Defined.

(** * The schedule of the training loop *)

Lemma epoch_body_turn (N t c e : Z) :
  t <> 0%Z -> c <> 0%Z -> epoch_body N t c e = (turn N t c e, None).
Proof.
  intros Ht Hc; unfold epoch_body, py_mod, turn.
  destruct (Z.eqb_spec t 0); [contradiction|].
  destruct (Z.eqb_spec c 0); [contradiction|reflexivity].
Qed.

Lemma training_loop_turns (N t c : Z) (epochs : list Z) :
  t <> 0%Z -> c <> 0%Z ->
  training_loop N t c epochs = (flat_map (turn N t c) epochs ++ [SaveFinal], None).
Proof.
  intros Ht Hc; induction epochs as [|e es IH]; [reflexivity|].
  cbn [training_loop flat_map]; rewrite epoch_body_turn, IH by assumption.
  cbn [fst snd]; rewrite <- app_assoc; reflexivity.
Qed.

Lemma test_turn_iff (t e : Z) :
  (0 < t)%Z -> ((e mod t = t - 1)%Z <-> ((e + 1) mod t = 0)%Z).
Proof.
  intros Ht; split; intros Hm.
  - rewrite <- Z.add_mod_idemp_l, Hm by lia.
    replace (t - 1 + 1)%Z with t by lia; apply Z.mod_same; lia.
  - pose proof (Z.mod_pos_bound e t Ht) as Hb.
    rewrite <- Z.add_mod_idemp_l in Hm by lia.
    destruct (decide (e mod t + 1 = t)%Z) as [|Hne]; [lia|].
    rewrite Z.mod_small in Hm by lia; lia.
Qed.

(** The events of a run are those of its turns. *)
Lemma elem_of_turns (N t c : Z) (ev : event) :
  ev ∈ flat_map (turn N t c) (seqZ 0 N) <->
  exists e, (0 <= e < N)%Z /\ ev ∈ turn N t c e.
Proof.
  rewrite list_elem_of_In, in_flat_map; split.
  - intros [e [He Hev]]; exists e; split; [|apply list_elem_of_In, Hev].
    apply list_elem_of_In, elem_of_seqZ in He; lia.
  - intros [e [He Hev]]; exists e; split; [|apply list_elem_of_In, Hev].
    apply list_elem_of_In, elem_of_seqZ; lia.
Qed.

Lemma elem_of_turn (N t c e : Z) (ev : event) :
  ev ∈ turn N t c e <->
  ev = RunEpoch e \/
  (ev = RunTest e (N - t <=? e)%Z /\ (e mod t = t - 1)%Z) \/
  (ev = SaveEpoch e /\ (e mod c = 0)%Z /\ e <> 0%Z).
Proof.
  unfold turn; rewrite elem_of_cons, elem_of_app.
  destruct (Z.eqb_spec (e mod t) (t - 1)); destruct (Z.eqb_spec (e mod c) 0);
    destruct (Z.eqb_spec e 0); cbn [andb negb];
    rewrite ?list_elem_of_singleton, ?elem_of_nil; intuition congruence.
Qed.

(** The tests of a run. *)
Lemma run_test_turns (N t c e : Z) (png : bool) :
  (0 < t)%Z ->
  RunTest e png ∈ flat_map (turn N t c) (seqZ 0 N) <->
  (0 <= e < N)%Z /\ ((e + 1) mod t = 0)%Z /\ png = (N - t <=? e)%Z.
Proof.
  intros Ht; rewrite elem_of_turns; split.
  - intros [e' [He' Hev]]; apply elem_of_turn in Hev.
    destruct Hev as [? | [[[= -> ->] Hm] | [? _]]]; [discriminate| |discriminate].
    split; [exact He'|split; [apply test_turn_iff; assumption|reflexivity]].
  - intros (He & Hm & ->); exists e; split; [exact He|].
    apply elem_of_turn; right; left; split; [reflexivity|apply test_turn_iff; assumption].
Qed.

(** X19 — With positive intervals a training run raises nothing and
    ends with the final save; every epoch below [num_epochs] is trained;
    a test follows exactly the epochs [e] with [e + 1] a multiple of
    [epochs_til_test], writing images when [e >= num_epochs -
    epochs_til_test]; a checkpoint is saved after exactly the epochs other
    than 0 that are multiples of [epochs_til_ckpt]. *)
Theorem training_schedule (N t c : Z) :
  (0 < t)%Z -> (0 < c)%Z ->
  exists evs,
    training false N t c = (evs ++ [SaveFinal], None) /\
    (forall e, RunEpoch e ∈ evs <-> (0 <= e < N)%Z) /\
    (forall e png, RunTest e png ∈ evs <->
       (0 <= e < N)%Z /\ ((e + 1) mod t = 0)%Z /\ png = (N - t <=? e)%Z) /\
    (forall e, SaveEpoch e ∈ evs <-> (0 < e < N)%Z /\ (e mod c = 0)%Z) /\
    SaveFinal ∉ evs.
Proof.
  intros Ht Hc; exists (flat_map (turn N t c) (seqZ 0 N)); split.
  { unfold training; apply training_loop_turns; lia. }
  split; [|split; [|split]].
  - intros e; rewrite elem_of_turns; split.
    + intros [e' [He' Hev]]; apply elem_of_turn in Hev.
      destruct Hev as [[= ->] | [[? _] | [? _]]]; [exact He'|discriminate|discriminate].
    + intros He; exists e; split; [exact He|].
      apply elem_of_turn; left; reflexivity.
  - intros e png; apply run_test_turns; exact Ht.
  - intros e; rewrite elem_of_turns; split.
    + intros [e' [He' Hev]]; apply elem_of_turn in Hev.
      destruct Hev as [? | [[? _] | [[= ->] [Hm Hne]]]]; [discriminate|discriminate|].
      split; [lia|exact Hm].
    + intros [He Hm]; exists e; split; [lia|].
      apply elem_of_turn; right; right; split; [reflexivity|split; [exact Hm|lia]].
  - rewrite elem_of_turns; intros [e' [He' Hev]]; apply elem_of_turn in Hev.
    destruct Hev as [? | [[? _] | [? _]]]; discriminate.
Qed.

Lemma training_schedule_witness :
  exists evs,
    training false 100 10 30 = (evs ++ [SaveFinal], None) /\
    RunTest 99 true ∈ evs /\ SaveEpoch 90 ∈ evs.
Proof.
  destruct (training_schedule 100 10 30) as (evs & Hrun & _ & Htest & Hsave & _);
    [lia|lia|].
  exists evs; split; [exact Hrun|split].
  - apply Htest; repeat split; reflexivity || lia.
  - apply Hsave; repeat split; reflexivity || lia.
Defined.

Lemma multiple_of (t x : Z) : (0 < t)%Z -> (x mod t = 0)%Z -> exists q, x = (t * q)%Z.
Proof.
  intros Ht Hm; exists (x / t)%Z.
  pose proof (Z.div_mod x t ltac:(lia)); lia.
Qed.

(** X20 — With positive intervals the images are written by at most one
    test of a run, the last one; by exactly one when there are at least
    [epochs_til_test] epochs; with fewer epochs no test is run at all. *)
Theorem images_written_once (N t c : Z) :
  (0 < t)%Z -> (0 < c)%Z ->
  exists evs,
    training false N t c = (evs ++ [SaveFinal], None) /\
    (forall e1 e2, RunTest e1 true ∈ evs -> RunTest e2 true ∈ evs -> e1 = e2) /\
    (forall e1 e2 png, RunTest e1 true ∈ evs -> RunTest e2 png ∈ evs -> (e2 <= e1)%Z) /\
    ((t <= N)%Z -> RunTest (N / t * t - 1) true ∈ evs) /\
    ((N < t)%Z -> forall e png, RunTest e png ∉ evs).
Proof.
  intros Ht Hc; exists (flat_map (turn N t c) (seqZ 0 N)); split.
  { unfold training; apply training_loop_turns; lia. }
  set (evs := flat_map (turn N t c) (seqZ 0 N)).
  assert (Htest : forall e png, RunTest e png ∈ evs <->
            (0 <= e < N)%Z /\ ((e + 1) mod t = 0)%Z /\ png = (N - t <=? e)%Z)
    by (intros e png; apply run_test_turns; exact Ht).
  clearbody evs.
  assert (Hlate : forall e1 e2 png,
             RunTest e1 true ∈ evs -> RunTest e2 png ∈ evs -> (e2 <= e1)%Z).
  { intros e1 e2 png H1 H2.
    apply Htest in H1 as (B1 & M1 & P1); apply Htest in H2 as (B2 & M2 & _).
    symmetry in P1; apply Z.leb_le in P1.
    destruct (multiple_of t _ Ht M1) as [q1 Q1].
    destruct (multiple_of t _ Ht M2) as [q2 Q2].
    destruct (Z.le_gt_cases q2 q1) as [Hq|Hq]; nia. }
  split; [|split; [exact Hlate|split]].
  - intros e1 e2 H1 H2.
    pose proof (Hlate e1 e2 true H1 H2); pose proof (Hlate e2 e1 true H2 H1); lia.
  - intros HtN; apply Htest.
    pose proof (Z.div_mod N t ltac:(lia)) as Hdm.
    pose proof (Z.mod_pos_bound N t Ht) as Hb.
    assert (Hq : (1 <= N / t)%Z) by (apply Z.div_le_lower_bound; lia).
    split; [nia|split].
    + replace (N / t * t - 1 + 1)%Z with (N / t * t)%Z by lia.
      apply Z.mod_mul; lia.
    + symmetry; apply Z.leb_le; nia.
  - intros HNt e png Hev; apply Htest in Hev as (B & M & _).
    destruct (multiple_of t _ Ht M) as [q Q].
    destruct (Z.le_gt_cases q 0); nia.
Qed.

Lemma images_written_once_witness :
  exists evs,
    training false 25 10 30 = (evs ++ [SaveFinal], None) /\
    RunTest 19 true ∈ evs /\
    forall e, RunTest e true ∈ evs -> e = 19%Z.
Proof.
  destruct (images_written_once 25 10 30) as (evs & Hrun & Huniq & _ & Hlast & _);
    [lia|lia|].
  exists evs; split; [exact Hrun|].
  assert (H19 : RunTest 19 true ∈ evs) by (apply Hlast; lia).
  split; [exact H19|].
  intros e He; apply Huniq; assumption.
Defined.

(** X21 — An interval of 0 makes the run stop with [ZeroDivisionError]
    as soon as the first epoch has been trained: nothing is saved, not
    even the final checkpoint. *)
Theorem zero_interval_aborts (N t c : Z) :
  (0 < N)%Z -> t = 0%Z \/ c = 0%Z ->
  exists evs,
    training false N t c = (evs, Some ZeroDivisionError) /\
    RunEpoch 0 ∈ evs /\
    forall ev, ev ∈ evs -> ev = RunEpoch 0 \/ exists png, ev = RunTest 0 png.
Proof.
  intros HN Hzero; unfold training.
  assert (Hseq : seqZ 0 N = 0%Z :: seqZ 1 (N - 1)).
  { rewrite (seqZ_cons 0 N) by lia; f_equal. }
  rewrite Hseq; cbn [training_loop]; unfold epoch_body, py_mod.
  destruct (Z.eqb_spec t 0) as [-> | Ht].
  - exists [RunEpoch 0]; split; [reflexivity|split; [left|]].
    intros ev Hev; apply list_elem_of_singleton in Hev; left; exact Hev.
  - destruct Hzero as [? | ->]; [contradiction|]; cbn [Z.eqb].
    eexists; split; [reflexivity|split; [left|]].
    intros ev Hev; apply elem_of_cons in Hev as [-> | Hev]; [left; reflexivity|].
    right; destruct (_ =? _)%Z; [|inversion Hev].
    apply list_elem_of_singleton in Hev; eauto.
Qed.

Lemma zero_interval_aborts_witness :
  exists evs,
    training false 100 10 0 = (evs, Some ZeroDivisionError) /\ SaveFinal ∉ evs.
Proof.
  destruct (zero_interval_aborts 100 10 0) as (evs & Hrun & _ & Honly);
    [lia|right; reflexivity|].
  exists evs; split; [exact Hrun|].
  intros Hfinal; destruct (Honly _ Hfinal) as [? | [png ?]]; discriminate.
Defined.
